(** * ChronoSweep: retention rules, cleanup and alert scheduling

    A shallow embedding of [folder_cleaner/service.py] and
    [folder_cleaner/config.py].

    Conventions of the embedding.
    - A [timedelta] is its exact number of microseconds, a naive [datetime]
      the number of microseconds since midnight of ordinal day 0, a [date]
      its ordinal day number.  Sums of a [date] or a [datetime] and a
      [timedelta] raise [OverflowError] when they leave the years 1 to 9999,
      as in Python; an instant that is given (an argument, a reading of the
      clock, a modification time) is taken as it is.
    - A [str] is a [string] of bytes; [strip], [lower] and the class [\d] are
      the ASCII ones.
    - Binary floating point is idealised: a finite [float] is the rational it
      denotes and arithmetic on it is exact.
    - The file system is a tree of files and directories (no symbolic
      links); the order of a directory's children is the order in which the
      operating system lists them.  A node carries the local naive time that
      [datetime.fromtimestamp(stat().st_mtime)] returns for it. *)

From Stdlib Require Import ZArith QArith List String Ascii Bool Lia.
From Stdlib Require Import Sorting.Sorted Sorting.Permutation.
Import ListNotations.

Local Open Scope string_scope.
Local Open Scope list_scope.
Local Open Scope Z_scope.

(* ------------------------------------------------------------------ *)
(** ** Exceptions and results *)

Inductive exn : Type :=
| ValueError (msg : string)
| OverflowError
| FileNotFoundError
| FileExistsError
| NotADirectoryError
| DirectoryNotEmpty        (* OSError, errno ENOTEMPTY *)
| ShutilError (msg : string)
| AttributeError (msg : string)
| IsADirectoryError
| OSError (msg : string).

Inductive result (A : Type) : Type :=
| Ok (a : A)
| Raise (e : exn).
Arguments Ok {A} a.
Arguments Raise {A} e.

Definition bind {A B : Type} (r : result A) (k : A -> result B) : result B :=
  match r with
  | Ok a => k a
  | Raise e => Raise e
  end.

Notation "x <- r ;; k" := (bind r (fun x => k))
  (at level 61, r at next level, right associativity).

Definition raises {A : Type} (r : result A) : Prop :=
  exists e, r = Raise e.

Fixpoint mapM {A B : Type} (f : A -> result B) (l : list A) : result (list B) :=
  match l with
  | [] => Ok []
  | a :: rest => b <- f a ;; bs <- mapM f rest ;; Ok (b :: bs)
  end.

(* ------------------------------------------------------------------ *)
(** ** Strings *)

Definition ascii_in_range (lo hi : N) (c : ascii) : bool :=
  ((lo <=? N_of_ascii c) && (N_of_ascii c <=? hi))%N.

(** [str.isspace] on the ASCII range. *)
Definition is_space (c : ascii) : bool :=
  ascii_in_range 9 13 c || ascii_in_range 28 32 c.

Definition is_digit (c : ascii) : bool := ascii_in_range 48 57 c.

Definition lower_ascii (c : ascii) : ascii :=
  if ascii_in_range 65 90 c then ascii_of_N (N_of_ascii c + 32) else c.

Fixpoint lower (s : string) : string :=
  match s with
  | EmptyString => EmptyString
  | String c rest => String (lower_ascii c) (lower rest)
  end.

Fixpoint lstrip (s : string) : string :=
  match s with
  | EmptyString => EmptyString
  | String c rest => if is_space c then lstrip rest else s
  end.

Fixpoint rstrip (s : string) : string :=
  match s with
  | EmptyString => EmptyString
  | String c rest =>
      match rstrip rest with
      | EmptyString => if is_space c then EmptyString else String c EmptyString
      | r => String c r
      end
  end.

Definition strip (s : string) : string := rstrip (lstrip s).

(** Longest prefix of decimal digits, and what follows it. *)
Fixpoint span_digits (s : string) : string * string :=
  match s with
  | EmptyString => (EmptyString, EmptyString)
  | String c rest =>
      if is_digit c
      then let '(ds, tl) := span_digits rest in (String c ds, tl)
      else (EmptyString, s)
  end.

Definition digit_value (c : ascii) : Z := Z.of_N (N_of_ascii c) - 48.

Fixpoint decimal_acc (acc : Z) (s : string) : Z :=
  match s with
  | EmptyString => acc
  | String c rest => decimal_acc (10 * acc + digit_value c) rest
  end.

(** [float(digits)] for a string of decimal digits. *)
Definition decimal_value (s : string) : Z := decimal_acc 0 s.

(* ------------------------------------------------------------------ *)
(** ** Durations *)

Definition timedelta := Z.

Definition usec_per_second : Z := 1000000.
Definition usec_per_hour : Z := 3600 * usec_per_second.
Definition usec_per_day : Z := 86400 * usec_per_second.
Definition usec_per_week : Z := 7 * usec_per_day.

Definition timedelta_max_days : Z := 999999999.

(** The constructor of [timedelta] normalises to days, seconds and
    microseconds and refuses more than 999999999 days either way. *)
Definition mk_timedelta (usec : Z) : result timedelta :=
  if Z.abs (usec / usec_per_day) <=? timedelta_max_days
  then Ok usec
  else Raise OverflowError.

Definition total_seconds_negative (td : timedelta) : bool := td <? 0.

Inductive pyfloat : Type :=
| FNan
| FInf (negative : bool)
| FFinite (q : Q).

(** Nearest integer, ties to even. *)
Definition round_half_even (q : Q) : Z :=
  let n := Qnum q in
  let d := Zpos (Qden q) in
  let fl := n / d in
  let r := n mod d in
  match 2 * r ?= d with
  | Lt => fl
  | Gt => fl + 1
  | Eq => if Z.even fl then fl else fl + 1
  end.

Definition float_lt_zero (f : pyfloat) : bool :=
  match f with
  | FNan => false
  | FInf negative => negative
  | FFinite q => Qnum q <? 0
  end.

(** [timedelta(days=f)] *)
Definition timedelta_of_days (f : pyfloat) : result timedelta :=
  match f with
  | FNan => Raise (ValueError "cannot convert float NaN to integer")
  | FInf _ => Raise OverflowError
  | FFinite q => mk_timedelta (round_half_even (q * inject_Z usec_per_day))
  end.

(** The values a caller can hand to the duration parsers. *)
Inductive pyvalue : Type :=
| VTimedelta (td : timedelta)
| VBool (b : bool)
| VInt (z : Z)
| VFloat (f : pyfloat)
| VStr (s : string)
| VOther.                      (* None, lists, mappings, ... *)

(** [float(value)] for the members of [(int, float)]; [bool] is a subclass
    of [int]. *)
Definition float_of_number (v : pyvalue) : option pyfloat :=
  match v with
  | VBool b => Some (FFinite (inject_Z (if b then 1 else 0)))
  | VInt z => Some (FFinite (inject_Z z))
  | VFloat f => Some f
  | _ => None
  end.

Inductive unit_char : Type := UnitH | UnitD | UnitW | UnitY.

Definition unit_of_ascii (c : ascii) : option unit_char :=
  if Ascii.eqb c "h" then Some UnitH
  else if Ascii.eqb c "d" then Some UnitD
  else if Ascii.eqb c "w" then Some UnitW
  else if Ascii.eqb c "y" then Some UnitY
  else None.

Definition newline : string := String (ascii_of_N 10) EmptyString.

(** [re.match(r"^(\d+)([hdwy])$", text)]: the groups when it matches.  A
    [$] also matches just before a final newline. *)
Definition match_amount_unit (text : string) : option (string * unit_char) :=
  match span_digits text with
  | (EmptyString, _) => None
  | (ds, String c tl) =>
      match unit_of_ascii c with
      | Some u =>
          if String.eqb tl EmptyString || String.eqb tl newline
          then Some (ds, u) else None
      | None => None
      end
  | (_, EmptyString) => None
  end.

(** [re.match(r"^(\d+)$", text)] *)
Definition match_amount (text : string) : option string :=
  match span_digits text with
  | (EmptyString, _) => None
  | (ds, tl) =>
      if String.eqb tl EmptyString || String.eqb tl newline
      then Some ds else None
  end.

(** The loop over the two patterns, then [match.group(1)] and the unit:
    [match.group(2)] when the pattern has two groups, ["d"] otherwise. *)
Definition match_duration_text (text : string) : option (string * unit_char) :=
  match match_amount_unit text with
  | Some g => Some g
  | None =>
      match match_amount text with
      | Some ds => Some (ds, UnitD)
      | None => None
      end
  end.

Definition timedelta_of_amount (amount : Z) (u : unit_char) : result timedelta :=
  match u with
  | UnitH => mk_timedelta (amount * usec_per_hour)
  | UnitD => mk_timedelta (amount * usec_per_day)
  | UnitW => mk_timedelta (amount * usec_per_week)
  | UnitY => mk_timedelta (amount * 365 * usec_per_day)
  end.

(** [config._parse_duration] *)
Definition _parse_duration (value : pyvalue) : result timedelta :=
  match value with
  | VTimedelta td => Ok td
  | VBool _ | VInt _ | VFloat _ =>
      match float_of_number value with
      | Some f => timedelta_of_days f
      | None => Raise (ValueError "retention_time must be a string like '5d', '12h', or '1y'")
      end
  | VStr s =>
      let text := lower (strip s) in
      match match_duration_text text with
      | None => Raise (ValueError "retention_time must be like '5d', '12h', '1y'")
      | Some (ds, u) => timedelta_of_amount (decimal_value ds) u
      end
  | VOther => Raise (ValueError "retention_time must be a string like '5d', '12h', or '1y'")
  end.

Definition number_lt_zero (v : pyvalue) : bool :=
  match v with
  | VInt z => z <? 0
  | VFloat f => float_lt_zero f
  | _ => false
  end.

(** [service._parse_offset] *)
Definition _parse_offset (value : pyvalue) : result timedelta :=
  match value with
  | VTimedelta td =>
      if total_seconds_negative td
      then Raise (ValueError "notify_before values must be >= 0")
      else Ok td
  | VBool _ => Raise (ValueError "notify_before values must be >= 0")
  | VInt _ | VFloat _ =>
      if number_lt_zero value
      then Raise (ValueError "notify_before values must be >= 0")
      else match float_of_number value with
           | Some f => timedelta_of_days f
           | None => Raise (ValueError "notify_before must be numbers, timedeltas, or strings like '5h', '2d'")
           end
  | VStr s =>
      let text := lower (strip s) in
      match match_duration_text text with
      | None => Raise (ValueError "notify_before string must look like '5d', '12h', or '1y'")
      | Some (ds, u) => timedelta_of_amount (decimal_value ds) u
      end
  | VOther => Raise (ValueError "notify_before must be numbers, timedeltas, or strings like '5h', '2d'")
  end.

(* ------------------------------------------------------------------ *)
(** ** Paths

    [pathlib.PurePosixPath]: a root (empty for a relative path) and the
    components after it. *)

Record Path : Type := mkPath { root : string; names : list string }.

(** Split at every ["/"]. *)
Fixpoint split_slash (cur : string) (s : string) : list string :=
  match s with
  | EmptyString => [cur]
  | String c rest =>
      if Ascii.eqb c "/"
      then cur :: split_slash EmptyString rest
      else split_slash (cur ++ String c EmptyString)%string rest
  end.

Definition starts_with_slash (s : string) : bool :=
  match s with
  | String c _ => Ascii.eqb c "/"
  | EmptyString => false
  end.

(** [posixpath.splitroot]: exactly two leading slashes are kept, any other
    number of them is one. *)
Definition root_of_string (s : string) : string :=
  match s with
  | String c1 rest1 =>
      if Ascii.eqb c1 "/" then
        match rest1 with
        | String c2 rest2 =>
            if Ascii.eqb c2 "/"
            then (if starts_with_slash rest2 then "/" else "//")
            else "/"
        | EmptyString => "/"
        end
      else ""
  | EmptyString => ""
  end.

Definition keep_component (x : string) : bool :=
  negb (String.eqb x "") && negb (String.eqb x ".").

(** [Path(s)] *)
Definition Path_of_string (s : string) : Path :=
  mkPath (root_of_string s) (filter keep_component (split_slash EmptyString s)).

Definition is_absolute (p : Path) : bool := negb (String.eqb (root p) "").

(** [p.parts] *)
Definition parts (p : Path) : list string :=
  if is_absolute p then root p :: names p else names p.

(** [p.name] *)
Definition name (p : Path) : string := last (names p) "".

(** [p.parent] *)
Definition parent (p : Path) : Path := mkPath (root p) (removelast (names p)).

(** [p / q] *)
Definition joinpath (p q : Path) : Path :=
  if is_absolute q then q else mkPath (root p) (names p ++ names q).

(** [p / s] for a string [s] *)
Definition joinstr (p : Path) (s : string) : Path := joinpath p (Path_of_string s).

(** [p / entry] for an entry that the operating system lists in directory
    [p]: one component. *)
Definition child_path (p : Path) (entry : string) : Path :=
  mkPath (root p) (names p ++ [entry]).

(** [p.with_name(s)]; a path without a name has none to replace. *)
Definition with_name (p : Path) (s : string) : result Path :=
  match names p with
  | [] => Raise (ValueError "path has an empty name")
  | _ => Ok (mkPath (root p) (removelast (names p) ++ [s]))
  end.

Fixpoint list_string_eqb (a b : list string) : bool :=
  match a, b with
  | [], [] => true
  | x :: a', y :: b' => String.eqb x y && list_string_eqb a' b'
  | _, _ => false
  end.

Definition Path_eqb (p q : Path) : bool :=
  String.eqb (root p) (root q) && list_string_eqb (names p) (names q).

(** [p.relative_to(base)] *)
Definition relative_to (p base : Path) : result Path :=
  if String.eqb (root p) (root base)
     && list_string_eqb (firstn (List.length (names base)) (names p)) (names base)
  then Ok (mkPath "" (skipn (List.length (names base)) (names p)))
  else Raise (ValueError "path is not in the subpath of the base").

Fixpoint join_with (sep : string) (l : list string) : string :=
  match l with
  | [] => ""
  | [x] => x
  | x :: rest => (x ++ sep ++ join_with sep rest)%string
  end.

(** [p.as_posix()] *)
Definition as_posix (p : Path) : string :=
  match names p with
  | [] => if is_absolute p then root p else "."
  | _ => (root p ++ join_with "/" (names p))%string
  end.

(* ------------------------------------------------------------------ *)
(** ** Rules *)

Module PatternRule.
Record t : Type := mk {
  pattern : string;
  retention : timedelta;
  notify_before : list timedelta;
  action : string
}.
End PatternRule.

Module FolderRule.
Record t : Type := mk {
  path : Path;
  retention : timedelta;
  notify_before : list timedelta;
  exemptions : list string;
  action : string;
  patterns : list PatternRule.t
}.
End FolderRule.

(** Insertion into an ascending list without repetition. *)
Fixpoint insert_offset (x : timedelta) (l : list timedelta) : list timedelta :=
  match l with
  | [] => [x]
  | y :: rest =>
      if x <? y then x :: l
      else if x =? y then l
      else y :: insert_offset x rest
  end.

(** [tuple(sorted(set(offsets), key=lambda td: td.total_seconds()))] *)
Definition sorted_set (offsets : list timedelta) : list timedelta :=
  fold_right insert_offset [] offsets.

(** The retention a rule is built with: a number counts days. *)
Definition retention_value (retention : pyvalue) : result timedelta :=
  match retention with
  | VTimedelta td => Ok td
  | VBool _ | VInt _ | VFloat _ =>
      match float_of_number retention with
      | Some f => timedelta_of_days f
      | None => Raise (AttributeError "total_seconds")
      end
  | _ => Raise (AttributeError "total_seconds")
  end.

Definition checked_retention (retention : pyvalue) : result timedelta :=
  td <- retention_value retention ;;
  if total_seconds_negative td
  then Raise (ValueError "retention must be >= 0")
  else Ok td.

Definition valid_action (action : string) : bool :=
  String.eqb action "delete" || String.eqb action "trash"
  || String.eqb action "system_trash".

(** [PatternRule(...)] with its [__post_init__] *)
Definition new_PatternRule (pattern : string) (retention : pyvalue)
    (notify_before : list pyvalue) (action : string) : result PatternRule.t :=
  td <- checked_retention retention ;;
  offsets <- mapM _parse_offset notify_before ;;
  if valid_action action
  then Ok (PatternRule.mk (strip pattern) td (sorted_set offsets) action)
  else Raise (ValueError "action must be 'delete', 'trash', or 'system_trash'").

Fixpoint dedup (l : list string) : list string :=
  match l with
  | [] => []
  | x :: rest => if existsb (String.eqb x) rest then dedup rest else x :: dedup rest
  end.

(** [{ex.strip() for ex in exemptions if str(ex).strip()}] *)
Definition cleaned_exemptions (exemptions : list string) : list string :=
  dedup (map strip (filter (fun ex => negb (String.eqb (strip ex) "")) exemptions)).

(** [FolderRule(...)] with its [__post_init__]; [path] is the path already
    expanded and resolved. *)
Definition new_FolderRule (path : Path) (retention : pyvalue)
    (notify_before : list pyvalue) (exemptions : list string) (action : string)
    (patterns : list PatternRule.t) : result FolderRule.t :=
  td <- checked_retention retention ;;
  offsets <- mapM _parse_offset notify_before ;;
  if valid_action action
  then Ok (FolderRule.mk path td (sorted_set offsets)
             (cleaned_exemptions exemptions) action patterns)
  else Raise (ValueError "action must be 'delete', 'trash', or 'system_trash'").

(** [FolderCleanerService._is_exempt]: the loop over the exemptions. *)
Fixpoint is_exempt_loop (relative_path : Path) (exemptions : list string) : bool :=
  match exemptions with
  | [] => false
  | exemption :: rest =>
      let ex_path := Path_of_string exemption in
      if is_absolute ex_path then
        if Path_eqb relative_path ex_path then true
        else is_exempt_loop relative_path rest
      else
        let rel_parts := parts relative_path in
        let ex_parts := parts ex_path in
        if (List.length ex_parts <=? List.length rel_parts)%nat
           && list_string_eqb (firstn (List.length ex_parts) rel_parts) ex_parts
        then true
        else if negb (String.eqb (name ex_path) "")
                && String.eqb (name ex_path) (name relative_path)
        then true
        else is_exempt_loop relative_path rest
  end.

Definition _is_exempt (rule : FolderRule.t) (relative_path : Path) : bool :=
  match FolderRule.exemptions rule with
  | [] => false
  | exemptions => is_exempt_loop relative_path exemptions
  end.

(* ------------------------------------------------------------------ *)
(** ** Instants and calendar days *)

Definition datetime := Z.
Definition date := Z.

(** [dt.date()] *)
Definition date_of (dt : datetime) : date := dt / usec_per_day.

(** [dt.time()] as microseconds after midnight *)
Definition time_of (dt : datetime) : Z := dt mod usec_per_day.

(** [datetime.combine(d, datetime.min.time())] *)
Definition combine_midnight (d : date) : datetime := d * usec_per_day.

(** [math.ceil(td.total_seconds() / 86400)] *)
Definition ceil_days (td : timedelta) : Z := - ((- td) / usec_per_day).

(** The ordinals of [date.min] and [date.max]: 1 January of the year 1 and
    31 December of the year 9999. *)
Definition min_ordinal : Z := 1.
Definition max_ordinal : Z := 3652059.

Definition date_in_range (d : date) : bool :=
  (min_ordinal <=? d) && (d <=? max_ordinal).

(** [d + timedelta(days=n)] for a [date]: the constructor of [timedelta]
    refuses more than 999999999 days, the sum a date out of range. *)
Definition date_add_days (d : date) (n : Z) : result date :=
  td <- mk_timedelta (n * usec_per_day) ;;
  let days := td / usec_per_day in
  if date_in_range (d + days) then Ok (d + days) else Raise OverflowError.

(** [dt + td] and [dt - td] for a [datetime] and a [timedelta]: an
    [OverflowError] when the date of the result is out of range. *)
Definition datetime_add (dt : datetime) (td : timedelta) : result datetime :=
  if date_in_range (date_of (dt + td)) then Ok (dt + td) else Raise OverflowError.

Definition datetime_sub (dt : datetime) (td : timedelta) : result datetime :=
  if date_in_range (date_of (dt - td)) then Ok (dt - td) else Raise OverflowError.

Definition days_before_month (month : Z) : Z :=
  nth (Z.to_nat month) [0; 0; 31; 59; 90; 120; 151; 181; 212; 243; 273; 304; 334] 0.

Definition days_in_month (month : Z) : Z :=
  nth (Z.to_nat month) [0; 31; 28; 31; 30; 31; 30; 31; 31; 30; 31; 30; 31] 0.

(** [datetime._ord2ymd]: year, month and day of a proleptic Gregorian
    ordinal, day 1 being 1 January of year 1. *)
Definition ord2ymd (ordinal : date) : Z * Z * Z :=
  let n := ordinal - 1 in
  let n400 := n / 146097 in
  let n := n mod 146097 in
  let n100 := n / 36524 in
  let n := n mod 36524 in
  let n4 := n / 1461 in
  let n := n mod 1461 in
  let n1 := n / 365 in
  let n := n mod 365 in
  let year := n400 * 400 + 1 + n100 * 100 + n4 * 4 + n1 in
  if (n1 =? 4) || (n100 =? 4) then (year - 1, 12, 31)
  else
    let leapyear := (n1 =? 3) && (negb (n4 =? 24) || (n100 =? 3)) in
    let month := (n + 50) / 32 in
    let preceding :=
      days_before_month month + (if (2 <? month) && leapyear then 1 else 0) in
    if n <? preceding then
      let month := month - 1 in
      let preceding :=
        preceding - (days_in_month month + (if (month =? 2) && leapyear then 1 else 0)) in
      (year, month, n - preceding + 1)
    else (year, month, n - preceding + 1).

Definition digit_char (d : Z) : ascii := ascii_of_N (Z.to_N (48 + d mod 10)).

(** The last [width] decimal digits of [n], zero padded. *)
Fixpoint zero_padded (width : nat) (n : Z) : string :=
  match width with
  | O => EmptyString
  | S w => (zero_padded w (n / 10) ++ String (digit_char n) EmptyString)%string
  end.

(** [dt.strftime("%Y%m%d%H%M%S")], for the years 1000 to 9999. *)
Definition strftime_YmdHMS (dt : datetime) : string :=
  let '(y, m, d) := ord2ymd (date_of dt) in
  let secs := time_of dt / usec_per_second in
  (zero_padded 4 y ++ zero_padded 2 m ++ zero_padded 2 d
   ++ zero_padded 2 (secs / 3600) ++ zero_padded 2 (secs / 60 mod 60)
   ++ zero_padded 2 (secs mod 60))%string.

(* ------------------------------------------------------------------ *)
(** ** The file system *)

Local Unset Elimination Schemes.
Inductive node : Type :=
| File (mtime : datetime)
| Dir (mtime : datetime) (children : list (string * node)).
Local Set Elimination Schemes.

Definition node_mtime (n : node) : datetime :=
  match n with
  | File m => m
  | Dir m _ => m
  end.

Definition node_is_dir (n : node) : bool :=
  match n with
  | File _ => false
  | Dir _ _ => true
  end.

Fixpoint lookup_child (entry : string) (children : list (string * node)) : option node :=
  match children with
  | [] => None
  | (k, c) :: rest => if String.eqb k entry then Some c else lookup_child entry rest
  end.

Definition remove_child (entry : string) (children : list (string * node))
  : list (string * node) :=
  filter (fun kc => negb (String.eqb (fst kc) entry)) children.

(** Put [c] under the name [entry]: in place of the child of that name, or
    as a new last child. *)
Fixpoint put_child (entry : string) (c : node) (children : list (string * node))
  : list (string * node) :=
  match children with
  | [] => [(entry, c)]
  | (k, c0) :: rest =>
      if String.eqb k entry then (k, c) :: rest
      else (k, c0) :: put_child entry c rest
  end.

(** The node that the components [ns] lead to from [n]. *)
Fixpoint lookup (ns : list string) (n : node) : option node :=
  match ns with
  | [] => Some n
  | x :: rest =>
      match n with
      | File _ => None
      | Dir _ children =>
          match lookup_child x children with
          | Some c => lookup rest c
          | None => None
          end
      end
  end.

(** Rewrite the listing of the directory at [ns], which stamps that
    directory with the time [now] of the change.  Nothing happens when [ns]
    does not lead to a directory. *)
Fixpoint alter_dir (now : datetime)
    (f : list (string * node) -> list (string * node))
    (ns : list string) (n : node) : node :=
  match n with
  | File m => File m
  | Dir m children =>
      match ns with
      | [] => Dir now (f children)
      | x :: rest =>
          match lookup_child x children with
          | Some c => Dir m (put_child x (alter_dir now f rest c) children)
          | None => n
          end
      end
  end.

(** A chain of new, empty directories. *)
Fixpoint fresh_dirs (now : datetime) (ns : list string) : node :=
  match ns with
  | [] => Dir now []
  | x :: rest => Dir now [(x, fresh_dirs now rest)]
  end.

(** [os.makedirs]-like creation of the directory at [ns] and of its missing
    ancestors, as [Path.mkdir(parents=True, exist_ok=True)] performs it. *)
Fixpoint mkdir_parents (now : datetime) (ns : list string) (n : node) : result node :=
  match ns with
  | [] => Ok n
  | x :: rest =>
      match n with
      | File _ => Raise NotADirectoryError
      | Dir m children =>
          match lookup_child x children with
          | None => Ok (Dir now (put_child x (fresh_dirs now rest) children))
          | Some (File _) =>
              match rest with
              | [] => Raise FileExistsError
              | _ => Raise NotADirectoryError
              end
          | Some c =>
              c' <- mkdir_parents now rest c ;;
              Ok (Dir m (put_child x c' children))
          end
      end
  end.

(** What a process sees of the machine: the file tree under ["/"], the
    wall clock as its successive readings, and how many readings were
    taken; the environment variable that overrides the system trash and
    the home directory. *)
Record world : Type := mkWorld {
  fs : node;
  ticks : nat;
  clock : nat -> datetime;
  trash_override : option string;
  home : Path
}.

Definition set_fs (w : world) (n : node) : world :=
  mkWorld n (ticks w) (clock w) (trash_override w) (home w).

(** The current time, and the world after one more reading of the clock. *)
Definition now (w : world) : datetime := clock w (ticks w).

Definition tick (w : world) : world :=
  mkWorld (fs w) (S (ticks w)) (clock w) (trash_override w) (home w).

(** [p.exists()], [p.is_dir()] *)
Definition path_lookup (w : world) (p : Path) : option node := lookup (names p) (fs w).

Definition exists_ (w : world) (p : Path) : bool :=
  match path_lookup w p with
  | Some _ => true
  | None => false
  end.

Definition is_dir (w : world) (p : Path) : bool :=
  match path_lookup w p with
  | Some n => node_is_dir n
  | None => false
  end.

(** Take the entry at [p] out of its directory. *)
Definition detach (p : Path) (w : world) : world :=
  match names p with
  | [] => w
  | _ =>
      tick (set_fs w (alter_dir (now w) (remove_child (name p))
                        (names (parent p)) (fs w)))
  end.

(** Hang [n] at [p] in the directory of [p]. *)
Definition attach (p : Path) (n : node) (w : world) : world :=
  match names p with
  | [] => w
  | _ =>
      tick (set_fs w (alter_dir (now w) (put_child (name p) n)
                        (names (parent p)) (fs w)))
  end.

(** [shutil.rmtree(p)] of a directory and [p.unlink()] of a file both take
    the entry, with all below it, out of its directory. *)
Definition rmtree (p : Path) (w : world) : world := detach p w.
Definition unlink (p : Path) (w : world) : world := detach p w.

(** A component of [p] above its last is a regular file.  The operating
    system then refuses every access through it with [NotADirectoryError];
    [exists()] and [is_dir()] answer [False]. *)
Fixpoint file_on_way (ns : list string) (n : node) : bool :=
  match ns, n with
  | [], _ => false
  | _ :: _, File _ => true
  | x :: rest, Dir _ children =>
      match lookup_child x children with
      | Some c => file_on_way rest c
      | None => false
      end
  end.

Definition below_a_file (w : world) (p : Path) : bool := file_on_way (names p) (fs w).

(** [p.unlink(missing_ok=True)]: of the errors of [unlink] only
    [FileNotFoundError] is passed over. *)
Definition unlink_missing_ok (p : Path) (w : world) : result world :=
  if exists_ w p then Ok (unlink p w)
  else if below_a_file w p then Raise NotADirectoryError
  else Ok w.

(** [p.mkdir(parents=True, exist_ok=True)] *)
Definition mkdir (p : Path) (w : world) : result world :=
  n <- mkdir_parents (now w) (names p) (fs w) ;;
  Ok (tick (set_fs w n)).

Fixpoint is_prefix (a b : list string) : bool :=
  match a, b with
  | [], _ => true
  | x :: a', y :: b' => String.eqb x y && is_prefix a' b'
  | _ :: _, [] => false
  end.

(** [os.rename(src, dst)] *)
Definition os_rename (src dst : Path) (w : world) : result world :=
  match path_lookup w src with
  | None => Raise FileNotFoundError
  | Some n =>
      if list_string_eqb (names src) (names dst) then Ok w
      else if is_prefix (names src) (names dst) then
        Raise (OSError "Invalid argument")
      else
        match path_lookup w (parent dst) with
        | None => Raise FileNotFoundError
        | Some (File _) => Raise NotADirectoryError
        | Some (Dir _ _) =>
            match path_lookup w dst, n with
            | None, _ => Ok (attach dst n (detach src w))
            | Some (File _), File _ => Ok (attach dst n (detach src w))
            | Some (File _), Dir _ _ => Raise NotADirectoryError
            | Some (Dir _ _), File _ => Raise IsADirectoryError
            | Some (Dir _ []), Dir _ _ => Ok (attach dst n (detach src w))
            | Some (Dir _ (_ :: _)), Dir _ _ => Raise DirectoryNotEmpty
            end
        end
  end.

(** [shutil.copytree(src, dst, symlinks=True)] followed by
    [shutil.rmtree(src)]: the copy makes the missing directories above [dst]
    and keeps the times of what it copies. *)
Definition copytree_rmtree (src dst : Path) (w : world) : result world :=
  match path_lookup w src with
  | None => Raise FileNotFoundError
  | Some n =>
      if exists_ w dst then Raise FileExistsError
      else
        w1 <- mkdir (parent dst) w ;;
        Ok (rmtree src (attach dst n w1))
  end.

(** [shutil.copy2(src, dst)] followed by [os.unlink(src)] *)
Definition copy2_unlink (src dst : Path) (w : world) : result world :=
  match path_lookup w src with
  | None => Raise FileNotFoundError
  | Some n =>
      match path_lookup w (parent dst) with
      | None => Raise FileNotFoundError
      | Some (File _) => Raise NotADirectoryError
      | Some (Dir _ _) =>
          if is_dir w dst then Raise IsADirectoryError
          else Ok (unlink src (attach dst n w))
      end
  end.

(** [shutil.move(src, dst)] *)
Definition shutil_move (src dst : Path) (w : world) : result world :=
  if is_dir w dst && list_string_eqb (names src) (names dst) then
    os_rename src dst w
  else
    real_dst <-
      (if is_dir w dst then
         let inside := child_path dst (name src) in
         if exists_ w inside
         then Raise (ShutilError "Destination path already exists")
         else Ok inside
       else Ok dst) ;;
    match os_rename src real_dst w with
    | Ok w' => Ok w'
    | Raise _ =>
        if is_dir w src then
          if is_prefix (names src) (names dst)
          then Raise (ShutilError "Cannot move a directory into itself")
          else copytree_rmtree src real_dst w
        else copy2_unlink src real_dst w
    end.

(** The names that [os.scandir] reports as directories, and the others. *)
Definition dir_names (children : list (string * node)) : list string :=
  map fst (filter (fun kc => node_is_dir (snd kc)) children).

Definition file_names (children : list (string * node)) : list string :=
  map fst (filter (fun kc => negb (node_is_dir (snd kc))) children).

(** What [f] makes of the node that the name [entry] resolves to. *)
Fixpoint with_child {A : Type} (entry : string) (f : node -> list A)
    (children : list (string * node)) : list A :=
  match children with
  | [] => []
  | (k, c) :: rest => if String.eqb k entry then f c else with_child entry f rest
  end.

(** [os.walk(top, topdown=True)] from the node [n] at [top]: a directory
    yields itself with the names of its sub-directories and of its other
    entries, then what the walk from each sub-directory yields, in the order
    of the listing.  A walk from what is no directory yields nothing. *)
Fixpoint os_walk (top : Path) (n : node) : list (Path * list string * list string) :=
  match n with
  | File _ => []
  | Dir _ children =>
      let dirs := dir_names children in
      let nondirs := file_names children in
      (top, dirs, nondirs)
      :: flat_map (fun entry =>
                     with_child entry (os_walk (child_path top entry)) children)
                  dirs
  end.

(** [path.stat().st_mtime] as [datetime.fromtimestamp] shows it *)
Definition _modified_datetime (w : world) (p : Path) : result datetime :=
  match path_lookup w p with
  | Some n => Ok (node_mtime n)
  | None => Raise FileNotFoundError
  end.

(** [FolderCleanerService._remove_path] *)
Definition _remove_path (p : Path) (w : world) : result world :=
  if is_dir w p then Ok (rmtree p w) else unlink_missing_ok p w.

(** [p.expanduser()]: a leading ["~"] stands for the home directory. *)
Definition expanduser (home : Path) (p : Path) : Path :=
  match root p, names p with
  | EmptyString, x :: rest =>
      if String.eqb x "~" then mkPath (root home) (names home ++ rest) else p
  | _, _ => p
  end.

Record FolderCleanerService : Type := mkService {
  rules : list FolderRule.t;
  trash_dir : option Path
}.

Record Alert : Type := mkAlert {
  folder : Path;
  files : list Path;
  alert_date : date;
  days_until_deletion : Z
}.

(** The argument [as_of] of [cleanup] and of [upcoming_alerts]. *)
Inductive as_of_arg : Type :=
| AsOfNone
| AsOfDatetime (dt : datetime)
| AsOfDate (d : date).

(** [FolderCleanerService._normalize_datetime] *)
Definition _normalize_datetime (value : as_of_arg) (w : world) : datetime * world :=
  match value with
  | AsOfNone => (now w, tick w)
  | AsOfDatetime dt => (dt, w)
  | AsOfDate d => (combine_midnight d, w)
  end.

(** One level of [_iter_rule_entries]: the files of a directory, then its
    sub-directories. *)
Definition entries_of_level (base : Path)
    (level : Path * list string * list string) : result (list (Path * Path)) :=
  let '(root_path, dirs, files_) := level in
  mapM (fun entry =>
          let absolute_path := child_path root_path entry in
          rel <- relative_to absolute_path base ;;
          Ok (absolute_path, rel))
       (files_ ++ dirs).

(** [FolderCleanerService._iter_rule_entries], run to its end.  A walk from
    a path that is no directory yields nothing. *)
Definition _iter_rule_entries (rule : FolderRule.t) (w : world)
  : result (list (Path * Path)) :=
  let levels :=
    match path_lookup w (FolderRule.path rule) with
    | Some n => os_walk (FolderRule.path rule) n
    | None => []
    end in
  per_level <- mapM (entries_of_level (FolderRule.path rule)) levels ;;
  Ok (List.concat per_level).

(** [FolderCleanerService._collect_entries] *)
Definition _collect_entries (rule : FolderRule.t) (w : world)
  : result (list (Path * Path * datetime)) :=
  found <- _iter_rule_entries rule w ;;
  mapM (fun ar : Path * Path =>
          m <- _modified_datetime w (fst ar) ;;
          Ok (fst ar, snd ar, m))
       found.

Definition entry_depth (e : Path * Path * datetime) : nat :=
  List.length (parts (snd (fst e))).

(** A stable sort by decreasing depth:
    [entries.sort(key=lambda item: len(item[1].parts), reverse=True)] *)
Fixpoint insert_deepest_first (e : Path * Path * datetime)
    (sorted : list (Path * Path * datetime)) : list (Path * Path * datetime) :=
  match sorted with
  | [] => [e]
  | x :: rest =>
      if (entry_depth x <=? entry_depth e)%nat then e :: sorted
      else x :: insert_deepest_first e rest
  end.

Definition sort_deepest_first (entries : list (Path * Path * datetime))
  : list (Path * Path * datetime) :=
  fold_right insert_deepest_first [] entries.

(** [FolderCleanerService._move_to_trash] *)
Definition _move_to_trash (svc : FolderCleanerService) (rule : FolderRule.t)
    (absolute_path relative_path : Path) (w : world) : result (world * Path) :=
  match trash_dir svc with
  | None =>
      w1 <- _remove_path absolute_path w ;;
      Ok (w1, absolute_path)
  | Some trash =>
      let target :=
        joinpath (joinstr trash (name (FolderRule.path rule))) relative_path in
      w1 <- mkdir (parent target) w ;;
      wt <- (if exists_ w1 target then
               let timestamp := strftime_YmdHMS (now w1) in
               renamed <- with_name target (name target ++ "__" ++ timestamp)%string ;;
               Ok (tick w1, renamed)
             else Ok (w1, target)) ;;
      w3 <- shutil_move absolute_path (snd wt) (fst wt) ;;
      Ok (w3, snd wt)
  end.

(** [FolderCleanerService._move_to_system_trash] *)
Definition _move_to_system_trash (rule : FolderRule.t)
    (absolute_path relative_path : Path) (w : world) : result (world * Path) :=
  let base_trash :=
    match trash_override w with
    | Some (String c rest) => expanduser (home w) (Path_of_string (String c rest))
    | _ => joinstr (home w) ".Trash"
    end in
  w1 <- mkdir base_trash w ;;
  let target :=
    joinpath (joinstr base_trash (name (FolderRule.path rule))) relative_path in
  w2 <- mkdir (parent target) w1 ;;
  match shutil_move absolute_path target w2 with
  | Ok w3 => Ok (w3, target)
  | Raise _ =>
      w3 <- _remove_path absolute_path w2 ;;
      Ok (w3, absolute_path)
  end.

(** The dictionary [schedule] of [upcoming_alerts], in insertion order:
    alert date, then folder, then the entries with their due dates. *)
Definition folder_schedule := list (Path * list (Path * date)).
Definition schedule_t := list (date * folder_schedule).

(** [folders.setdefault(folder, []).append(item)] *)
Fixpoint folder_append (folder : Path) (item : Path * date)
    (folders : folder_schedule) : folder_schedule :=
  match folders with
  | [] => [(folder, [item])]
  | (f, items) :: rest =>
      if Path_eqb f folder then (f, items ++ [item]) :: rest
      else (f, items) :: folder_append folder item rest
  end.

(** [schedule.setdefault(alert_date, {}).setdefault(folder, []).append(item)] *)
Fixpoint schedule_append (alert_date : date) (folder : Path) (item : Path * date)
    (schedule : schedule_t) : schedule_t :=
  match schedule with
  | [] => [(alert_date, [(folder, [item])])]
  | (d, folders) :: rest =>
      if d =? alert_date then (d, folder_append folder item folders) :: rest
      else (d, folders) :: schedule_append alert_date folder item rest
  end.

(** A stable sort by the posix form of the path:
    [sorted(entries, key=lambda item: item[0].as_posix())] *)
Fixpoint insert_by_posix (e : Path * date) (sorted : list (Path * date))
  : list (Path * date) :=
  match sorted with
  | [] => [e]
  | x :: rest =>
      if String.leb (as_posix (fst e)) (as_posix (fst x)) then e :: sorted
      else x :: insert_by_posix e rest
  end.

Definition sorted_by_posix (entries : list (Path * date)) : list (Path * date) :=
  fold_right insert_by_posix [] entries.

(** [min(...)] of a sequence; the minimum of nothing is an error. *)
Definition min_of (l : list Z) : result Z :=
  match l with
  | [] => Raise (ValueError "min() arg is an empty sequence")
  | x :: rest => Ok (fold_left Z.min rest x)
  end.

(** The [Alert] of one folder on one alert date. *)
Definition build_alert (as_of_dt : datetime) (the_date : date)
    (folder_entries : Path * list (Path * date)) : result Alert :=
  let '(folder_path, entries) := folder_entries in
  let sorted_entries := sorted_by_posix entries in
  days <- min_of (map (fun item => ceil_days (combine_midnight (snd item) - as_of_dt))
                      sorted_entries) ;;
  Ok (mkAlert folder_path (map fst sorted_entries) the_date days).

(** The second loop of [upcoming_alerts]. *)
Definition group_alerts (as_of_dt : datetime) (schedule : schedule_t)
  : result (list (date * list Alert)) :=
  mapM (fun df : date * folder_schedule =>
          alerts <- mapM (build_alert as_of_dt (fst df)) (snd df) ;;
          Ok (fst df, alerts))
       schedule.

Section Engine.

(** [re.match(pattern, text)] as a truth value. *)
Variable re_match : string -> string -> bool.

Fixpoint policy_loop (rule : FolderRule.t) (relative_path : Path)
    (patterns : list PatternRule.t) : timedelta * string :=
  match patterns with
  | [] => (FolderRule.retention rule, FolderRule.action rule)
  | pattern_rule :: rest =>
      if re_match (PatternRule.pattern pattern_rule) (name relative_path)
      then (PatternRule.retention pattern_rule, PatternRule.action pattern_rule)
      else policy_loop rule relative_path rest
  end.

(** [FolderCleanerService._effective_policy] *)
Definition _effective_policy (rule : FolderRule.t) (relative_path : Path)
  : timedelta * string :=
  policy_loop rule relative_path (FolderRule.patterns rule).

Fixpoint notify_loop (rule : FolderRule.t) (relative_path : Path)
    (patterns : list PatternRule.t) : list timedelta :=
  match patterns with
  | [] => FolderRule.notify_before rule
  | pattern_rule :: rest =>
      if re_match (PatternRule.pattern pattern_rule) (name relative_path)
      then PatternRule.notify_before pattern_rule
      else notify_loop rule relative_path rest
  end.

(** [FolderCleanerService._effective_notify] *)
Definition _effective_notify (rule : FolderRule.t) (relative_path : Path)
  : list timedelta :=
  notify_loop rule relative_path (FolderRule.patterns rule).

(** The loop of [cleanup] over the sorted entries of one rule. *)
Fixpoint cleanup_entries (svc : FolderCleanerService) (rule : FolderRule.t)
    (as_of_dt : datetime) (entries : list (Path * Path * datetime))
    (w : world) (removed : list Path) : result (world * list Path) :=
  match entries with
  | [] => Ok (w, removed)
  | (absolute_path, relative_path, modified_date) :: rest =>
      if _is_exempt rule relative_path then
        cleanup_entries svc rule as_of_dt rest w removed
      else
        let '(effective_retention, action) := _effective_policy rule relative_path in
        let age := as_of_dt - modified_date in
        if effective_retention <=? age then
          if String.eqb action "trash" then
            wt <- _move_to_trash svc rule absolute_path relative_path w ;;
            cleanup_entries svc rule as_of_dt rest (fst wt) (removed ++ [snd wt])
          else if String.eqb action "system_trash" then
            wt <- _move_to_system_trash rule absolute_path relative_path w ;;
            cleanup_entries svc rule as_of_dt rest (fst wt) (removed ++ [snd wt])
          else
            w1 <- _remove_path absolute_path w ;;
            cleanup_entries svc rule as_of_dt rest w1 (removed ++ [absolute_path])
        else cleanup_entries svc rule as_of_dt rest w removed
  end.

(** The loop of [cleanup] over the rules. *)
Fixpoint cleanup_rules (svc : FolderCleanerService) (as_of_dt : datetime)
    (todo : list FolderRule.t) (w : world) (removed : list Path)
  : result (world * list Path) :=
  match todo with
  | [] => Ok (w, removed)
  | rule :: rest =>
      if negb (exists_ w (FolderRule.path rule))
         || negb (is_dir w (FolderRule.path rule))
      then cleanup_rules svc as_of_dt rest w removed
      else
        entries <- _collect_entries rule w ;;
        wr <- cleanup_entries svc rule as_of_dt (sort_deepest_first entries) w removed ;;
        cleanup_rules svc as_of_dt rest (fst wr) (snd wr)
  end.

(** [FolderCleanerService.cleanup] *)
Definition cleanup (svc : FolderCleanerService) (as_of : as_of_arg) (w : world)
  : result (world * list Path) :=
  let '(as_of_dt, w0) := _normalize_datetime as_of w in
  cleanup_rules svc as_of_dt (rules svc) w0 [].

(** The loop of [upcoming_alerts] over the lead times of one entry. *)
Fixpoint schedule_offsets (folder : Path) (relative_path : Path)
    (due_dt : datetime) (as_of_date end_date : date)
    (notify_offsets : list timedelta) (schedule : schedule_t) : result schedule_t :=
  match notify_offsets with
  | [] => Ok schedule
  | notify_offset :: rest =>
      alert_dt <- datetime_sub due_dt notify_offset ;;
      let the_date := date_of alert_dt in
      if (the_date <? as_of_date) || (end_date <? the_date)
      then schedule_offsets folder relative_path due_dt as_of_date end_date rest schedule
      else schedule_offsets folder relative_path due_dt as_of_date end_date rest
             (schedule_append the_date folder (relative_path, date_of due_dt) schedule)
  end.

(** The loop of [upcoming_alerts] over the entries of one rule. *)
Fixpoint schedule_entries (rule : FolderRule.t) (w : world)
    (as_of_dt : datetime) (as_of_date end_date : date)
    (entries : list (Path * Path)) (schedule : schedule_t) : result schedule_t :=
  match entries with
  | [] => Ok schedule
  | (absolute_path, relative_path) :: rest =>
      if _is_exempt rule relative_path then
        schedule_entries rule w as_of_dt as_of_date end_date rest schedule
      else
        modified_dt <- _modified_datetime w absolute_path ;;
        due_dt <- datetime_add modified_dt (fst (_effective_policy rule relative_path)) ;;
        if due_dt <? as_of_dt then
          schedule_entries rule w as_of_dt as_of_date end_date rest schedule
        else
          schedule' <- schedule_offsets (FolderRule.path rule) relative_path due_dt
                         as_of_date end_date (_effective_notify rule relative_path)
                         schedule ;;
          schedule_entries rule w as_of_dt as_of_date end_date rest schedule'
  end.

(** The loop of [upcoming_alerts] over the rules. *)
Fixpoint schedule_rules (w : world) (as_of_dt : datetime)
    (as_of_date end_date : date) (todo : list FolderRule.t)
    (schedule : schedule_t) : result schedule_t :=
  match todo with
  | [] => Ok schedule
  | rule :: rest =>
      if negb (exists_ w (FolderRule.path rule))
         || negb (is_dir w (FolderRule.path rule))
      then schedule_rules w as_of_dt as_of_date end_date rest schedule
      else
        entries <- _iter_rule_entries rule w ;;
        schedule' <- schedule_entries rule w as_of_dt as_of_date end_date
                       entries schedule ;;
        schedule_rules w as_of_dt as_of_date end_date rest schedule'
  end.

(** [FolderCleanerService.upcoming_alerts] *)
Definition upcoming_alerts (svc : FolderCleanerService) (as_of : as_of_arg)
    (window_days : Z) (w : world) : result (list (date * list Alert)) :=
  let '(as_of_dt, w0) := _normalize_datetime as_of w in
  let as_of_date := date_of as_of_dt in
  end_date <- date_add_days as_of_date window_days ;;
  schedule <- schedule_rules w0 as_of_dt as_of_date end_date (rules svc) [] ;;
  group_alerts as_of_dt schedule.

End Engine.

(* ------------------------------------------------------------------ *)
(** ** Notions used in the statements *)

(** [a] is a component-wise prefix of [b]. *)
Definition path_prefix (a b : list string) : Prop := exists rest, b = a ++ rest.

(** What claim C3 calls an invalid input, with the text of a string taken
    as the parsers take it: stripped and in lower case. *)
Definition invalid_duration_input (v : pyvalue) : Prop :=
  match v with
  | VInt z => z < 0
  | VFloat f => float_lt_zero f = true
  | VBool _ => True
  | VStr s => match_duration_text (lower (strip s)) = None
  | _ => False
  end.

(** [re.match(pattern_rule.pattern, relative_path.name)] as a truth value. *)
Definition pattern_matches (re_match : string -> string -> bool)
    (relative_path : Path) (pattern_rule : PatternRule.t) : bool :=
  re_match (PatternRule.pattern pattern_rule) (name relative_path).

(** [re.match] for a pattern of plain characters after an optional [^]:
    the text starts with those characters. *)
Definition re_match_literal (pattern text : string) : bool :=
  match pattern with
  | String c rest => if Ascii.eqb c "^" then prefix rest text else prefix pattern text
  | EmptyString => true
  end.


(** The exemption test of the code: (c) is tried for relative exemptions
    only. *)
Definition exempt_by (relative_path : Path) (exemption : string) : Prop :=
  let ex_path := Path_of_string exemption in
  (is_absolute ex_path = true /\ relative_path = ex_path)
  \/ (is_absolute ex_path = false
      /\ path_prefix (parts ex_path) (parts relative_path))
  \/ (is_absolute ex_path = false
      /\ name ex_path <> "" /\ name ex_path = name relative_path).

(** An induction principle for trees: a directory has a property when all
    its children have it. *)
Fixpoint node_induction (P : node -> Prop)
    (HFile : forall m, P (File m))
    (HDir : forall m children,
        Forall (fun kc => P (snd kc)) children -> P (Dir m children))
    (n : node) : P n :=
  match n with
  | File m => HFile m
  | Dir m children =>
      HDir m children
        ((fix all (l : list (string * node)) : Forall (fun kc => P (snd kc)) l :=
            match l with
            | [] => Forall_nil _
            | (k, c) :: rest =>
                Forall_cons (k, c) (node_induction P HFile HDir c) (all rest)
            end) children)
  end.

(** The entries below the directory [base]: the node [n] at [base] leads
    along a non-empty [suffix] to a node. *)
Definition is_entry (base : Path) (n : node) (absolute_path relative_path : Path)
  : Prop :=
  exists suffix c,
    suffix <> [] /\ lookup suffix n = Some c
    /\ absolute_path = mkPath (root base) (names base ++ suffix)
    /\ relative_path = mkPath "" suffix.

(** The entries of one level, without the error that cannot occur. *)
Definition level_entries (base : Path) (suffix : list string)
    (listing : list string) : list (Path * Path) :=
  map (fun entry =>
         (mkPath (root base) (names base ++ suffix ++ [entry]),
          mkPath "" (suffix ++ [entry])))
      listing.

(** What [_iter_rule_entries] yields, and the time [_modified_datetime]
    reads, outside the result type: both always return for the entries of a
    walk ([iter_rule_entries_total], [collect_entries_total]). *)
Definition rule_entries (rule : FolderRule.t) (w : world) : list (Path * Path) :=
  match _iter_rule_entries rule w with
  | Ok l => l
  | Raise _ => []
  end.

Definition modified_at (w : world) (p : Path) : datetime :=
  match path_lookup w p with
  | Some n => node_mtime n
  | None => 0
  end.

Definition collected_entries (rule : FolderRule.t) (w : world)
  : list (Path * Path * datetime) :=
  map (fun ar : Path * Path => (fst ar, snd ar, modified_at w (fst ar)))
      (rule_entries rule w).

(** The test that the loop of [cleanup] makes on an entry before it
    disposes it: not exempt, and as old as its effective retention. *)
Definition is_due (re_match : string -> string -> bool) (rule : FolderRule.t)
    (as_of_dt : datetime) (e : Path * Path * datetime) : bool :=
  negb (_is_exempt rule (snd (fst e)))
  && (fst (_effective_policy re_match rule (snd (fst e))) <=? as_of_dt - snd e).

(** The disposal that the loop of [cleanup] dispatches a due entry to. *)
Definition dispose (re_match : string -> string -> bool)
    (svc : FolderCleanerService) (rule : FolderRule.t)
    (e : Path * Path * datetime) (w : world) : result (world * Path) :=
  let action := snd (_effective_policy re_match rule (snd (fst e))) in
  if String.eqb action "trash" then
    _move_to_trash svc rule (fst (fst e)) (snd (fst e)) w
  else if String.eqb action "system_trash" then
    _move_to_system_trash rule (fst (fst e)) (snd (fst e)) w
  else
    w1 <- _remove_path (fst (fst e)) w ;;
    Ok (w1, fst (fst e)).

(** Disposals one after the other, each result appended to [removed]. *)
Fixpoint dispose_all (re_match : string -> string -> bool)
    (svc : FolderCleanerService) (rule : FolderRule.t)
    (due : list (Path * Path * datetime)) (w : world) (removed : list Path)
  : result (world * list Path) :=
  match due with
  | [] => Ok (w, removed)
  | e :: rest =>
      wt <- dispose re_match svc rule e w ;;
      dispose_all re_match svc rule rest (fst wt) (removed ++ [snd wt])
  end.

(** [c] lies strictly below [d]: the relative path of [d] is a proper
    prefix of that of [c]. *)
Definition strictly_below (c d : Path * Path * datetime) : Prop :=
  path_prefix (parts (snd (fst d))) (parts (snd (fst c)))
  /\ parts (snd (fst d)) <> parts (snd (fst c)).

(** [c] comes before [d] in [l]. *)
Definition precedes {A : Type} (c d : A) (l : list A) : Prop :=
  exists l1 l2 l3, l = l1 ++ c :: l2 ++ d :: l3.

Definition deeper_or_equal (a b : Path * Path * datetime) : Prop :=
  (entry_depth b <= entry_depth a)%nat.

(** The computation does not end in the error "directory not empty". *)
Definition never_enotempty {A : Type} (r : result A) : Prop :=
  r <> Raise DirectoryNotEmpty.

(** An exemption that [_is_exempt] reads as a relative path. *)
Definition relative_exemption (ex : string) : bool :=
  negb (is_absolute (Path_of_string ex)).

(** Two rules that differ at most in their absolute exemptions. *)
Definition rules_agree_up_to_absolute (r r' : FolderRule.t) : Prop :=
  FolderRule.path r = FolderRule.path r'
  /\ FolderRule.retention r = FolderRule.retention r'
  /\ FolderRule.notify_before r = FolderRule.notify_before r'
  /\ FolderRule.action r = FolderRule.action r'
  /\ FolderRule.patterns r = FolderRule.patterns r'
  /\ forall ex, relative_exemption ex = true ->
                (In ex (FolderRule.exemptions r) <-> In ex (FolderRule.exemptions r')).

Definition services_agree_up_to_absolute (svc svc' : FolderCleanerService) : Prop :=
  trash_dir svc = trash_dir svc'
  /\ Forall2 rules_agree_up_to_absolute (rules svc) (rules svc').

(** A scenario for the managed trash: two folders of the same name [data],
    each with an old file [x.txt], and a trash that already holds a
    [data/x.txt]; the clock advances by a microsecond at each reading. *)
Definition noon : datetime := 739923 * usec_per_day + 12 * usec_per_hour.

Definition month_ago : datetime := noon - 30 * usec_per_day.

Definition collision_world : world :=
  mkWorld
    (Dir month_ago
       [("a", Dir month_ago [("data", Dir month_ago [("x.txt", File (month_ago + 1))])]);
        ("b", Dir month_ago [("data", Dir month_ago [("x.txt", File (month_ago + 2))])]);
        ("trash", Dir month_ago [("data", Dir month_ago [("x.txt", File (month_ago + 3))])])])
    0 (fun k => noon + Z.of_nat k) None (mkPath "/" ["home"; "u"]).

Definition collision_rule_a : FolderRule.t :=
  FolderRule.mk (mkPath "/" ["a"; "data"]) (10 * usec_per_day) [0] [] "trash" [].

Definition collision_rule_b : FolderRule.t :=
  FolderRule.mk (mkPath "/" ["b"; "data"]) (10 * usec_per_day) [0] [] "trash" [].

Definition collision_service : FolderCleanerService :=
  mkService [collision_rule_a; collision_rule_b] (Some (mkPath "/" ["trash"])).

(** The entries that a schedule holds for a folder, and for an alert date
    and a folder; nothing when the key is absent. *)
Definition folder_items (f : Path) (folders : folder_schedule) : list (Path * date) :=
  match find (fun fe => Path_eqb (fst fe) f) folders with
  | Some fe => snd fe
  | None => []
  end.

Definition schedule_items (d : date) (f : Path) (schedule : schedule_t)
  : list (Path * date) :=
  match find (fun df => fst df =? d) schedule with
  | Some df => folder_items f (snd df)
  | None => []
  end.

(** A dictionary has each key once, and [setdefault] followed by [append]
    leaves no empty list. *)
Definition folders_wf (folders : folder_schedule) : Prop :=
  NoDup (map fst folders) /\ Forall (fun fe => snd fe <> []) folders.

Definition schedule_wf (schedule : schedule_t) : Prop :=
  NoDup (map fst schedule)
  /\ Forall (fun df => snd df <> [] /\ folders_wf (snd df)) schedule.

(** The lead time [notify_offset] puts the alert of an entry due at
    [due_dt] on the date [d], and [d] lies in the window. *)
Definition alert_hits (d as_of_date end_date : date) (due_dt : datetime)
    (notify_offset : timedelta) : bool :=
  (date_of (due_dt - notify_offset) =? d) && (as_of_date <=? d) && (d <=? end_date).

(** The group of an alert date [d] and a folder [f], in the words of the
    specification: for every rule of that folder whose root is a
    directory, every entry that is not exempt and not overdue, once for each
    of its lead times that puts the alert on [d] within the window; each with
    its due date. *)
Definition entry_group (re_match : string -> string -> bool) (rule : FolderRule.t)
    (w : world) (as_of_dt : datetime) (as_of_date end_date d : date)
    (ar : Path * Path) : list (Path * date) :=
  if _is_exempt rule (snd ar) then []
  else
    let due_dt :=
      modified_at w (fst ar) + fst (_effective_policy re_match rule (snd ar)) in
    if due_dt <? as_of_dt then []
    else
      map (fun _ => (snd ar, date_of due_dt))
          (filter (alert_hits d as_of_date end_date due_dt)
                  (_effective_notify re_match rule (snd ar))).

Definition rule_group (re_match : string -> string -> bool) (w : world)
    (as_of_dt : datetime) (as_of_date end_date d : date) (f : Path)
    (rule : FolderRule.t) : list (Path * date) :=
  if negb (exists_ w (FolderRule.path rule)) || negb (is_dir w (FolderRule.path rule))
  then []
  else if Path_eqb (FolderRule.path rule) f
       then flat_map (entry_group re_match rule w as_of_dt as_of_date end_date d)
                     (rule_entries rule w)
       else [].

Definition alert_group (re_match : string -> string -> bool)
    (svc : FolderCleanerService) (w : world) (as_of_dt : datetime)
    (window_days : Z) (d : date) (f : Path) : list (Path * date) :=
  flat_map (rule_group re_match w as_of_dt (date_of as_of_dt)
              (date_of as_of_dt + window_days) d f)
           (rules svc).

(** The least element of a list that is not empty. *)
Definition least (l : list Z) : Z :=
  match l with
  | [] => 0
  | x :: rest => fold_left Z.min rest x
  end.

(** The days that remain, at [as_of_dt], until midnight of a due date. *)
Definition days_left (as_of_dt : datetime) (item : Path * date) : Z :=
  ceil_days (combine_midnight (snd item) - as_of_dt).

(** The world after the first, and after the second disposal of the
    scenario. *)
Definition world_after {A : Type} (r : result (world * A)) (otherwise : world)
  : world :=
  match r with
  | Ok wt => fst wt
  | Raise _ => otherwise
  end.

Definition collision_after_first : world :=
  world_after
    (_move_to_trash collision_service collision_rule_a
       (mkPath "/" ["a"; "data"; "x.txt"]) (mkPath "" ["x.txt"]) collision_world)
    collision_world.

Definition collision_after_second : world :=
  world_after
    (_move_to_trash collision_service collision_rule_b
       (mkPath "/" ["b"; "data"; "x.txt"]) (mkPath "" ["x.txt"]) collision_after_first)
    collision_after_first.

(** The alert that the grouping loop builds for a folder and its entries. *)
Definition alert_for (as_of_dt : datetime) (d : date)
    (fe : Path * list (Path * date)) : Alert :=
  mkAlert (fst fe) (map fst (sorted_by_posix (snd fe))) d
    (least (map (days_left as_of_dt) (sorted_by_posix (snd fe)))).


(** The root of the rule is a directory: the rule takes part. *)
Definition rule_active (w : world) (rule : FolderRule.t) : bool :=
  exists_ w (FolderRule.path rule) && is_dir w (FolderRule.path rule).

(** The instant that [as_of] stands for, and the world once the clock was
    read for it. *)
Definition as_of_instant (as_of : as_of_arg) (w : world) : datetime :=
  fst (_normalize_datetime as_of w).

Definition world_at (as_of : as_of_arg) (w : world) : world :=
  snd (_normalize_datetime as_of w).

(** The alerts of a schedule. *)
Definition alerts_of_schedule (as_of_dt : datetime) (schedule : schedule_t)
  : list (date * list Alert) :=
  map (fun df => (fst df, map (alert_for as_of_dt (fst df)) (snd df))) schedule.

(** The scenario of the specification for several lead times: a folder
    with one file, modified at [t]; ten days of retention, announced two days
    and five days ahead. *)
Definition single_file_world (t : datetime) : world :=
  mkWorld (Dir t [("root", Dir t [("file.txt", File t)])])
    0 (fun _ => t) None (mkPath "/" ["home"; "u"]).

Definition lead_times_rule : FolderRule.t :=
  FolderRule.mk (mkPath "/" ["root"]) (10 * usec_per_day)
    [2 * usec_per_day; 5 * usec_per_day] [] "delete" [].

Definition lead_times_service : FolderCleanerService :=
  mkService [lead_times_rule] None.

(** The dates that [upcoming_alerts] computes for an entry stay in the
    years 1 to 9999: unless the entry is exempt, its due instant, and when
    that is not before [as_of_dt] the instant of every lead time. *)
Definition entry_in_range (re_match : string -> string -> bool) (rule : FolderRule.t)
    (w : world) (as_of_dt : datetime) (ar : Path * Path) : Prop :=
  _is_exempt rule (snd ar) = false ->
  let due_dt :=
    modified_at w (fst ar) + fst (_effective_policy re_match rule (snd ar)) in
  date_in_range (date_of due_dt) = true
  /\ (as_of_dt <= due_dt ->
      Forall (fun L => date_in_range (date_of (due_dt - L)) = true)
             (_effective_notify re_match rule (snd ar))).

(** So do all the dates of a call: the end of the window, and the dates of
    every entry of every rule that takes part. *)
Definition dates_in_range (re_match : string -> string -> bool)
    (svc : FolderCleanerService) (w : world) (as_of_dt : datetime)
    (window_days : Z) : Prop :=
  Z.abs window_days <= timedelta_max_days
  /\ date_in_range (date_of as_of_dt + window_days) = true
  /\ forall rule ar,
      In rule (rules svc) -> rule_active w rule = true ->
      In ar (rule_entries rule w) -> entry_in_range re_match rule w as_of_dt ar.

(** The mapping that a call returned. *)
Definition alerts_of (r : result (list (date * list Alert))) : list (date * list Alert) :=
  match r with
  | Ok m => m
  | Raise _ => []
  end.

(** The lead time puts the alert within the window. *)
Definition in_window (as_of_date end_date : date) (due_dt : datetime)
    (notify_offset : timedelta) : bool :=
  (as_of_date <=? date_of (due_dt - notify_offset))
  && (date_of (due_dt - notify_offset) <=? end_date).

(** What a node keeps when entries are taken out below it: its kind, and
    its time unless it is a directory that was stamped with a time [P]. *)
Definition related (P : datetime -> Prop) (c c' : node) : Prop :=
  match c, c' with
  | File m, File m' => m' = m
  | Dir m _, Dir m' _ => m' = m \/ P m'
  | _, _ => False
  end.

(** Below [base], the tree [n'] holds nothing that [n] did not hold at the
    same place. *)
Definition shrunk_under (P : datetime -> Prop) (base : list string)
    (n n' : node) : Prop :=
  forall suffix c',
    lookup (base ++ suffix) n' = Some c' ->
    exists c, lookup (base ++ suffix) n = Some c /\ related P c c'.

(** Neither path is a prefix of the other. *)
Definition apart (a b : list string) : Prop :=
  ~ path_prefix a b /\ ~ path_prefix b a.

(** A time that the clock showed between the worlds [w] and [w']. *)
Definition bumped_between (w w' : world) (m : datetime) : Prop :=
  exists k, (ticks w <= k < ticks w')%nat /\ m = clock w k.

(** [w'] is a later state of the machine of [w]. *)
Definition same_env (w w' : world) : Prop :=
  clock w' = clock w /\ trash_override w' = trash_override w
  /\ home w' = home w /\ (ticks w <= ticks w')%nat.

(** From [w] to [w'] nothing appeared below any of the [roots]; what is
    left there kept its time, unless it is a directory that lost an entry
    in between. *)
Definition evolves (roots : list (list string)) (w w' : world) : Prop :=
  same_env w w'
  /\ forall R, In R roots ->
               shrunk_under (bumped_between w w') R (fs w) (fs w').

(** The directory that [_move_to_system_trash] moves into. *)
Definition system_trash_base (w : world) : Path :=
  match trash_override w with
  | Some (String c rest) => expanduser (home w) (Path_of_string (String c rest))
  | _ => joinstr (home w) ".Trash"
  end.

(** The trash directories lie apart from the roots: neither the managed
    trash nor the system trash is below, above or at a root. *)
Definition trash_apart (svc : FolderCleanerService) (w : world)
    (roots : list (list string)) : Prop :=
  forall R, In R roots ->
    (forall T, trash_dir svc = Some T -> apart R (names T))
    /\ apart R (names (system_trash_base w)).

(** The name of the root of the rule is one component of a path. *)
Definition plain_root (rule : FolderRule.t) : Prop :=
  starts_with_slash (name (FolderRule.path rule)) = false.

(** The clock does not run backwards, and nothing below a root is dated
    after the clock. *)
Definition clock_monotone (w : world) : Prop :=
  forall i j, (ticks w <= i <= j)%nat -> clock w i <= clock w j.

Definition dated (roots : list (list string)) (w : world) : Prop :=
  forall R, In R roots ->
    forall suffix c, lookup (R ++ suffix) (fs w) = Some c -> node_mtime c <= now w.

(** An entry of the rule, as a traversal yields it. *)
Definition entry_of_rule (rule : FolderRule.t) (e : Path * Path * datetime) : Prop :=
  root (snd (fst e)) = "" /\ names (snd (fst e)) <> []
  /\ names (fst (fst e)) = names (FolderRule.path rule) ++ names (snd (fst e)).

(** Nothing of the rule is due: [cleanup] has nothing to do for it. *)
Definition quiet (re_match : string -> string -> bool) (rule : FolderRule.t)
    (as_of_dt : datetime) (w : world) : Prop :=
  rule_active w rule = true ->
  forall e, In e (collected_entries rule w) ->
            is_due re_match rule as_of_dt e = false.

Definition rule_roots (svc : FolderCleanerService) : list (list string) :=
  map (fun r => names (FolderRule.path r)) (rules svc).

(** A rule with two pattern rules that both accept [ScreenShot_1.png]:
    ten days of retention for the folder, one day for what starts with
    [Screen], three days for what starts with [ScreenShot]. *)
Definition screenshot_rule : FolderRule.t :=
  FolderRule.mk (mkPath "/" ["home"; "u"; "Desktop"]) (10 * usec_per_day)
    [0; 2 * usec_per_day] [] "trash"
    [PatternRule.mk "^Screen" usec_per_day [usec_per_day] "delete";
     PatternRule.mk "^ScreenShot" (3 * usec_per_day) [0] "trash"].

(** No node of the tree is dated after [t]. *)
Fixpoint dated_before (t : datetime) (n : node) : bool :=
  match n with
  | File m => m <=? t
  | Dir m children =>
      (m <=? t)
      && forallb (fun kc => match kc with (_, c) => dated_before t c end) children
  end.

(** The call returned. *)
Definition completes {A : Type} (r : result A) : bool :=
  match r with
  | Ok _ => true
  | Raise _ => false
  end.

(** What a call returned in [removed]. *)
Definition removed_by {A : Type} (r : result (world * list A)) : list A :=
  match r with
  | Ok wr => snd wr
  | Raise _ => []
  end.

(** A scenario for idempotence: the managed trash lies below the root of
    the rule. *)
Definition nested_trash_world : world :=
  mkWorld (Dir month_ago [("r", Dir month_ago [("f.txt", File month_ago)])])
    0 (fun k => noon + Z.of_nat k) None (mkPath "/" ["home"; "u"]).

Definition nested_trash_service : FolderCleanerService :=
  mkService [FolderRule.mk (mkPath "/" ["r"]) (10 * usec_per_day) [0] [] "trash" []]
    (Some (mkPath "/" ["r"; ".trash"])).

Definition nested_trash_after : world :=
  world_after
    (cleanup re_match_literal nested_trash_service (AsOfDatetime noon)
       nested_trash_world)
    nested_trash_world.

(** Another: a directory dated a hundred days after the clock holds an old
    file, and [cleanup] is asked about an instant later still. *)
Definition future_dated_world : world :=
  mkWorld
    (Dir month_ago
       [("r", Dir month_ago
                [("d", Dir (noon + 100 * usec_per_day) [("f.txt", File month_ago)])])])
    0 (fun k => noon + Z.of_nat k) None (mkPath "/" ["home"; "u"]).

Definition future_dated_service : FolderCleanerService :=
  mkService [FolderRule.mk (mkPath "/" ["r"]) (10 * usec_per_day) [0] [] "delete" []]
    None.

Definition future_dated_after : world :=
  world_after
    (cleanup re_match_literal future_dated_service
       (AsOfDatetime (noon + 105 * usec_per_day)) future_dated_world)
    future_dated_world.

(** A folder [data] with an old file, a recent file and an old directory
    [logs] that holds an old file; the managed trash is [/trash]. *)
Definition sample_world : world :=
  mkWorld
    (Dir month_ago
       [("data", Dir month_ago
                   [("old.txt", File (month_ago + 5));
                    ("new.txt", File (noon - usec_per_day));
                    ("logs", Dir month_ago [("a.log", File month_ago)])])])
    0 (fun k => noon + Z.of_nat k) None (mkPath "/" ["home"; "u"]).

Definition sample_rule : FolderRule.t :=
  FolderRule.mk (mkPath "/" ["data"]) (10 * usec_per_day)
    [0; 2 * usec_per_day] [] "trash" [].

Definition sample_service : FolderCleanerService :=
  mkService [sample_rule] (Some (mkPath "/" ["trash"])).

Definition sample_after : world :=
  world_after (cleanup re_match_literal sample_service (AsOfDatetime noon) sample_world)
    sample_world.

(** The service of the sample with an absolute exemption added. *)
Definition sample_service_exempting : FolderCleanerService :=
  mkService
    [FolderRule.mk (mkPath "/" ["data"]) (10 * usec_per_day)
       [0; 2 * usec_per_day] ["/data/old.txt"] "trash" []]
    (Some (mkPath "/" ["trash"])).

(** The entries of the sample: the directory [logs] and the file in it. *)
Definition sample_logs : Path * Path * datetime :=
  (mkPath "/" ["data"; "logs"], mkPath "" ["logs"], month_ago).

Definition sample_a_log : Path * Path * datetime :=
  (mkPath "/" ["data"; "logs"; "a.log"], mkPath "" ["logs"; "a.log"], month_ago).

(* ------------------------------------------------------------------ *)
(** ** Notions for the duration parsers *)

(** What [_parse_offset] asks of a value beyond [_parse_duration]: no
    boolean, and nothing negative. *)
Definition offset_admissible (v : pyvalue) : Prop :=
  match v with
  | VTimedelta td => 0 <= td
  | VBool _ => False
  | VInt z => 0 <= z
  | VFloat f => float_lt_zero f = false
  | _ => True
  end.

Fixpoint all_digits (s : string) : bool :=
  match s with
  | EmptyString => true
  | String c rest => is_digit c && all_digits rest
  end.

Definition unit_letter (u : unit_char) : ascii :=
  match u with
  | UnitH => "h"
  | UnitD => "d"
  | UnitW => "w"
  | UnitY => "y"
  end%char.

(** The length of a unit in microseconds; a year counts 365 days. *)
Definition unit_usec (u : unit_char) : Z :=
  match u with
  | UnitH => usec_per_hour
  | UnitD => usec_per_day
  | UnitW => usec_per_week
  | UnitY => 365 * usec_per_day
  end.

(** A string that does not start with white space. *)
Definition starts_plain (s : string) : Prop :=
  match s with
  | EmptyString => True
  | String c _ => is_space c = false
  end.

(* ------------------------------------------------------------------ *)
(** ** Notions for the disposals *)

(** The target of a disposal into the directory [base]:
    [base / rule.path.name / relative_path]. *)
Definition trash_target (base : Path) (rule : FolderRule.t) (relative_path : Path)
  : Path :=
  joinpath (joinstr base (name (FolderRule.path rule))) relative_path.

(** A quiet machine: a tree with a folder [data] that holds a file and a
    directory with a file, and a clock that stands still. *)
Definition still_world : world :=
  mkWorld
    (Dir month_ago
       [("data", Dir month_ago
                   [("old.txt", File (month_ago + 5));
                    ("logs", Dir month_ago [("a.log", File month_ago)])]);
        ("home", Dir month_ago [("u", Dir month_ago [])])])
    0 (fun _ => noon) None (mkPath "/" ["home"; "u"]).

(* ------------------------------------------------------------------ *)
(** ** Notions for the effect of [cleanup] *)



(** The tree once the entry at [p], if there is one, is taken out with all
    that is below it: what [_remove_path] leaves when it returns. *)
Definition without (p : Path) (w : world) : world :=
  if exists_ w p then detach p w else w.



(* ------------------------------------------------------------------ *)
(** ** Notions for the alerts *)


(* ------------------------------------------------------------------ *)
(** ** Notions for the time stamps *)

(** A trash that already holds [data/x.txt], a folder [data] with a file
    of that name, and a clock that stands still. *)
Definition taken_world : world :=
  mkWorld
    (Dir month_ago
       [("data", Dir month_ago [("x.txt", File (month_ago + 1))]);
        ("trash", Dir month_ago [("data", Dir month_ago [("x.txt", File month_ago)])])])
    0 (fun _ => noon) None (mkPath "/" ["home"; "u"]).

(* ------------------------------------------------------------------ *)
(** ** The notification script of the macOS outlet *)

Definition dquote : ascii := "034"%char.
Definition backslash : ascii := "092"%char.

(** [text.replace(old, new)] for a pattern [old] of one character. *)
Fixpoint replace_char (old : ascii) (new : string) (text : string) : string :=
  match text with
  | EmptyString => EmptyString
  | String c rest =>
      if Ascii.eqb c old then (new ++ replace_char old new rest)%string
      else String c (replace_char old new rest)
  end.

(** [MacOSNotificationOutlet._escape]: every backslash is doubled, then
    every double quote gets a backslash before it. *)
Definition _escape (text : string) : string :=
  replace_char dquote (String backslash (String dquote EmptyString))
    (replace_char backslash (String backslash (String backslash EmptyString)) text).

Module MacOSNotificationOutlet.
Record t : Type := mk {
  title : string;
  subtitle : option string;
  sound : option string;
  require_darwin : bool
}.
End MacOSNotificationOutlet.

(** The text between double quotes, escaped. *)
Definition quoted (text : string) : string :=
  String dquote (_escape text ++ String dquote EmptyString).

(** [MacOSNotificationOutlet._build_script]; an empty [sound] counts as
    none. *)
Definition _build_script (self : MacOSNotificationOutlet.t)
    (message subtitle : string) : string :=
  let parts :=
    [("display notification " ++ quoted message ++ " with title "
      ++ quoted (MacOSNotificationOutlet.title self))%string;
     ("subtitle " ++ quoted subtitle)%string]
    ++ match MacOSNotificationOutlet.sound self with
       | Some (String c rest) => [("sound name " ++ quoted (String c rest))%string]
       | _ => []
       end in
  join_with " " parts.

(** Reading a string literal of AppleScript from behind its opening quote
    to its closing quote: a backslash makes the character after it a
    character of the text.  The text read, and what follows the literal. *)
Fixpoint read_literal (s : string) : option (string * string) :=
  match s with
  | EmptyString => None
  | String c rest =>
      if Ascii.eqb c dquote then Some (EmptyString, rest)
      else if Ascii.eqb c backslash then
        match rest with
        | EmptyString => None
        | String c2 rest2 =>
            match read_literal rest2 with
            | Some (text, tl) => Some (String c2 text, tl)
            | None => None
            end
        end
      else
        match read_literal rest with
        | Some (text, tl) => Some (String c text, tl)
        | None => None
        end
  end.

Definition read_quoted (s : string) : option (string * string) :=
  match s with
  | String c rest => if Ascii.eqb c dquote then read_literal rest else None
  | EmptyString => None
  end.

(** What follows the [word] that [s] starts with. *)
Fixpoint expect (word s : string) : option string :=
  match word, s with
  | EmptyString, _ => Some s
  | String a word', String b s' => if Ascii.eqb a b then expect word' s' else None
  | String _ _, EmptyString => None
  end.

(** Reading a script [display notification "..." with title "..." subtitle
    "..."], with or without [sound name "..."] at its end: the message, the
    title, the subtitle and the sound. *)
Definition read_script (s : string) : option (string * string * string * option string) :=
  match expect "display notification " s with
  | None => None
  | Some s1 =>
      match read_quoted s1 with
      | None => None
      | Some (message, s2) =>
          match expect " with title " s2 with
          | None => None
          | Some s3 =>
              match read_quoted s3 with
              | None => None
              | Some (the_title, s4) =>
                  match expect " subtitle " s4 with
                  | None => None
                  | Some s5 =>
                      match read_quoted s5 with
                      | None => None
                      | Some (the_subtitle, EmptyString) =>
                          Some (message, the_title, the_subtitle, None)
                      | Some (the_subtitle, s6) =>
                          match expect " sound name " s6 with
                          | None => None
                          | Some s7 =>
                              match read_quoted s7 with
                              | Some (the_sound, EmptyString) =>
                                  Some (message, the_title, the_subtitle, Some the_sound)
                              | _ => None
                              end
                          end
                      end
                  end
              end
          end
      end
  end.

(** The sound that takes effect: an empty name is no sound. *)
Definition effective_sound (self : MacOSNotificationOutlet.t) : option string :=
  match MacOSNotificationOutlet.sound self with
  | Some (String c rest) => Some (String c rest)
  | _ => None
  end.

(* ================================================================== *)
(** * Theorems *)

Example parse_5d : _parse_duration (VStr "5d") = Ok (5 * 86400 * 1000000).
Proof. reflexivity. Qed.

Example parse_12h : _parse_offset (VStr " 12H ") = Ok (12 * 3600 * 1000000).
Proof. reflexivity. Qed.

Example path_parse_1 : Path_of_string "/a//b/./c/" = mkPath "/" ["a"; "b"; "c"].
Proof. reflexivity. Qed.
Example path_parse_2 : Path_of_string "//a" = mkPath "//" ["a"].
Proof. reflexivity. Qed.
Example path_parse_3 : Path_of_string "keep_dir/x" = mkPath "" ["keep_dir"; "x"].
Proof. reflexivity. Qed.
Example path_parse_4 : Path_of_string "." = mkPath "" [].
Proof. reflexivity. Qed.
Example path_parse_5 : Path_of_string "///a" = mkPath "/" ["a"].
Proof. reflexivity. Qed.

Example ord2ymd_1 : ord2ymd 738895 = (2024, 1, 10). Proof. reflexivity. Qed.
Example ord2ymd_2 : ord2ymd 1 = (1, 1, 1). Proof. reflexivity. Qed.
Example ord2ymd_3 : ord2ymd 730179 = (2000, 2, 29). Proof. reflexivity. Qed.
Example ord2ymd_4 : ord2ymd 739251 = (2024, 12, 31). Proof. reflexivity. Qed.
Example ord2ymd_5 : ord2ymd 730119 = (1999, 12, 31). Proof. reflexivity. Qed.
Example ord2ymd_6 : ord2ymd 766704 = (2100, 3, 1). Proof. reflexivity. Qed.
Example ord2ymd_max : ord2ymd max_ordinal = (9999, 12, 31). Proof. reflexivity. Qed.
Example date_add_days_far : date_add_days 739923 3000000 = Raise OverflowError.
Proof. reflexivity. Qed.
Example date_add_days_back : date_add_days 739923 (-800000) = Raise OverflowError.
Proof. reflexivity. Qed.
Example datetime_add_far :
  datetime_add (739923 * usec_per_day) (9000 * 365 * usec_per_day) = Raise OverflowError.
Proof. reflexivity. Qed.
Example strftime_1 :
  strftime_YmdHMS (738917 * usec_per_day + (13 * 3600 + 5 * 60 + 9) * usec_per_second + 77)
  = "20240201130509".
Proof. reflexivity. Qed.
(* ------------------------------------------------------------------ *)
(** ** Results *)

Lemma raises_Raise {A : Type} (e : exn) : raises (@Raise A e).
Proof. exists e. reflexivity. Qed.

Lemma bind_Ok {A B : Type} (r : result A) (k : A -> result B) (b : B) :
  bind r k = Ok b -> exists a, r = Ok a /\ k a = Ok b.
Proof. destruct r as [a|e]; simpl; intros H; [exists a; auto | discriminate]. Qed.


Lemma mapM_total {A B : Type} (f : A -> result B) (g : A -> B) (l : list A) :
  (forall a, In a l -> f a = Ok (g a)) -> mapM f l = Ok (map g l).
Proof.
  induction l as [|a l IH]; simpl; intros H; [reflexivity|].
  rewrite (H a) by auto. simpl. rewrite IH by auto. reflexivity.
Qed.

(* ------------------------------------------------------------------ *)
(** ** Lists of strings and paths *)

Lemma list_string_eqb_eq (a b : list string) :
  list_string_eqb a b = true <-> a = b.
Proof.
  revert b. induction a as [|x a IH]; intros [|y b]; simpl; split; intros H;
    try reflexivity; try discriminate.
  - apply andb_true_iff in H. destruct H as [H1 H2].
    apply String.eqb_eq in H1. apply IH in H2. congruence.
  - inversion H; subst. rewrite String.eqb_refl. simpl. apply IH. reflexivity.
Qed.

Lemma Path_eqb_eq (p q : Path) : Path_eqb p q = true <-> p = q.
Proof.
  unfold Path_eqb. destruct p as [r1 n1], q as [r2 n2]. simpl.
  rewrite andb_true_iff, String.eqb_eq, list_string_eqb_eq.
  split; [intros [-> ->]; reflexivity | intros H; inversion H; auto].
Qed.

Lemma Path_eqb_refl (p : Path) : Path_eqb p p = true.
Proof. apply Path_eqb_eq. reflexivity. Qed.

Lemma firstn_prefix (a b : list string) :
  ((List.length a <=? List.length b)%nat
   && list_string_eqb (firstn (List.length a) b) a) = true <-> path_prefix a b.
Proof.
  rewrite andb_true_iff, Nat.leb_le, list_string_eqb_eq. split.
  - intros [_ H]. exists (skipn (List.length a) b).
    rewrite <- H at 1. symmetry. apply firstn_skipn.
  - intros [rest ->]. split.
    + rewrite length_app. lia.
    + rewrite firstn_app, Nat.sub_diag, firstn_all. simpl. apply app_nil_r.
Qed.

Lemma is_prefix_spec (a b : list string) :
  is_prefix a b = true <-> path_prefix a b.
Proof.
  revert b. induction a as [|x a IH]; intros b; simpl.
  - split; [intros _; exists b; reflexivity | reflexivity].
  - destruct b as [|y b].
    + split; [discriminate | intros [rest H]; discriminate].
    + rewrite andb_true_iff, String.eqb_eq, IH. split.
      * intros [-> [rest ->]]. exists rest. reflexivity.
      * intros [rest H]. inversion H; subst. split; [reflexivity | exists rest; reflexivity].
Qed.

(* ------------------------------------------------------------------ *)
(** ** Duration parsing *)

Example parse_duration_True : _parse_duration (VBool true) = Ok usec_per_day.
Proof. reflexivity. Qed.

Example parse_duration_minus_one : _parse_duration (VInt (-1)) = Ok (- usec_per_day).
Proof. reflexivity. Qed.

(** C3, as stated, fails: the text ["5D"] matches neither pattern, and both
    parsers accept it, because they strip and lower the text first. *)
Lemma parse_accepts_unmatched_text :
  match_duration_text "5D" = None
  /\ _parse_offset (VStr "5D") = Ok (5 * usec_per_day)
  /\ _parse_duration (VStr "5D") = Ok (5 * usec_per_day).
Proof. repeat split; reflexivity. Qed.

(** C3, amended: [_parse_offset] raises on every negative number and on
    every boolean, and both parsers raise on every string whose stripped,
    lower-cased text matches neither [^\d+[hdwy]$] nor [^\d+$]. *)
Theorem parsers_reject_invalid (v : pyvalue) (H : invalid_duration_input v) :
  raises (_parse_offset v)
  /\ (forall s, v = VStr s -> raises (_parse_duration v)).
Proof.
  destruct v as [td|b|z|f|s|]; simpl in H; try contradiction.
  - split; [apply raises_Raise | discriminate].
  - split; [|discriminate]. unfold _parse_offset, number_lt_zero.
    apply Z.ltb_lt in H. rewrite H. apply raises_Raise.
  - split; [|discriminate]. unfold _parse_offset, number_lt_zero.
    rewrite H. apply raises_Raise.
  - split; [|intros s' _]; unfold _parse_offset, _parse_duration;
      rewrite H; apply raises_Raise.
Qed.

Lemma parsers_reject_invalid_witness :
  raises (_parse_offset (VInt (-3)))
  /\ raises (_parse_offset (VBool true))
  /\ raises (_parse_duration (VStr "5 d")).
Proof.
  split; [|split].
  - apply (parsers_reject_invalid (VInt (-3))). simpl. lia.
  - apply (parsers_reject_invalid (VBool true)). simpl. exact I.
  - apply (proj2 (parsers_reject_invalid (VStr "5 d") eq_refl) "5 d" eq_refl).
Defined.

(* ------------------------------------------------------------------ *)
(** ** Effective policy *)

Section PolicyFacts.

Variable re_match : string -> string -> bool.

Lemma policy_loop_first_match (rule : FolderRule.t) (relative_path : Path)
    (before : list PatternRule.t) (p : PatternRule.t) (after : list PatternRule.t) :
  Forall (fun q => pattern_matches re_match relative_path q = false) before ->
  pattern_matches re_match relative_path p = true ->
  policy_loop re_match rule relative_path (before ++ p :: after)
  = (PatternRule.retention p, PatternRule.action p)
  /\ notify_loop re_match rule relative_path (before ++ p :: after)
     = PatternRule.notify_before p.
Proof.
  unfold pattern_matches. intros Hb Hp.
  induction Hb as [|q before Hq _ IH]; simpl.
  - rewrite Hp. split; reflexivity.
  - rewrite Hq. exact IH.
Qed.

Lemma policy_loop_no_match (rule : FolderRule.t) (relative_path : Path)
    (patterns : list PatternRule.t) :
  Forall (fun q => pattern_matches re_match relative_path q = false) patterns ->
  policy_loop re_match rule relative_path patterns
  = (FolderRule.retention rule, FolderRule.action rule)
  /\ notify_loop re_match rule relative_path patterns
     = FolderRule.notify_before rule.
Proof.
  unfold pattern_matches. intros H.
  induction H as [|q patterns Hq _ IH]; simpl.
  - split; reflexivity.
  - rewrite Hq. exact IH.
Qed.

(** C2: the effective retention, action and lead times of an entry are
    those of the first pattern rule, in declared order, that [re.match]
    accepts on the base name of the entry; the lead times of that pattern
    rule stand alone, the folder rule's are not merged in.  When no
    pattern rule matches, the folder rule's own retention, action and
    lead times apply. *)
Theorem effective_policy_first_match (rule : FolderRule.t) (relative_path : Path) :
  (forall before p after,
      FolderRule.patterns rule = before ++ p :: after ->
      Forall (fun q => pattern_matches re_match relative_path q = false) before ->
      pattern_matches re_match relative_path p = true ->
      _effective_policy re_match rule relative_path
      = (PatternRule.retention p, PatternRule.action p)
      /\ _effective_notify re_match rule relative_path
         = PatternRule.notify_before p)
  /\ (Forall (fun q => pattern_matches re_match relative_path q = false)
        (FolderRule.patterns rule) ->
      _effective_policy re_match rule relative_path
      = (FolderRule.retention rule, FolderRule.action rule)
      /\ _effective_notify re_match rule relative_path
         = FolderRule.notify_before rule).
Proof.
  unfold _effective_policy, _effective_notify. split.
  - intros before p after -> Hb Hp. apply policy_loop_first_match; assumption.
  - apply policy_loop_no_match.
Qed.

End PolicyFacts.

Lemma effective_policy_first_match_witness :
  (_effective_policy re_match_literal screenshot_rule (mkPath "" ["sub"; "ScreenShot_1.png"])
   = (usec_per_day, "delete")
   /\ _effective_notify re_match_literal screenshot_rule (mkPath "" ["sub"; "ScreenShot_1.png"])
      = [usec_per_day])
  /\ (_effective_policy re_match_literal screenshot_rule (mkPath "" ["generic.txt"])
      = (10 * usec_per_day, "trash")
      /\ _effective_notify re_match_literal screenshot_rule (mkPath "" ["generic.txt"])
         = [0; 2 * usec_per_day]).
Proof.
  split.
  - apply (proj1 (effective_policy_first_match re_match_literal screenshot_rule
                    (mkPath "" ["sub"; "ScreenShot_1.png"]))
             [] (PatternRule.mk "^Screen" usec_per_day [usec_per_day] "delete")
             [PatternRule.mk "^ScreenShot" (3 * usec_per_day) [0] "trash"]).
    + reflexivity.
    + constructor.
    + reflexivity.
  - apply (proj2 (effective_policy_first_match re_match_literal screenshot_rule
                    (mkPath "" ["generic.txt"]))).
    repeat constructor.
Defined.

(* ------------------------------------------------------------------ *)
(** ** Exemptions *)

Lemma is_absolute_false_parts (p : Path) :
  is_absolute p = false -> parts p = names p.
Proof. unfold parts. intros ->. reflexivity. Qed.

Lemma is_exempt_loop_iff (relative_path : Path) (exemptions : list string) :
  is_exempt_loop relative_path exemptions = true
  <-> exists ex, In ex exemptions /\ exempt_by relative_path ex.
Proof.
  induction exemptions as [|ex rest IH]; simpl.
  - split; [discriminate | intros (ex & [] & _)].
  - destruct (is_absolute (Path_of_string ex)) eqn:Habs.
    + destruct (Path_eqb relative_path (Path_of_string ex)) eqn:Heq.
      * split; [intros _ | reflexivity].
        exists ex. split; [left; reflexivity|].
        left. split; [exact Habs | apply Path_eqb_eq; exact Heq].
      * rewrite IH. split.
        -- intros (ex' & Hin & Hby). exists ex'. split; [right; exact Hin | exact Hby].
        -- intros (ex' & [<- | Hin] & Hby); [| exists ex'; split; assumption].
           exfalso. destruct Hby as [[_ H] | [[H _] | [H _]]]; try congruence.
           apply Path_eqb_eq in H. congruence.
    + destruct ((List.length (parts (Path_of_string ex))
                 <=? List.length (parts relative_path))%nat
                && list_string_eqb
                     (firstn (List.length (parts (Path_of_string ex)))
                        (parts relative_path))
                     (parts (Path_of_string ex))) eqn:Hpre.
      * split; [intros _ | reflexivity].
        exists ex. split; [left; reflexivity|].
        right; left. split; [exact Habs | apply firstn_prefix; exact Hpre].
      * destruct (negb (String.eqb (name (Path_of_string ex)) "")
                  && String.eqb (name (Path_of_string ex)) (name relative_path))
          eqn:Hname.
        -- split; [intros _ | reflexivity].
           exists ex. split; [left; reflexivity|].
           right; right. apply andb_true_iff in Hname. destruct Hname as [H1 H2].
           apply negb_true_iff, String.eqb_neq in H1. apply String.eqb_eq in H2.
           auto.
        -- rewrite IH. split.
           ++ intros (ex' & Hin & Hby). exists ex'. split; [right; exact Hin | exact Hby].
           ++ intros (ex' & [<- | Hin] & Hby); [| exists ex'; split; assumption].
              exfalso. destruct Hby as [[H _] | [[_ H] | (_ & H1 & H2)]].
              ** congruence.
              ** apply firstn_prefix in H. congruence.
              ** apply String.eqb_neq in H1. apply String.eqb_eq in H2.
                 rewrite H1, H2 in Hname. discriminate.
Qed.

Lemma is_exempt_iff_exempt_by (rule : FolderRule.t) (relative_path : Path) :
  _is_exempt rule relative_path = true
  <-> exists ex, In ex (FolderRule.exemptions rule) /\ exempt_by relative_path ex.
Proof.
  unfold _is_exempt. rewrite <- is_exempt_loop_iff.
  destruct (FolderRule.exemptions rule); simpl; tauto.
Qed.



Section ExemptionFacts.

Variable re_match : string -> string -> bool.


End ExemptionFacts.


(* ------------------------------------------------------------------ *)
(** ** Trees and walks *)

Lemma lookup_child_In (entry : string) (children : list (string * node)) (c : node) :
  lookup_child entry children = Some c -> In (entry, c) children.
Proof.
  induction children as [|[k c0] rest IH]; simpl; [discriminate|].
  destruct (String.eqb k entry) eqn:E.
  - apply String.eqb_eq in E. intros H. inversion H; subst. left. reflexivity.
  - intros H. right. apply IH. exact H.
Qed.

Lemma lookup_child_some_iff (entry : string) (children : list (string * node)) :
  In entry (map fst children) <-> exists c, lookup_child entry children = Some c.
Proof.
  induction children as [|[k c0] rest IH]; simpl.
  - split; [intros [] | intros [c H]; discriminate].
  - destruct (String.eqb k entry) eqn:E.
    + apply String.eqb_eq in E. split; [intros _; exists c0; reflexivity | auto].
    + apply String.eqb_neq in E. rewrite <- IH. split; [intros [H|H]; [contradiction|exact H] | auto].
Qed.

Lemma with_child_lookup {A : Type} (entry : string) (f : node -> list A)
    (children : list (string * node)) :
  with_child entry f children
  = match lookup_child entry children with
    | Some c => f c
    | None => []
    end.
Proof.
  induction children as [|[k c0] rest IH]; simpl; [reflexivity|].
  destruct (String.eqb k entry); [reflexivity | exact IH].
Qed.

Lemma lookup_app (a b : list string) (n : node) :
  lookup (a ++ b) n
  = match lookup a n with
    | Some c => lookup b c
    | None => None
    end.
Proof.
  revert n. induction a as [|x a IH]; intros n; simpl; [reflexivity|].
  destruct n as [m|m children]; [reflexivity|].
  destruct (lookup_child x children); [apply IH | reflexivity].
Qed.

Lemma names_in_listing (entry : string) (children : list (string * node)) :
  In entry (file_names children ++ dir_names children)
  <-> In entry (map fst children).
Proof.
  unfold file_names, dir_names. rewrite in_app_iff, !in_map_iff. split.
  - intros [(kc & <- & H) | (kc & <- & H)]; apply filter_In in H;
      exists kc; tauto.
  - intros (kc & <- & H). destruct (node_is_dir (snd kc)) eqn:E.
    + right. exists kc. split; [reflexivity|]. apply filter_In. auto.
    + left. exists kc. split; [reflexivity|]. apply filter_In. rewrite E. auto.
Qed.

Lemma dir_names_lookup (entry : string) (children : list (string * node))
    (m : datetime) (ch : list (string * node)) :
  lookup_child entry children = Some (Dir m ch) -> In entry (dir_names children).
Proof.
  intros H. apply lookup_child_In in H. unfold dir_names.
  apply in_map_iff. exists (entry, Dir m ch). split; [reflexivity|].
  apply filter_In. split; [exact H | reflexivity].
Qed.

(** Every level of a walk is a directory that the walked node leads to. *)
Lemma os_walk_levels (n : node) :
  forall top level,
    In level (os_walk top n) ->
    exists suffix m children,
      lookup suffix n = Some (Dir m children)
      /\ level = (mkPath (root top) (names top ++ suffix),
                  dir_names children, file_names children).
Proof.
  induction n as [m|m children IH] using node_induction; intros top level H.
  - destruct H.
  - simpl in H. destruct H as [<- | H].
    + exists [], m, children. simpl. rewrite app_nil_r. destruct top; auto.
    + apply in_flat_map in H. destruct H as (entry & _ & H).
      rewrite with_child_lookup in H.
      destruct (lookup_child entry children) as [c|] eqn:Hc; [|destruct H].
      rewrite Forall_forall in IH.
      destruct (IH (entry, c) (lookup_child_In _ _ _ Hc) _ _ H)
        as (suffix & m' & ch' & Hl & ->).
      exists (entry :: suffix), m', ch'. simpl. rewrite Hc. split; [exact Hl|].
      rewrite <- app_assoc. reflexivity.
Qed.

(** Conversely a walk reaches every directory that the node leads to. *)
Lemma os_walk_reaches (suffix : list string) :
  forall n top m children,
    lookup suffix n = Some (Dir m children) ->
    In (mkPath (root top) (names top ++ suffix),
        dir_names children, file_names children)
       (os_walk top n).
Proof.
  induction suffix as [|x suffix IH]; intros n top m children H; simpl in H.
  - inversion H; subst. simpl. left. rewrite app_nil_r. destruct top; reflexivity.
  - destruct n as [m0|m0 ch0]; [discriminate|].
    destruct (lookup_child x ch0) as [c|] eqn:Hc; [|discriminate].
    simpl. right. apply in_flat_map. exists x.
    assert (Hdir : exists mc chc, c = Dir mc chc).
    { destruct c as [mc|mc chc]; [|eauto].
      destruct suffix; simpl in H; discriminate. }
    destruct Hdir as (mc & chc & ->). split.
    + eapply dir_names_lookup. exact Hc.
    + rewrite with_child_lookup, Hc.
      specialize (IH (Dir mc chc) (child_path top x) m children H).
      simpl in IH. rewrite <- app_assoc in IH. exact IH.
Qed.

Lemma relative_to_suffix (r : string) (b suffix : list string) :
  relative_to (mkPath r (b ++ suffix)) (mkPath r b) = Ok (mkPath "" suffix).
Proof.
  unfold relative_to. simpl. rewrite String.eqb_refl.
  rewrite firstn_app, Nat.sub_diag, firstn_all. simpl. rewrite app_nil_r.
  rewrite (proj2 (list_string_eqb_eq b b) eq_refl). simpl.
  rewrite skipn_app, Nat.sub_diag, skipn_all. reflexivity.
Qed.

Lemma entries_of_level_ok (base : Path) (suffix : list string)
    (dirs nondirs : list string) :
  entries_of_level base (mkPath (root base) (names base ++ suffix), dirs, nondirs)
  = Ok (level_entries base suffix (nondirs ++ dirs)).
Proof.
  unfold entries_of_level, level_entries. apply mapM_total.
  intros entry _. unfold child_path. simpl.
  rewrite <- app_assoc. destruct base as [r b]. simpl.
  rewrite relative_to_suffix. reflexivity.
Qed.

Lemma in_concat_map {A B : Type} (g : A -> list B) (l : list A) (b : B) :
  In b (List.concat (map g l)) <-> exists a, In a l /\ In b (g a).
Proof.
  rewrite <- flat_map_concat_map. apply in_flat_map.
Qed.

Lemma walk_entries_ok (base : Path) (n : node) :
  exists per_level,
    mapM (entries_of_level base) (os_walk base n) = Ok per_level
    /\ forall absolute_path relative_path,
        In (absolute_path, relative_path) (List.concat per_level)
        <-> (exists m children, n = Dir m children)
            /\ is_entry base n absolute_path relative_path.
Proof.
  set (g := fun level => match entries_of_level base level with
                         | Ok l => l
                         | Raise _ => []
                         end).
  assert (Hg : forall level, In level (os_walk base n) ->
                             entries_of_level base level = Ok (g level)).
  { intros level H. apply os_walk_levels in H.
    destruct H as (suffix & m & ch & _ & ->). unfold g.
    rewrite entries_of_level_ok. reflexivity. }
  exists (map g (os_walk base n)). split; [apply mapM_total; exact Hg|].
  intros absolute_path relative_path. rewrite in_concat_map. split.
  - intros (level & Hin & Hentry).
    destruct (os_walk_levels _ _ _ Hin) as (suffix & m & ch & Hl & ->).
    unfold g in Hentry. rewrite entries_of_level_ok in Hentry.
    unfold level_entries in Hentry. apply in_map_iff in Hentry.
    destruct Hentry as (entry & Heq & Hentry). inversion Heq; subst.
    apply names_in_listing, lookup_child_some_iff in Hentry.
    destruct Hentry as [c Hc]. split.
    + destruct n as [m0|m0 ch0]; [|eauto]. destruct suffix; discriminate.
    + exists (suffix ++ [entry]), c. repeat split.
      * intros E. apply app_eq_nil in E. destruct E; discriminate.
      * rewrite lookup_app, Hl. simpl. rewrite Hc. reflexivity.
  - intros [_ (suffix & c & Hne & Hl & -> & ->)].
    destruct (exists_last Hne) as (pre & entry & ->).
    rewrite lookup_app in Hl.
    destruct (lookup pre n) as [d|] eqn:Hd; [|discriminate].
    simpl in Hl. destruct d as [m|m ch]; [discriminate|].
    destruct (lookup_child entry ch) as [c'|] eqn:Hc; [|discriminate].
    exists (mkPath (root base) (names base ++ pre), dir_names ch, file_names ch).
    split.
    + apply os_walk_reaches with (m := m). exact Hd.
    + unfold g. rewrite entries_of_level_ok. unfold level_entries.
      apply in_map_iff. exists entry. split; [reflexivity|].
      apply names_in_listing, lookup_child_some_iff. eauto.
Qed.

(** The generator [_iter_rule_entries] never raises. *)
Lemma iter_rule_entries_total (rule : FolderRule.t) (w : world) :
  _iter_rule_entries rule w = Ok (rule_entries rule w).
Proof.
  unfold rule_entries, _iter_rule_entries.
  destruct (path_lookup w (FolderRule.path rule)) as [n|].
  - destruct (walk_entries_ok (FolderRule.path rule) n) as (per_level & -> & _).
    reflexivity.
  - reflexivity.
Qed.

(** It yields the entries below the root of the rule, each with its path
    relative to that root. *)
Lemma rule_entries_spec (rule : FolderRule.t) (w : world)
    (absolute_path relative_path : Path) :
  In (absolute_path, relative_path) (rule_entries rule w)
  <-> exists m children,
      path_lookup w (FolderRule.path rule) = Some (Dir m children)
      /\ is_entry (FolderRule.path rule) (Dir m children) absolute_path relative_path.
Proof.
  unfold rule_entries, _iter_rule_entries.
  destruct (path_lookup w (FolderRule.path rule)) as [n|].
  - destruct (walk_entries_ok (FolderRule.path rule) n) as (per_level & -> & H).
    simpl. rewrite H. split.
    + intros [(m & ch & ->) He]. eauto.
    + intros (m & ch & Heq & He). inversion Heq; subst. eauto.
  - simpl. split; [intros [] | intros (m & ch & H & _); discriminate].
Qed.

Lemma rule_entry_exists (rule : FolderRule.t) (w : world)
    (absolute_path relative_path : Path) :
  In (absolute_path, relative_path) (rule_entries rule w) ->
  exists c, path_lookup w absolute_path = Some c.
Proof.
  intros H. apply rule_entries_spec in H.
  destruct H as (m & ch & Hroot & suffix & c & _ & Hl & -> & _).
  exists c. unfold path_lookup in *. simpl. rewrite lookup_app, Hroot. exact Hl.
Qed.

Lemma rule_entry_relative (rule : FolderRule.t) (w : world)
    (absolute_path relative_path : Path) :
  In (absolute_path, relative_path) (rule_entries rule w) ->
  root relative_path = "" /\ names relative_path <> []
  /\ absolute_path = mkPath (root (FolderRule.path rule))
                       (names (FolderRule.path rule) ++ names relative_path).
Proof.
  intros H. apply rule_entries_spec in H.
  destruct H as (m & ch & _ & suffix & c & Hne & _ & -> & ->). auto.
Qed.

Lemma modified_datetime_entry (rule : FolderRule.t) (w : world)
    (absolute_path relative_path : Path) :
  In (absolute_path, relative_path) (rule_entries rule w) ->
  _modified_datetime w absolute_path = Ok (modified_at w absolute_path).
Proof.
  intros H. apply rule_entry_exists in H. destruct H as [c Hc].
  unfold _modified_datetime, modified_at. rewrite Hc. reflexivity.
Qed.

(** So does [_collect_entries] never raise. *)
Lemma collect_entries_total (rule : FolderRule.t) (w : world) :
  _collect_entries rule w = Ok (collected_entries rule w).
Proof.
  unfold _collect_entries, collected_entries.
  rewrite iter_rule_entries_total. simpl. apply mapM_total.
  intros [absolute_path relative_path] H. simpl.
  rewrite (modified_datetime_entry rule w _ _ H). reflexivity.
Qed.

(* ------------------------------------------------------------------ *)
(** ** The order of disposal *)

Lemma insert_deepest_first_perm (e : Path * Path * datetime)
    (l : list (Path * Path * datetime)) :
  Permutation (insert_deepest_first e l) (e :: l).
Proof.
  induction l as [|x l IH]; simpl; [reflexivity|].
  destruct (entry_depth x <=? entry_depth e)%nat; [reflexivity|].
  rewrite IH. apply perm_swap.
Qed.

Lemma sort_deepest_first_perm (l : list (Path * Path * datetime)) :
  Permutation (sort_deepest_first l) l.
Proof.
  induction l as [|e l IH]; simpl; [reflexivity|].
  rewrite insert_deepest_first_perm. constructor. exact IH.
Qed.

Lemma insert_deepest_first_sorted (e : Path * Path * datetime)
    (l : list (Path * Path * datetime)) :
  StronglySorted deeper_or_equal l ->
  StronglySorted deeper_or_equal (insert_deepest_first e l).
Proof.
  induction 1 as [|x l Hs IH Hx]; simpl.
  - repeat constructor.
  - destruct (entry_depth x <=? entry_depth e)%nat eqn:E.
    + apply Nat.leb_le in E. constructor; [constructor; assumption|].
      constructor; [exact E|].
      eapply Forall_impl; [|exact Hx]. unfold deeper_or_equal. intros; lia.
    + apply Nat.leb_gt in E. constructor; [exact IH|].
      eapply Permutation_Forall; [symmetry; apply insert_deepest_first_perm|].
      constructor; [unfold deeper_or_equal; lia | exact Hx].
Qed.

Lemma sort_deepest_first_sorted (l : list (Path * Path * datetime)) :
  StronglySorted deeper_or_equal (sort_deepest_first l).
Proof.
  induction l as [|e l IH]; simpl; [constructor|].
  apply insert_deepest_first_sorted. exact IH.
Qed.

Lemma filter_sorted {A : Type} (R : A -> A -> Prop) (f : A -> bool) (l : list A) :
  StronglySorted R l -> StronglySorted R (filter f l).
Proof.
  induction 1 as [|x l Hs IH Hx]; simpl; [constructor|].
  destruct (f x); [|exact IH]. constructor; [exact IH|].
  rewrite Forall_forall in *. intros y Hy. apply filter_In in Hy. apply Hx, Hy.
Qed.

Lemma sorted_after {A : Type} (R : A -> A -> Prop) (l1 : list A) (d : A) (l2 : list A) :
  StronglySorted R (l1 ++ d :: l2) -> Forall (R d) l2.
Proof.
  induction l1 as [|x l1 IH]; simpl; intros H; inversion H; subst; auto.
Qed.

Lemma sorted_precedes (l : list (Path * Path * datetime))
    (c d : Path * Path * datetime) :
  StronglySorted deeper_or_equal l ->
  In c l -> In d l -> (entry_depth d < entry_depth c)%nat ->
  precedes c d l.
Proof.
  intros Hs Hc Hd Hlt.
  destruct (in_split _ _ Hd) as (l1 & l2 & ->).
  apply in_app_or in Hc. destruct Hc as [Hc | [Hc | Hc]].
  - destruct (in_split _ _ Hc) as (a & b & ->).
    exists a, b, l2. rewrite <- app_assoc. reflexivity.
  - subst. lia.
  - apply sorted_after in Hs. rewrite Forall_forall in Hs.
    specialize (Hs c Hc). unfold deeper_or_equal in Hs. lia.
Qed.

Lemma strictly_below_deeper (c d : Path * Path * datetime) :
  strictly_below c d -> (entry_depth d < entry_depth c)%nat.
Proof.
  unfold strictly_below, entry_depth. intros [[rest H] Hne].
  rewrite H, length_app. destruct rest as [|x rest].
  - rewrite app_nil_r in H. congruence.
  - simpl. lia.
Qed.

Section OrderFacts.

Variable re_match : string -> string -> bool.

Lemma cleanup_entries_dispose_all (svc : FolderCleanerService) (rule : FolderRule.t)
    (as_of_dt : datetime) (entries : list (Path * Path * datetime)) :
  forall w removed,
    cleanup_entries re_match svc rule as_of_dt entries w removed
    = dispose_all re_match svc rule
        (filter (is_due re_match rule as_of_dt) entries) w removed.
Proof.
  induction entries as [|[[absolute_path relative_path] modified] rest IH];
    intros w removed; [reflexivity|].
  cbn [filter cleanup_entries].
  destruct (is_due re_match rule as_of_dt (absolute_path, relative_path, modified))
    eqn:Hdue; unfold is_due in Hdue; cbn [fst snd] in Hdue.
  - apply andb_true_iff in Hdue. destruct Hdue as [Hex Hold].
    apply negb_true_iff in Hex. rewrite Hex.
    cbn [dispose_all]. unfold dispose. cbn [fst snd].
    destruct (_effective_policy re_match rule relative_path) as [retention action].
    cbn [fst snd] in *. rewrite Hold.
    destruct (String.eqb action "trash").
    + destruct (_move_to_trash svc rule absolute_path relative_path w); simpl;
        [apply IH | reflexivity].
    + destruct (String.eqb action "system_trash").
      * destruct (_move_to_system_trash rule absolute_path relative_path w); simpl;
          [apply IH | reflexivity].
      * destruct (_remove_path absolute_path w); simpl; [apply IH | reflexivity].
  - destruct (_is_exempt rule relative_path); [apply IH|].
    destruct (_effective_policy re_match rule relative_path) as [retention action].
    cbn [fst snd negb andb] in Hdue. rewrite Hdue. apply IH.
Qed.

End OrderFacts.

(* ------------------------------------------------------------------ *)
(** ** No disposal fails on a directory that is not empty *)

Lemma bind_never_enotempty {A B : Type} (r : result A) (k : A -> result B) :
  never_enotempty r ->
  (forall a, r = Ok a -> never_enotempty (k a)) ->
  never_enotempty (bind r k).
Proof.
  unfold never_enotempty. destruct r as [a|e]; simpl; intros Hr Hk.
  - apply Hk. reflexivity.
  - congruence.
Qed.

Ltac split_matches :=
  repeat match goal with
         | |- context [match ?x with _ => _ end] => destruct x
         | |- context [if ?x then _ else _] => destruct x
         end.

Lemma mkdir_parents_never_enotempty (t : datetime) (ns : list string) :
  forall n, never_enotempty (mkdir_parents t ns n).
Proof.
  induction ns as [|x rest IH]; intros n; simpl; [discriminate|].
  destruct n as [m|m children]; [discriminate|].
  destruct (lookup_child x children) as [[mc|mc chc]|]; try discriminate.
  - destruct rest; discriminate.
  - apply bind_never_enotempty; [apply IH | discriminate].
Qed.

Lemma mkdir_never_enotempty (p : Path) (w : world) : never_enotempty (mkdir p w).
Proof.
  unfold mkdir. apply bind_never_enotempty;
    [apply mkdir_parents_never_enotempty | discriminate].
Qed.

Lemma copytree_rmtree_never_enotempty (src dst : Path) (w : world) :
  never_enotempty (copytree_rmtree src dst w).
Proof.
  unfold copytree_rmtree. destruct (path_lookup w src); [|discriminate].
  destruct (exists_ w dst); [discriminate|].
  apply bind_never_enotempty; [apply mkdir_never_enotempty | discriminate].
Qed.

Lemma copy2_unlink_never_enotempty (src dst : Path) (w : world) :
  never_enotempty (copy2_unlink src dst w).
Proof.
  unfold copy2_unlink, never_enotempty. split_matches; discriminate.
Qed.

(** [shutil.move] renames onto its destination only when that is no
    directory, and into it only under a name that is free there. *)
Lemma shutil_move_never_enotempty (src dst : Path) (w : world) :
  never_enotempty (shutil_move src dst w).
Proof.
  unfold shutil_move.
  destruct (is_dir w dst && list_string_eqb (names src) (names dst)) eqn:Hsame.
  - apply andb_true_iff in Hsame. destruct Hsame as [_ Hsame].
    unfold os_rename, never_enotempty. rewrite Hsame.
    destruct (path_lookup w src); discriminate.
  - apply bind_never_enotempty.
    + unfold never_enotempty. split_matches; discriminate.
    + intros real_dst _. destruct (os_rename src real_dst w); [discriminate|].
      destruct (is_dir w src).
      * destruct (is_prefix (names src) (names dst)); [discriminate|].
        apply copytree_rmtree_never_enotempty.
      * apply copy2_unlink_never_enotempty.
Qed.

Lemma remove_path_never_enotempty (p : Path) (w : world) :
  never_enotempty (_remove_path p w).
Proof.
  unfold _remove_path, unlink_missing_ok, never_enotempty.
  split_matches; discriminate.
Qed.

Lemma with_name_never_enotempty (p : Path) (s : string) :
  never_enotempty (with_name p s).
Proof. unfold with_name, never_enotempty. destruct (names p); discriminate. Qed.

Lemma move_to_trash_never_enotempty (svc : FolderCleanerService)
    (rule : FolderRule.t) (absolute_path relative_path : Path) (w : world) :
  never_enotempty (_move_to_trash svc rule absolute_path relative_path w).
Proof.
  unfold _move_to_trash. destruct (trash_dir svc) as [trash|];
    [|apply bind_never_enotempty; [apply remove_path_never_enotempty | discriminate]].
  apply bind_never_enotempty; [apply mkdir_never_enotempty|].
  intros w1 _. apply bind_never_enotempty.
  - destruct (exists_ w1 _); [|discriminate].
    apply bind_never_enotempty; [apply with_name_never_enotempty | discriminate].
  - intros wt _. apply bind_never_enotempty;
      [apply shutil_move_never_enotempty | discriminate].
Qed.

Lemma move_to_system_trash_never_enotempty (rule : FolderRule.t)
    (absolute_path relative_path : Path) (w : world) :
  never_enotempty (_move_to_system_trash rule absolute_path relative_path w).
Proof.
  unfold _move_to_system_trash.
  apply bind_never_enotempty; [apply mkdir_never_enotempty|].
  intros w1 _. apply bind_never_enotempty; [apply mkdir_never_enotempty|].
  intros w2 _. destruct (shutil_move _ _ w2); [discriminate|].
  apply bind_never_enotempty; [apply remove_path_never_enotempty | discriminate].
Qed.

Section NeverNotEmpty.

Variable re_match : string -> string -> bool.

Lemma dispose_never_enotempty (svc : FolderCleanerService) (rule : FolderRule.t)
    (e : Path * Path * datetime) (w : world) :
  never_enotempty (dispose re_match svc rule e w).
Proof.
  unfold dispose.
  destruct (String.eqb _ "trash"); [apply move_to_trash_never_enotempty|].
  destruct (String.eqb _ "system_trash");
    [apply move_to_system_trash_never_enotempty|].
  apply bind_never_enotempty; [apply remove_path_never_enotempty | discriminate].
Qed.

Lemma dispose_all_never_enotempty (svc : FolderCleanerService) (rule : FolderRule.t)
    (due : list (Path * Path * datetime)) :
  forall w removed, never_enotempty (dispose_all re_match svc rule due w removed).
Proof.
  induction due as [|e rest IH]; intros w removed; simpl; [discriminate|].
  apply bind_never_enotempty; [apply dispose_never_enotempty|].
  intros wt _. apply IH.
Qed.

Lemma cleanup_rules_step (svc : FolderCleanerService) (as_of_dt : datetime)
    (rule : FolderRule.t) (rest : list FolderRule.t) (w : world)
    (removed : list Path) :
  cleanup_rules re_match svc as_of_dt (rule :: rest) w removed
  = if negb (exists_ w (FolderRule.path rule))
       || negb (is_dir w (FolderRule.path rule))
    then cleanup_rules re_match svc as_of_dt rest w removed
    else
      wr <- dispose_all re_match svc rule
              (filter (is_due re_match rule as_of_dt)
                 (sort_deepest_first (collected_entries rule w)))
              w removed ;;
      cleanup_rules re_match svc as_of_dt rest (fst wr) (snd wr).
Proof.
  cbn [cleanup_rules]. rewrite collect_entries_total. cbn [bind].
  rewrite cleanup_entries_dispose_all. reflexivity.
Qed.

Lemma cleanup_rules_never_enotempty (svc : FolderCleanerService)
    (as_of_dt : datetime) (todo : list FolderRule.t) :
  forall w removed,
    never_enotempty (cleanup_rules re_match svc as_of_dt todo w removed).
Proof.
  induction todo as [|rule rest IH]; intros w removed; [discriminate|].
  rewrite cleanup_rules_step.
  destruct (negb _ || negb _); [apply IH|].
  apply bind_never_enotempty; [apply dispose_all_never_enotempty|].
  intros wr _. apply IH.
Qed.

Lemma bind_pair_eta {A B : Type} (r : result (A * B)) :
  (wr <- r ;; Ok (fst wr, snd wr)) = r.
Proof. destruct r as [[a b]|e]; reflexivity. Qed.

(** C1: [cleanup] takes the rules in turn, each in the tree as the rules
    before it left it.  It passes over a rule whose root is no directory; for
    any other rule its run is the run of the disposals of the due entries
    (not exempt, and as old as their retention) of the plan, one after the
    other in the order of the plan, and the plan is what [_collect_entries]
    returns in a stable sort by non-increasing number of components of the
    relative path.  Every entry below a directory therefore comes before
    the directory in the plan, and every due entry below a due directory is
    disposed before it.  No run of [cleanup] ends in the error "directory
    not empty". *)
Theorem cleanup_deepest_first (svc : FolderCleanerService) (as_of : as_of_arg)
    (w : world) (rule : FolderRule.t) (rest : list FolderRule.t) (w1 : world)
    (removed : list Path) :
  let as_of_dt := as_of_instant as_of w in
  let plan := sort_deepest_first (collected_entries rule w1) in
  let due := filter (is_due re_match rule as_of_dt) plan in
  cleanup re_match svc as_of w
  = cleanup_rules re_match svc as_of_dt (rules svc) (world_at as_of w) []
  /\ cleanup_rules re_match svc as_of_dt (rule :: rest) w1 removed
     = (if rule_active w1 rule
        then wr <- dispose_all re_match svc rule due w1 removed ;;
             cleanup_rules re_match svc as_of_dt rest (fst wr) (snd wr)
        else cleanup_rules re_match svc as_of_dt rest w1 removed)
  /\ (rules svc = [rule] -> w1 = world_at as_of w -> rule_active w1 rule = true ->
      cleanup re_match svc as_of w = dispose_all re_match svc rule due w1 [])
  /\ _collect_entries rule w1 = Ok (collected_entries rule w1)
  /\ Permutation plan (collected_entries rule w1)
  /\ StronglySorted deeper_or_equal plan
  /\ cleanup_entries re_match svc rule as_of_dt plan w1 removed
     = dispose_all re_match svc rule due w1 removed
  /\ StronglySorted deeper_or_equal due
  /\ (forall c d, In c plan -> In d plan -> strictly_below c d -> precedes c d plan)
  /\ (forall c d,
         In c plan -> In d plan -> strictly_below c d ->
         is_due re_match rule as_of_dt c = true ->
         is_due re_match rule as_of_dt d = true ->
         precedes c d due)
  /\ never_enotempty (cleanup re_match svc as_of w).
Proof.
  intros as_of_dt plan due.
  assert (Hsorted : StronglySorted deeper_or_equal plan)
    by apply sort_deepest_first_sorted.
  assert (Hdue : StronglySorted deeper_or_equal due)
    by (apply filter_sorted; exact Hsorted).
  assert (Hrun : cleanup re_match svc as_of w
                 = cleanup_rules re_match svc as_of_dt (rules svc) (world_at as_of w) []).
  { unfold cleanup, as_of_dt, as_of_instant, world_at.
    destruct (_normalize_datetime as_of w) as [dt w0]. reflexivity. }
  assert (Hstep : cleanup_rules re_match svc as_of_dt (rule :: rest) w1 removed
                  = (if rule_active w1 rule
                     then wr <- dispose_all re_match svc rule due w1 removed ;;
                          cleanup_rules re_match svc as_of_dt rest (fst wr) (snd wr)
                     else cleanup_rules re_match svc as_of_dt rest w1 removed)).
  { cbn [cleanup_rules].
    replace (negb (exists_ w1 (FolderRule.path rule))
             || negb (is_dir w1 (FolderRule.path rule)))
      with (negb (rule_active w1 rule))
      by (unfold rule_active; rewrite negb_andb; reflexivity).
    destruct (rule_active w1 rule); cbn [negb]; [|reflexivity].
    rewrite collect_entries_total. cbn [bind].
    rewrite cleanup_entries_dispose_all. reflexivity. }
  split; [exact Hrun|]. split; [exact Hstep|]. split.
  { intros Hone Hw1 Hact. rewrite Hrun, Hone. subst w1.
    assert (E : cleanup_rules re_match svc as_of_dt [rule] (world_at as_of w) []
                = (wr <- dispose_all re_match svc rule due (world_at as_of w) [] ;;
                   Ok (fst wr, snd wr))).
    { cbn [cleanup_rules].
      replace (negb (exists_ (world_at as_of w) (FolderRule.path rule))
               || negb (is_dir (world_at as_of w) (FolderRule.path rule)))
        with (negb (rule_active (world_at as_of w) rule))
        by (unfold rule_active; rewrite negb_andb; reflexivity).
      rewrite Hact. cbn [negb]. rewrite collect_entries_total. cbn [bind].
      rewrite cleanup_entries_dispose_all. reflexivity. }
    rewrite E. apply bind_pair_eta. }
  repeat split.
  - apply collect_entries_total.
  - apply sort_deepest_first_perm.
  - exact Hsorted.
  - apply cleanup_entries_dispose_all.
  - exact Hdue.
  - intros c d Hc Hd Hb. apply sorted_precedes; auto using strictly_below_deeper.
  - intros c d Hc Hd Hb Hcdue Hddue.
    apply sorted_precedes; auto using strictly_below_deeper;
      apply filter_In; auto.
  - unfold cleanup.
    destruct (_normalize_datetime as_of w) as [dt w0].
    apply cleanup_rules_never_enotempty.
Qed.

End NeverNotEmpty.

(* ------------------------------------------------------------------ *)
(** ** The managed trash *)

(** C8: the target of a managed-trash disposal is
    [trash_dir / rule.path.name / relative_path], with the suffix
    [__YYYYMMDDHHMMSS] when that exists.  The suffixed target is not checked
    again: with [data/x.txt] already in the trash, the two files [x.txt] of
    two folders named [data], disposed within one second, get the same
    target, and the second move replaces the first file. *)
Theorem trash_collision_same_second :
  let target := mkPath "/" ["trash"; "data"; "x.txt__20261103120000"] in
  let w1 := collision_after_first in
  let w2 := collision_after_second in
  _move_to_trash collision_service collision_rule_a
    (mkPath "/" ["a"; "data"; "x.txt"]) (mkPath "" ["x.txt"]) collision_world
  = Ok (w1, target)
  /\ path_lookup w1 target = Some (File (month_ago + 1))
  /\ _move_to_trash collision_service collision_rule_b
       (mkPath "/" ["b"; "data"; "x.txt"]) (mkPath "" ["x.txt"]) w1
     = Ok (w2, target)
  /\ path_lookup w2 target = Some (File (month_ago + 2))
  /\ path_lookup w2 (mkPath "/" ["trash"; "data"])
     = Some (Dir (noon + 7)
               [("x.txt", File (month_ago + 3));
                ("x.txt__20261103120000", File (month_ago + 2))])
  /\ cleanup re_match_literal collision_service (AsOfDatetime noon) collision_world
     = Ok (w2, [target; target]).
Proof.
  repeat split; vm_compute; reflexivity.
Qed.

(* ------------------------------------------------------------------ *)
(** ** Absolute exemptions *)

Lemma exempt_by_relative (relative_path : Path) (ex : string) :
  is_absolute relative_path = false ->
  exempt_by relative_path ex ->
  relative_exemption ex = true.
Proof.
  unfold exempt_by, relative_exemption. intros Hrel [[Habs Heq] | [[H _] | [H _]]].
  - subst. congruence.
  - rewrite H. reflexivity.
  - rewrite H. reflexivity.
Qed.

Lemma is_exempt_agree (r r' : FolderRule.t) (relative_path : Path) :
  rules_agree_up_to_absolute r r' ->
  is_absolute relative_path = false ->
  _is_exempt r relative_path = _is_exempt r' relative_path.
Proof.
  intros (_ & _ & _ & _ & _ & Hex) Hrel.
  apply eq_true_iff_eq. rewrite !is_exempt_iff_exempt_by.
  split; intros (ex & Hin & Hby); exists ex; (split; [|exact Hby]);
    apply (Hex ex (exempt_by_relative _ _ Hrel Hby)); exact Hin.
Qed.

Lemma rule_entries_relative (rule : FolderRule.t) (w : world) :
  Forall (fun ar => is_absolute (snd ar) = false) (rule_entries rule w).
Proof.
  apply Forall_forall. intros [absolute_path relative_path] H.
  apply rule_entry_relative in H. destruct H as (H & _). simpl.
  unfold is_absolute. rewrite H. reflexivity.
Qed.

Lemma rule_entries_agree (r r' : FolderRule.t) (w : world) :
  FolderRule.path r = FolderRule.path r' -> rule_entries r w = rule_entries r' w.
Proof.
  intros H. unfold rule_entries, _iter_rule_entries. rewrite H. reflexivity.
Qed.

Section AbsoluteExemptions.

Variable re_match : string -> string -> bool.

Lemma policy_loop_agree (r r' : FolderRule.t) (relative_path : Path)
    (patterns : list PatternRule.t) :
  FolderRule.retention r = FolderRule.retention r' ->
  FolderRule.action r = FolderRule.action r' ->
  policy_loop re_match r relative_path patterns
  = policy_loop re_match r' relative_path patterns.
Proof.
  intros Hret Hact. induction patterns as [|p ps IH]; simpl;
    [rewrite Hret, Hact; reflexivity|].
  destruct (re_match _ _); [reflexivity | exact IH].
Qed.

Lemma notify_loop_agree (r r' : FolderRule.t) (relative_path : Path)
    (patterns : list PatternRule.t) :
  FolderRule.notify_before r = FolderRule.notify_before r' ->
  notify_loop re_match r relative_path patterns
  = notify_loop re_match r' relative_path patterns.
Proof.
  intros Hnb. induction patterns as [|p ps IH]; simpl; [exact Hnb|].
  destruct (re_match _ _); [reflexivity | exact IH].
Qed.

Lemma cleanup_entries_agree (svc svc' : FolderCleanerService) (r r' : FolderRule.t)
    (as_of_dt : datetime) (entries : list (Path * Path * datetime)) :
  trash_dir svc = trash_dir svc' ->
  rules_agree_up_to_absolute r r' ->
  Forall (fun e => is_absolute (snd (fst e)) = false) entries ->
  forall w removed,
    cleanup_entries re_match svc r as_of_dt entries w removed
    = cleanup_entries re_match svc' r' as_of_dt entries w removed.
Proof.
  intros Htrash Hagree Hrel.
  induction Hrel as [|[[absolute_path relative_path] modified] rest Hhd _ IH];
    intros w removed; [reflexivity|].
  cbn [cleanup_entries]. simpl in Hhd.
  rewrite (is_exempt_agree r r' relative_path Hagree Hhd).
  destruct Hagree as (Hpath & Hret & Hnb & Hact & Hpat & _).
  assert (Hpol : _effective_policy re_match r relative_path
                 = _effective_policy re_match r' relative_path).
  { unfold _effective_policy. rewrite Hpat. apply policy_loop_agree; assumption. }
  assert (Htr : forall w0, _move_to_trash svc r absolute_path relative_path w0
                           = _move_to_trash svc' r' absolute_path relative_path w0).
  { intros w0. unfold _move_to_trash. rewrite Htrash, Hpath. reflexivity. }
  assert (Hst : forall w0, _move_to_system_trash r absolute_path relative_path w0
                           = _move_to_system_trash r' absolute_path relative_path w0).
  { intros w0. unfold _move_to_system_trash. rewrite Hpath. reflexivity. }
  rewrite Hpol, Htr, Hst.
  destruct (_is_exempt r' relative_path); [apply IH|].
  destruct (_effective_policy re_match r' relative_path) as [retention action].
  destruct (retention <=? as_of_dt - modified); [|apply IH].
  destruct (String.eqb action "trash").
  - destruct (_move_to_trash svc' r' absolute_path relative_path w);
      simpl; [apply IH | reflexivity].
  - destruct (String.eqb action "system_trash");
      [|destruct (_remove_path absolute_path w); simpl; [apply IH | reflexivity]].
    destruct (_move_to_system_trash r' absolute_path relative_path w);
      simpl; [apply IH | reflexivity].
Qed.

Lemma collected_entries_relative (rule : FolderRule.t) (w : world) :
  Forall (fun e => is_absolute (snd (fst e)) = false)
    (sort_deepest_first (collected_entries rule w)).
Proof.
  eapply Permutation_Forall; [symmetry; apply sort_deepest_first_perm|].
  unfold collected_entries. apply Forall_map. simpl.
  apply rule_entries_relative.
Qed.

Lemma cleanup_rules_agree (svc svc' : FolderCleanerService) (as_of_dt : datetime)
    (todo todo' : list FolderRule.t) :
  trash_dir svc = trash_dir svc' ->
  Forall2 rules_agree_up_to_absolute todo todo' ->
  forall w removed,
    cleanup_rules re_match svc as_of_dt todo w removed
    = cleanup_rules re_match svc' as_of_dt todo' w removed.
Proof.
  intros Htrash Hall. induction Hall as [|r r' todo todo' Hr _ IH];
    intros w removed; [reflexivity|].
  cbn [cleanup_rules]. rewrite !collect_entries_total. cbn [bind].
  assert (Hpath : FolderRule.path r = FolderRule.path r') by apply Hr.
  assert (Hcol : collected_entries r w = collected_entries r' w).
  { unfold collected_entries. rewrite (rule_entries_agree r r' w Hpath). reflexivity. }
  rewrite Hpath, Hcol.
  rewrite (cleanup_entries_agree svc svc' r r' as_of_dt _ Htrash Hr
             (collected_entries_relative r' w)).
  destruct (negb _ || negb _); [apply IH|].
  destruct (cleanup_entries re_match svc' r' as_of_dt _ w removed); simpl;
    [apply IH | reflexivity].
Qed.

Lemma schedule_entries_agree (r r' : FolderRule.t) (w : world)
    (as_of_dt : datetime) (as_of_date end_date : date)
    (entries : list (Path * Path)) :
  rules_agree_up_to_absolute r r' ->
  Forall (fun ar => is_absolute (snd ar) = false) entries ->
  forall schedule,
    schedule_entries re_match r w as_of_dt as_of_date end_date entries schedule
    = schedule_entries re_match r' w as_of_dt as_of_date end_date entries schedule.
Proof.
  intros Hagree Hrel.
  induction Hrel as [|[absolute_path relative_path] rest Hhd _ IH];
    intros schedule; [reflexivity|].
  cbn [schedule_entries]. simpl in Hhd.
  rewrite (is_exempt_agree r r' relative_path Hagree Hhd).
  destruct Hagree as (Hpath & Hret & Hnb & Hact & Hpat & _).
  assert (Hpol : _effective_policy re_match r relative_path
                 = _effective_policy re_match r' relative_path).
  { unfold _effective_policy. rewrite Hpat. apply policy_loop_agree; assumption. }
  assert (Hnot : _effective_notify re_match r relative_path
                 = _effective_notify re_match r' relative_path).
  { unfold _effective_notify. rewrite Hpat. apply notify_loop_agree; assumption. }
  rewrite Hpol, Hnot, Hpath.
  destruct (_is_exempt r' relative_path); [apply IH|].
  destruct (_modified_datetime w absolute_path) as [modified_dt|]; simpl;
    [|reflexivity].
  destruct (datetime_add modified_dt _) as [due_dt|]; simpl; [|reflexivity].
  destruct (due_dt <? as_of_dt); [apply IH|].
  destruct (schedule_offsets _ _ _ _ _ _ _); simpl; [apply IH | reflexivity].
Qed.

Lemma schedule_rules_agree (w : world) (as_of_dt : datetime)
    (as_of_date end_date : date) (todo todo' : list FolderRule.t) :
  Forall2 rules_agree_up_to_absolute todo todo' ->
  forall schedule,
    schedule_rules re_match w as_of_dt as_of_date end_date todo schedule
    = schedule_rules re_match w as_of_dt as_of_date end_date todo' schedule.
Proof.
  intros Hall. induction Hall as [|r r' todo todo' Hr _ IH];
    intros schedule; [reflexivity|].
  cbn [schedule_rules]. rewrite !iter_rule_entries_total. cbn [bind].
  assert (Hpath : FolderRule.path r = FolderRule.path r') by apply Hr.
  rewrite (rule_entries_agree r r' w Hpath), Hpath.
  rewrite (schedule_entries_agree r r' w as_of_dt as_of_date end_date _ Hr
             (rule_entries_relative r' w)).
  destruct (negb _ || negb _); [apply IH|].
  destruct (schedule_entries re_match r' w as_of_dt as_of_date end_date _ schedule);
    simpl; [apply IH | reflexivity].
Qed.

(** C10: an absolute exemption never exempts an entry.  The relative path
    of every entry of a traversal is a relative path, which equals no
    absolute one, so the test of [_is_exempt] on an absolute exemption
    fails; and two services whose rules differ only in absolute exemptions
    get the same results from [cleanup] and from [upcoming_alerts]. *)
Theorem absolute_exemptions_inert :
  (forall rule w absolute_path relative_path,
      In (absolute_path, relative_path) (rule_entries rule w) ->
      is_absolute relative_path = false)
  /\ (forall relative_path ex,
         is_absolute relative_path = false ->
         is_absolute (Path_of_string ex) = true ->
         Path_eqb relative_path (Path_of_string ex) = false
         /\ forall rest, is_exempt_loop relative_path (ex :: rest)
                         = is_exempt_loop relative_path rest)
  /\ (forall svc svc',
         services_agree_up_to_absolute svc svc' ->
         forall as_of window_days w,
           cleanup re_match svc as_of w = cleanup re_match svc' as_of w
           /\ upcoming_alerts re_match svc as_of window_days w
              = upcoming_alerts re_match svc' as_of window_days w).
Proof.
  split; [|split].
  - intros rule w absolute_path relative_path H.
    pose proof (rule_entries_relative rule w) as Hall.
    rewrite Forall_forall in Hall. apply (Hall _ H).
  - intros relative_path ex Hrel Habs.
    assert (Hne : Path_eqb relative_path (Path_of_string ex) = false).
    { destruct (Path_eqb relative_path (Path_of_string ex)) eqn:E; [|reflexivity].
      apply Path_eqb_eq in E. congruence. }
    split; [exact Hne|]. intros rest. simpl. rewrite Habs, Hne. reflexivity.
  - intros svc svc' [Htrash Hrules] as_of window_days w. split.
    + unfold cleanup. destruct (_normalize_datetime as_of w) as [dt w0].
      apply cleanup_rules_agree; assumption.
    + unfold upcoming_alerts. destruct (_normalize_datetime as_of w) as [dt w0].
      destruct (date_add_days (date_of dt) window_days) as [end_date|]; simpl;
        [|reflexivity].
      rewrite (schedule_rules_agree w0 dt _ _ _ _ Hrules). reflexivity.
Qed.

End AbsoluteExemptions.

(* ------------------------------------------------------------------ *)
(** ** The schedule of alerts *)

Lemma folder_items_append (f f' : Path) (item : Path * date)
    (folders : folder_schedule) :
  folder_items f (folder_append f' item folders)
  = if Path_eqb f' f then folder_items f folders ++ [item]
    else folder_items f folders.
Proof.
  unfold folder_items.
  induction folders as [|[f0 items] rest IH]; simpl.
  - destruct (Path_eqb f' f); reflexivity.
  - destruct (Path_eqb f0 f') eqn:E0; simpl.
    + apply Path_eqb_eq in E0. subst f0.
      destruct (Path_eqb f' f); reflexivity.
    + destruct (Path_eqb f0 f) eqn:E1; [|exact IH].
      apply Path_eqb_eq in E1. subst f0.
      destruct (Path_eqb f' f) eqn:E2; [|reflexivity].
      apply Path_eqb_eq in E2. subst f'. rewrite Path_eqb_refl in E0. discriminate.
Qed.

Lemma schedule_items_append (d d' : date) (f f' : Path) (item : Path * date)
    (schedule : schedule_t) :
  schedule_items d f (schedule_append d' f' item schedule)
  = if (d' =? d) && Path_eqb f' f then schedule_items d f schedule ++ [item]
    else schedule_items d f schedule.
Proof.
  unfold schedule_items.
  induction schedule as [|[d0 folders] rest IH]; simpl.
  - destruct (d' =? d); simpl; [|reflexivity].
    unfold folder_items. simpl. destruct (Path_eqb f' f); reflexivity.
  - destruct (d0 =? d') eqn:E0; simpl.
    + apply Z.eqb_eq in E0. subst d0.
      destruct (d' =? d); simpl; [apply folder_items_append | reflexivity].
    + destruct (d0 =? d) eqn:E1; [|exact IH].
      apply Z.eqb_eq in E1. subst d0. rewrite Z.eqb_sym, E0. reflexivity.
Qed.

Lemma folder_append_keys (f : Path) (item : Path * date) (folders : folder_schedule) :
  forall k, In k (map fst (folder_append f item folders))
            <-> k = f \/ In k (map fst folders).
Proof.
  induction folders as [|[f0 items] rest IH]; intros k; simpl.
  - intuition.
  - destruct (Path_eqb f0 f) eqn:E; simpl.
    + apply Path_eqb_eq in E. subst. intuition.
    + rewrite IH. intuition.
Qed.

Lemma folder_append_wf (f : Path) (item : Path * date) (folders : folder_schedule) :
  folders_wf folders -> folders_wf (folder_append f item folders).
Proof.
  unfold folders_wf. induction folders as [|[f0 items] rest IH]; simpl; intros [Hnd Hne].
  - split; repeat constructor; [intros [] | discriminate].
  - inversion Hnd as [|? ? Hnotin Hnd']; subst. inversion Hne as [|? ? Hhd Hne']; subst.
    destruct (Path_eqb f0 f) eqn:E; simpl.
    + split; [constructor; assumption|]. constructor; [|assumption].
      simpl. destruct items; discriminate.
    + destruct (IH (conj Hnd' Hne')) as [IH1 IH2].
      split; [|constructor; assumption]. constructor; [|exact IH1].
      rewrite folder_append_keys. intros [-> | H]; [|contradiction].
      rewrite Path_eqb_refl in E. discriminate.
Qed.

Lemma schedule_append_keys (d : date) (f : Path) (item : Path * date)
    (schedule : schedule_t) :
  forall k, In k (map fst (schedule_append d f item schedule))
            <-> k = d \/ In k (map fst schedule).
Proof.
  induction schedule as [|[d0 folders] rest IH]; intros k; simpl.
  - intuition.
  - destruct (d0 =? d) eqn:E; simpl.
    + apply Z.eqb_eq in E. subst. intuition.
    + rewrite IH. intuition.
Qed.

Lemma schedule_append_wf (d : date) (f : Path) (item : Path * date)
    (schedule : schedule_t) :
  schedule_wf schedule -> schedule_wf (schedule_append d f item schedule).
Proof.
  unfold schedule_wf.
  induction schedule as [|[d0 folders] rest IH]; simpl; intros [Hnd Hall].
  - split; [repeat constructor; intros []|]. constructor; [|constructor].
    simpl. split; [discriminate|].
    split; repeat constructor; [intros [] | discriminate].
  - inversion Hnd as [|? ? Hnotin Hnd']; subst.
    inversion Hall as [|? ? Hhd Hall']; subst.
    destruct (d0 =? d) eqn:E; simpl.
    + split; [constructor; assumption|]. constructor; [|assumption].
      simpl. split; [|apply folder_append_wf, Hhd].
      destruct folders as [|[f0 items] rest']; simpl; [discriminate|].
      destruct (Path_eqb f0 f); discriminate.
    + destruct (IH (conj Hnd' Hall')) as [IH1 IH2].
      split; [|constructor; assumption]. constructor; [|exact IH1].
      rewrite schedule_append_keys. intros [-> | H]; [|contradiction].
      rewrite Z.eqb_refl in E. discriminate.
Qed.

Lemma find_unique_key {K V : Type} (eqb : K -> K -> bool)
    (eqb_eq : forall a b, eqb a b = true <-> a = b)
    (l : list (K * V)) (k : K) (v : V) :
  NoDup (map fst l) -> In (k, v) l ->
  find (fun kv => eqb (fst kv) k) l = Some (k, v).
Proof.
  induction l as [|[k0 v0] rest IH]; simpl; intros Hnd Hin; [destruct Hin|].
  inversion Hnd as [|? ? Hnotin Hnd']; subst.
  destruct Hin as [Heq | Hin].
  - inversion Heq; subst. rewrite (proj2 (eqb_eq k k) eq_refl). reflexivity.
  - destruct (eqb k0 k) eqn:E.
    + apply eqb_eq in E. subst k0. exfalso. apply Hnotin.
      apply in_map_iff. exists (k, v). auto.
    + apply IH; assumption.
Qed.

Lemma schedule_items_in (schedule : schedule_t) (d : date)
    (folders : folder_schedule) (f : Path) (items : list (Path * date)) :
  schedule_wf schedule ->
  In (d, folders) schedule -> In (f, items) folders ->
  schedule_items d f schedule = items /\ items <> [].
Proof.
  intros [Hnd Hall] Hd Hf.
  rewrite Forall_forall in Hall. destruct (Hall _ Hd) as (_ & Hndf & Hne).
  unfold schedule_items, folder_items.
  rewrite (find_unique_key Z.eqb Z.eqb_eq schedule d folders Hnd Hd). simpl.
  simpl in Hndf.
  rewrite (find_unique_key Path_eqb Path_eqb_eq folders f items Hndf Hf). simpl.
  split; [reflexivity|]. rewrite Forall_forall in Hne. apply (Hne _ Hf).
Qed.

Lemma schedule_items_found (schedule : schedule_t) (d : date) (f : Path) :
  schedule_items d f schedule <> [] ->
  exists folders,
    In (d, folders) schedule /\ In (f, schedule_items d f schedule) folders.
Proof.
  unfold schedule_items, folder_items. intros H.
  destruct (find (fun df => fst df =? d) schedule) as [[d0 folders]|] eqn:Hd;
    [|contradiction].
  apply find_some in Hd. destruct Hd as [Hin Hd]. simpl in Hd.
  apply Z.eqb_eq in Hd. subst d0. simpl in *.
  destruct (find (fun fe => Path_eqb (fst fe) f) folders) as [[f0 items]|] eqn:Hf;
    [|contradiction].
  apply find_some in Hf. destruct Hf as [Hinf Hf]. simpl in Hf.
  apply Path_eqb_eq in Hf. subst f0. simpl. exists folders. auto.
Qed.

Section ScheduleFacts.

Variable re_match : string -> string -> bool.

Lemma alert_hits_outside (d as_of_date end_date : date) (due_dt : datetime)
    (notify_offset : timedelta) :
  (date_of (due_dt - notify_offset) <? as_of_date)
  || (end_date <? date_of (due_dt - notify_offset)) = true ->
  alert_hits d as_of_date end_date due_dt notify_offset = false.
Proof.
  unfold alert_hits. intros H. apply orb_true_iff in H.
  destruct (date_of (due_dt - notify_offset) =? d) eqn:E; [|reflexivity].
  apply Z.eqb_eq in E. rewrite E in H. simpl.
  destruct H as [H | H]; apply Z.ltb_lt in H.
  - replace (as_of_date <=? d) with false; [reflexivity|].
    symmetry. apply Z.leb_gt. lia.
  - replace (d <=? end_date) with false; [apply andb_false_r|].
    symmetry. apply Z.leb_gt. lia.
Qed.

Lemma alert_hits_inside (d as_of_date end_date : date) (due_dt : datetime)
    (notify_offset : timedelta) :
  (date_of (due_dt - notify_offset) <? as_of_date)
  || (end_date <? date_of (due_dt - notify_offset)) = false ->
  alert_hits d as_of_date end_date due_dt notify_offset
  = (date_of (due_dt - notify_offset) =? d).
Proof.
  unfold alert_hits. intros H. apply orb_false_iff in H. destruct H as [H1 H2].
  apply Z.ltb_ge in H1. apply Z.ltb_ge in H2.
  destruct (date_of (due_dt - notify_offset) =? d) eqn:E; [|reflexivity].
  apply Z.eqb_eq in E. rewrite <- E. simpl.
  rewrite (proj2 (Z.leb_le _ _) H1), (proj2 (Z.leb_le _ _) H2). reflexivity.
Qed.

Lemma datetime_add_Ok (dt : datetime) (td : timedelta) (r : datetime) :
  datetime_add dt td = Ok r ->
  r = dt + td /\ date_in_range (date_of (dt + td)) = true.
Proof.
  unfold datetime_add. destruct (date_in_range (date_of (dt + td))); [|discriminate].
  intros H. inversion H. auto.
Qed.

Lemma datetime_sub_Ok (dt : datetime) (td : timedelta) (r : datetime) :
  datetime_sub dt td = Ok r ->
  r = dt - td /\ date_in_range (date_of (dt - td)) = true.
Proof.
  unfold datetime_sub. destruct (date_in_range (date_of (dt - td))); [|discriminate].
  intros H. inversion H. auto.
Qed.

Lemma date_add_days_Ok (d : date) (n : Z) (r : date) :
  date_add_days d n = Ok r ->
  r = d + n /\ date_in_range (d + n) = true /\ Z.abs n <= timedelta_max_days.
Proof.
  unfold date_add_days, mk_timedelta.
  rewrite Z.div_mul by discriminate.
  destruct (Z.abs n <=? timedelta_max_days) eqn:E; [|discriminate].
  cbn [bind]. rewrite Z.div_mul by discriminate.
  destruct (date_in_range (d + n)); [|discriminate].
  intros H. inversion H. apply Z.leb_le in E. auto.
Qed.

Lemma modified_datetime_Ok (w : world) (p : Path) (m : datetime) :
  _modified_datetime w p = Ok m -> modified_at w p = m.
Proof.
  unfold _modified_datetime, modified_at. destruct (path_lookup w p); [|discriminate].
  intros H. inversion H. reflexivity.
Qed.

Lemma schedule_offsets_items (folder relative_path : Path) (due_dt : datetime)
    (as_of_date end_date : date) (notify_offsets : list timedelta) :
  forall schedule schedule',
    schedule_offsets folder relative_path due_dt as_of_date end_date
      notify_offsets schedule = Ok schedule' ->
    (schedule_wf schedule -> schedule_wf schedule')
    /\ forall d f,
        schedule_items d f schedule'
        = schedule_items d f schedule
          ++ (if Path_eqb folder f
              then map (fun _ => (relative_path, date_of due_dt))
                       (filter (alert_hits d as_of_date end_date due_dt) notify_offsets)
              else []).
Proof.
  induction notify_offsets as [|L rest IH]; intros schedule schedule' H;
    cbn [schedule_offsets] in H.
  - inversion H; subst schedule'. split; [auto|]. intros d f. simpl.
    destruct (Path_eqb folder f); rewrite app_nil_r; reflexivity.
  - apply bind_Ok in H. destruct H as (alert_dt & Hsub & H).
    apply datetime_sub_Ok in Hsub. destruct Hsub as [-> _]. cbn zeta in H.
    destruct ((date_of (due_dt - L) <? as_of_date) || (end_date <? date_of (due_dt - L)))
      eqn:Hout.
    + destruct (IH _ _ H) as [IHwf IHitems]. split; [exact IHwf|].
      intros d f. rewrite IHitems. cbn [filter].
      rewrite (alert_hits_outside d _ _ _ _ Hout). reflexivity.
    + destruct (IH _ _ H) as [IHwf IHitems].
      split; [intros Hwf; apply IHwf, schedule_append_wf, Hwf|].
      intros d f. rewrite IHitems, schedule_items_append. cbn [filter].
      rewrite (alert_hits_inside d _ _ _ _ Hout).
      destruct (date_of (due_dt - L) =? d); simpl;
        destruct (Path_eqb folder f); simpl; try reflexivity.
      rewrite <- app_assoc. reflexivity.
Qed.

Lemma schedule_entries_items (rule : FolderRule.t) (w : world)
    (as_of_dt : datetime) (as_of_date end_date : date)
    (entries : list (Path * Path)) :
  forall schedule schedule',
    schedule_entries re_match rule w as_of_dt as_of_date end_date entries schedule
    = Ok schedule' ->
    (schedule_wf schedule -> schedule_wf schedule')
    /\ forall d f,
        schedule_items d f schedule'
        = schedule_items d f schedule
          ++ (if Path_eqb (FolderRule.path rule) f
              then flat_map (entry_group re_match rule w as_of_dt as_of_date end_date d)
                            entries
              else []).
Proof.
  induction entries as [|[absolute_path relative_path] rest IH];
    intros schedule schedule' H.
  - inversion H; subst schedule'. split; [auto|].
    intros d f. simpl. destruct (Path_eqb _ f); rewrite app_nil_r; reflexivity.
  - cbn [schedule_entries] in H. cbn [flat_map]. unfold entry_group at 1.
    cbn [fst snd].
    destruct (_is_exempt rule relative_path); [exact (IH _ _ H)|].
    apply bind_Ok in H. destruct H as (modified_dt & Hmod & H).
    apply modified_datetime_Ok in Hmod. rewrite Hmod.
    apply bind_Ok in H. destruct H as (due_dt & Hadd & H).
    apply datetime_add_Ok in Hadd. destruct Hadd as [Hdue _]. rewrite <- Hdue.
    destruct (due_dt <? as_of_dt); [exact (IH _ _ H)|].
    apply bind_Ok in H. destruct H as (s1 & Hoff & H).
    destruct (schedule_offsets_items _ _ _ _ _ _ _ _ Hoff) as [Hwf Hitems].
    destruct (IH _ _ H) as [Hwf' Hitems'].
    split; [auto|].
    intros d f. rewrite Hitems', Hitems.
    destruct (Path_eqb (FolderRule.path rule) f); rewrite <- app_assoc; reflexivity.
Qed.

Lemma schedule_rules_items (w : world) (as_of_dt : datetime)
    (as_of_date end_date : date) (todo : list FolderRule.t) :
  forall schedule schedule',
    schedule_rules re_match w as_of_dt as_of_date end_date todo schedule = Ok schedule' ->
    (schedule_wf schedule -> schedule_wf schedule')
    /\ forall d f,
        schedule_items d f schedule'
        = schedule_items d f schedule
          ++ flat_map (rule_group re_match w as_of_dt as_of_date end_date d f) todo.
Proof.
  induction todo as [|rule rest IH]; intros schedule schedule' H.
  - inversion H; subst schedule'. split; [auto|].
    intros d f. simpl. rewrite app_nil_r. reflexivity.
  - cbn [schedule_rules] in H. cbn [flat_map]. unfold rule_group at 1.
    destruct (negb (exists_ w (FolderRule.path rule))
              || negb (is_dir w (FolderRule.path rule))); [exact (IH _ _ H)|].
    rewrite iter_rule_entries_total in H. cbn [bind] in H.
    apply bind_Ok in H. destruct H as (s1 & Hent & H).
    destruct (schedule_entries_items _ _ _ _ _ _ _ _ Hent) as [Hwf1 Hitems1].
    destruct (IH _ _ H) as [Hwf' Hitems'].
    split; [auto|].
    intros d f. rewrite Hitems', Hitems1, <- app_assoc. reflexivity.
Qed.

End ScheduleFacts.

(* ------------------------------------------------------------------ *)
(** ** Sorting the files of an alert, and the least number of days *)






Lemma insert_by_posix_perm (e : Path * date) (l : list (Path * date)) :
  Permutation (insert_by_posix e l) (e :: l).
Proof.
  induction l as [|x l IH]; simpl; [reflexivity|].
  destruct (String.leb _ _); [reflexivity|].
  rewrite IH. apply perm_swap.
Qed.

Lemma sorted_by_posix_perm (l : list (Path * date)) :
  Permutation (sorted_by_posix l) l.
Proof.
  induction l as [|e l IH]; simpl; [reflexivity|].
  rewrite insert_by_posix_perm. constructor. exact IH.
Qed.




Lemma fold_min_spec (l : list Z) :
  forall x, (fold_left Z.min l x = x \/ In (fold_left Z.min l x) l)
            /\ fold_left Z.min l x <= x
            /\ Forall (fun y => fold_left Z.min l x <= y) l.
Proof.
  induction l as [|y l IH]; intros x; simpl.
  - repeat split; [left; reflexivity | lia | constructor].
  - destruct (IH (Z.min x y)) as (Hin & Hle & Hall). repeat split.
    + destruct Hin as [Hin | Hin]; [|right; right; exact Hin].
      rewrite Hin. destruct (Z.min_spec x y) as [[_ ->] | [_ ->]]; auto.
    + lia.
    + constructor; [lia | exact Hall].
Qed.

Lemma least_spec (l : list Z) :
  l <> [] -> In (least l) l /\ Forall (fun y => least l <= y) l.
Proof.
  destruct l as [|x l]; [contradiction|]. intros _. simpl.
  destruct (fold_min_spec l x) as (Hin & Hle & Hall). split.
  - destruct Hin as [-> | Hin]; auto.
  - constructor; assumption.
Qed.

Lemma least_perm (l l' : list Z) :
  Permutation l l' -> l <> [] ->
  In (least l) l' /\ Forall (fun y => least l <= y) l'.
Proof.
  intros Hp Hne. destruct (least_spec l Hne) as [Hin Hall]. split.
  - eapply Permutation_in; eassumption.
  - eapply Permutation_Forall; eassumption.
Qed.

Lemma min_of_least (l : list Z) : l <> [] -> min_of l = Ok (least l).
Proof. destruct l; [contradiction | reflexivity]. Qed.

Lemma build_alert_ok (as_of_dt : datetime) (d : date)
    (fe : Path * list (Path * date)) :
  snd fe <> [] -> build_alert as_of_dt d fe = Ok (alert_for as_of_dt d fe).
Proof.
  destruct fe as [f items]. simpl. intros Hne. unfold build_alert, alert_for.
  rewrite min_of_least; [reflexivity|].
  intros H. apply map_eq_nil in H.
  apply Hne. apply Permutation_nil. rewrite <- H. apply sorted_by_posix_perm.
Qed.

(** The second loop of [upcoming_alerts] returns, for every date of the
    schedule and in its order, the alerts of the folders of that date. *)
Lemma group_alerts_ok (as_of_dt : datetime) (schedule : schedule_t) :
  schedule_wf schedule ->
  group_alerts as_of_dt schedule
  = Ok (map (fun df => (fst df, map (alert_for as_of_dt (fst df)) (snd df))) schedule).
Proof.
  intros [_ Hall]. unfold group_alerts. apply mapM_total.
  intros [d folders] Hin. simpl.
  rewrite Forall_forall in Hall. destruct (Hall _ Hin) as (_ & _ & Hne). simpl in Hne.
  rewrite (mapM_total _ (alert_for as_of_dt d)); [reflexivity|].
  intros fe Hfe. apply build_alert_ok. rewrite Forall_forall in Hne. auto.
Qed.

(* ------------------------------------------------------------------ *)
(** ** The alerts that [upcoming_alerts] returns *)

Lemma date_of_mono (a b : datetime) : a <= b -> date_of a <= date_of b.
Proof.
  unfold date_of. intros H. apply Z.div_le_mono; [reflexivity | exact H].
Qed.

Lemma days_left_nonneg (as_of_dt : datetime) (item : Path * date) :
  date_of as_of_dt <= snd item -> 0 <= days_left as_of_dt item.
Proof.
  unfold days_left, ceil_days, combine_midnight, date_of.
  intros H. set (D := usec_per_day) in *.
  assert (HD : 0 < D) by reflexivity.
  pose proof (Z.mod_pos_bound as_of_dt D HD) as Hmod.
  pose proof (Z.div_mod as_of_dt D ltac:(lia)) as Hdm.
  assert (Hlt : - (snd item * D - as_of_dt) < D * 1) by nia.
  apply Z.div_lt_upper_bound in Hlt; lia.
Qed.

Section AlertFacts.

Variable re_match : string -> string -> bool.

Lemma negb_orb_active (w : world) (rule : FolderRule.t) :
  negb (exists_ w (FolderRule.path rule)) || negb (is_dir w (FolderRule.path rule))
  = negb (rule_active w rule).
Proof. unfold rule_active. rewrite negb_andb. reflexivity. Qed.

(** The members of a group, spelled out. *)
Lemma alert_group_member (svc : FolderCleanerService) (w : world)
    (as_of_dt : datetime) (window_days : Z) (d : date) (f : Path)
    (item : Path * date) :
  In item (alert_group re_match svc w as_of_dt window_days d f)
  <-> exists rule absolute_path relative_path L,
      In rule (rules svc) /\ rule_active w rule = true
      /\ FolderRule.path rule = f
      /\ In (absolute_path, relative_path) (rule_entries rule w)
      /\ _is_exempt rule relative_path = false
      /\ as_of_dt <= modified_at w absolute_path
                     + fst (_effective_policy re_match rule relative_path)
      /\ In L (_effective_notify re_match rule relative_path)
      /\ date_of (modified_at w absolute_path
                  + fst (_effective_policy re_match rule relative_path) - L) = d
      /\ date_of as_of_dt <= d <= date_of as_of_dt + window_days
      /\ item = (relative_path,
                 date_of (modified_at w absolute_path
                          + fst (_effective_policy re_match rule relative_path))).
Proof.
  unfold alert_group. rewrite in_flat_map. split.
  - intros (rule & Hrule & H). unfold rule_group in H.
    rewrite negb_orb_active in H.
    destruct (rule_active w rule) eqn:Hact; simpl in H; [|destruct H].
    destruct (Path_eqb (FolderRule.path rule) f) eqn:Hf; [|destruct H].
    apply Path_eqb_eq in Hf. apply in_flat_map in H.
    destruct H as ([absolute_path relative_path] & Hentry & H).
    unfold entry_group in H. cbn [fst snd] in H.
    destruct (_is_exempt rule relative_path) eqn:Hex; [destruct H|].
    destruct (_ <? as_of_dt) eqn:Hdue; [destruct H|].
    apply Z.ltb_ge in Hdue. apply in_map_iff in H. destruct H as (L & <- & HL).
    apply filter_In in HL. destruct HL as [HL Hhit]. unfold alert_hits in Hhit.
    apply andb_true_iff in Hhit. destruct Hhit as [Hhit H3].
    apply andb_true_iff in Hhit. destruct Hhit as [H1 H2].
    apply Z.eqb_eq in H1. apply Z.leb_le in H2, H3.
    exists rule, absolute_path, relative_path, L. repeat split; auto.
  - intros (rule & absolute_path & relative_path & L & Hrule & Hact & Hf & Hentry
            & Hex & Hdue & HL & Hd & [H2 H3] & ->).
    exists rule. split; [exact Hrule|]. unfold rule_group.
    rewrite negb_orb_active, Hact. simpl.
    rewrite (proj2 (Path_eqb_eq _ _) Hf). apply in_flat_map.
    exists (absolute_path, relative_path). split; [exact Hentry|].
    unfold entry_group. cbn [fst snd]. rewrite Hex.
    rewrite (proj2 (Z.ltb_ge _ _) Hdue). apply in_map_iff.
    exists L. split; [reflexivity|]. apply filter_In. split; [exact HL|].
    unfold alert_hits. rewrite (proj2 (Z.eqb_eq _ _) Hd).
    rewrite (proj2 (Z.leb_le _ _) H2), (proj2 (Z.leb_le _ _) H3). reflexivity.
Qed.

(** The schedule behind a mapping that [upcoming_alerts] returns holds
    each key once, and under an alert date and a folder exactly the group of
    that date and folder. *)
Lemma upcoming_alerts_schedule (svc : FolderCleanerService) (as_of : as_of_arg)
    (window_days : Z) (w : world) (m : list (date * list Alert)) :
  upcoming_alerts re_match svc as_of window_days w = Ok m ->
  exists schedule,
    schedule_wf schedule
    /\ (forall d f,
           schedule_items d f schedule
           = alert_group re_match svc (world_at as_of w) (as_of_instant as_of w)
               window_days d f)
    /\ m = alerts_of_schedule (as_of_instant as_of w) schedule.
Proof.
  unfold upcoming_alerts, world_at, as_of_instant.
  destruct (_normalize_datetime as_of w) as [as_of_dt w0]. cbn [fst snd].
  intros H. apply bind_Ok in H. destruct H as (end_date & Hend & H).
  apply date_add_days_Ok in Hend. destruct Hend as (-> & _ & _).
  apply bind_Ok in H. destruct H as (schedule & Hs & H).
  destruct (schedule_rules_items re_match _ _ _ _ _ _ _ Hs) as [Hwf Hitems].
  assert (Hwf0 : schedule_wf []) by (split; constructor).
  exists schedule. split; [auto|]. split.
  - intros d f. rewrite Hitems. reflexivity.
  - rewrite group_alerts_ok in H by auto. inversion H. reflexivity.
Qed.

Lemma alerts_of_schedule_in (as_of_dt : datetime) (schedule : schedule_t)
    (d : date) (alerts : list Alert) (a : Alert) :
  In (d, alerts) (alerts_of_schedule as_of_dt schedule) -> In a alerts ->
  exists folders items,
    In (d, folders) schedule /\ In (folder a, items) folders
    /\ alerts = map (alert_for as_of_dt d) folders
    /\ a = alert_for as_of_dt d (folder a, items).
Proof.
  unfold alerts_of_schedule. intros H Ha. apply in_map_iff in H.
  destruct H as ([d0 folders] & Heq & Hin). simpl in Heq. inversion Heq; subst.
  apply in_map_iff in Ha. destruct Ha as ([f items] & <- & Hfe).
  exists folders, items. simpl. auto.
Qed.


(** C9: the number of days of every alert of a mapping that
    [upcoming_alerts] returns is not negative: an entry contributes only
    when its due instant is not before [as_of], so midnight of its due date
    is less than a day before [as_of] and the ceiling of the difference in
    days is at least zero. *)
Theorem days_until_deletion_nonneg (svc : FolderCleanerService) (as_of : as_of_arg)
    (window_days : Z) (w : world) (m : list (date * list Alert)) :
  upcoming_alerts re_match svc as_of window_days w = Ok m ->
  forall d alerts a,
    In (d, alerts) m -> In a alerts -> 0 <= days_until_deletion a.
Proof.
  intros Hm.
  destruct (upcoming_alerts_schedule svc as_of window_days w m Hm)
    as (schedule & Hwf & Hitems & ->).
  intros d alerts a Hin Ha.
  destruct (alerts_of_schedule_in _ _ _ _ _ Hin Ha)
    as (folders & items & Hd & Hfe & _ & ->).
  destruct (schedule_items_in schedule d folders _ items Hwf Hd Hfe) as [Hsi Hne].
  cbn [alert_for days_until_deletion fst snd].
  assert (Hperm : Permutation (sorted_by_posix items) items)
    by apply sorted_by_posix_perm.
  assert (Hne' : map (days_left (as_of_instant as_of w)) (sorted_by_posix items) <> []).
  { intros H. apply map_eq_nil in H. rewrite H in Hperm.
    apply Permutation_nil in Hperm. contradiction. }
  destruct (least_perm _ _
              (Permutation_map (days_left (as_of_instant as_of w)) Hperm) Hne')
    as [Hleast _].
  apply in_map_iff in Hleast. destruct Hleast as (item & <- & Hitem).
  apply days_left_nonneg.
  rewrite <- Hsi, Hitems in Hitem. apply alert_group_member in Hitem.
  destruct Hitem as (rule & ap & rp & L & _ & _ & _ & _ & _ & Hdue & _ & _ & _ & ->).
  simpl. apply date_of_mono. exact Hdue.
Qed.

End AlertFacts.

(* ------------------------------------------------------------------ *)
(** ** One alert for each lead time within the window *)

Lemma date_of_add_days (t : datetime) (k : Z) :
  date_of (t + k * usec_per_day) = date_of t + k.
Proof. unfold date_of. apply Z.div_add. discriminate. Qed.

Lemma schedule_offsets_fold (folder relative_path : Path) (due_dt : datetime)
    (as_of_date end_date : date) (notify_offsets : list timedelta) :
  Forall (fun L => date_in_range (date_of (due_dt - L)) = true) notify_offsets ->
  forall schedule,
    schedule_offsets folder relative_path due_dt as_of_date end_date
      notify_offsets schedule
    = Ok (fold_left
            (fun s L =>
               schedule_append (date_of (due_dt - L)) folder
                 (relative_path, date_of due_dt) s)
            (filter (in_window as_of_date end_date due_dt) notify_offsets)
            schedule).
Proof.
  induction 1 as [|L rest HL _ IH]; intros schedule; [reflexivity|].
  cbn [schedule_offsets filter]. unfold datetime_sub. rewrite HL. cbn [bind].
  unfold in_window at 1.
  destruct (date_of (due_dt - L) <? as_of_date) eqn:E1.
  - apply Z.ltb_lt in E1. rewrite (proj2 (Z.leb_gt _ _) E1). simpl. apply IH.
  - apply Z.ltb_ge in E1. rewrite (proj2 (Z.leb_le _ _) E1). simpl.
    destruct (end_date <? date_of (due_dt - L)) eqn:E2.
    + apply Z.ltb_lt in E2. rewrite (proj2 (Z.leb_gt _ _) E2). apply IH.
    + apply Z.ltb_ge in E2. rewrite (proj2 (Z.leb_le _ _) E2). cbn [fold_left].
      apply IH.
Qed.

Lemma schedule_offsets_overflow (folder relative_path : Path) (due_dt : datetime)
    (as_of_date end_date : date) (notify_offsets : list timedelta) :
  Exists (fun L => date_in_range (date_of (due_dt - L)) = false) notify_offsets ->
  forall schedule,
    schedule_offsets folder relative_path due_dt as_of_date end_date
      notify_offsets schedule
    = Raise OverflowError.
Proof.
  induction notify_offsets as [|L rest IH]; intros H schedule; [inversion H|].
  cbn [schedule_offsets]. unfold datetime_sub.
  destruct (date_in_range (date_of (due_dt - L))) eqn:E; [|reflexivity].
  cbn [bind]. assert (Hrest : Exists (fun L => date_in_range (date_of (due_dt - L)) = false)
                                rest)
    by (inversion H; subst; [congruence | assumption]).
  destruct (_ || _); apply IH; exact Hrest.
Qed.

Lemma alerts_dates (as_of_dt : datetime) (schedule : schedule_t) (d : date) :
  schedule_wf schedule ->
  (In d (map fst (alerts_of_schedule as_of_dt schedule))
   <-> exists f, schedule_items d f schedule <> []).
Proof.
  intros Hwf. unfold alerts_of_schedule. rewrite map_map. simpl. split.
  - intros H. apply in_map_iff in H. destruct H as ([d0 folders] & Heq & Hin).
    simpl in Heq. subst d0. pose proof Hwf as [_ Hall].
    rewrite Forall_forall in Hall. destruct (Hall _ Hin) as (Hne & _).
    simpl in Hne. destruct folders as [|[f items] rest]; [contradiction|].
    exists f.
    destruct (schedule_items_in schedule d _ f items Hwf Hin (or_introl eq_refl))
      as [-> Hitems]. exact Hitems.
  - intros [f H]. apply schedule_items_found in H. destruct H as (folders & Hin & _).
    apply in_map_iff. exists (d, folders). auto.
Qed.

Section LeadTimeFacts.

Variable re_match : string -> string -> bool.

Lemma schedule_entries_returns (rule : FolderRule.t) (w : world)
    (as_of_dt : datetime) (as_of_date end_date : date)
    (entries : list (Path * Path)) :
  Forall (fun ar => exists c, path_lookup w (fst ar) = Some c) entries ->
  Forall (entry_in_range re_match rule w as_of_dt) entries ->
  forall schedule,
  exists schedule',
    schedule_entries re_match rule w as_of_dt as_of_date end_date entries schedule
    = Ok schedule'.
Proof.
  induction 1 as [|[absolute_path relative_path] rest [c Hc] _ IH];
    intros Hrange schedule; [exists schedule; reflexivity|].
  inversion Hrange as [|x l Hhead Htail]; subst. cbn [schedule_entries].
  unfold entry_in_range in Hhead. cbn [fst snd] in Hhead, Hc.
  destruct (_is_exempt rule relative_path); [exact (IH Htail schedule)|].
  destruct (Hhead eq_refl) as [Hdue Hlead].
  unfold _modified_datetime. unfold modified_at in Hdue, Hlead. rewrite Hc in *.
  cbn [bind]. unfold datetime_add. rewrite Hdue. cbn [bind].
  destruct (_ <? as_of_dt) eqn:E; [exact (IH Htail schedule)|].
  apply Z.ltb_ge in E. rewrite (schedule_offsets_fold _ _ _ _ _ _ (Hlead E)).
  cbn [bind]. apply (IH Htail).
Qed.

Lemma schedule_rules_returns (w : world) (as_of_dt : datetime)
    (as_of_date end_date : date) (todo : list FolderRule.t) :
  (forall rule ar,
      In rule todo -> rule_active w rule = true -> In ar (rule_entries rule w) ->
      entry_in_range re_match rule w as_of_dt ar) ->
  forall schedule,
  exists schedule',
    schedule_rules re_match w as_of_dt as_of_date end_date todo schedule = Ok schedule'.
Proof.
  induction todo as [|rule rest IH]; intros Hrange schedule;
    [exists schedule; reflexivity|].
  cbn [schedule_rules]. rewrite negb_orb_active.
  assert (Hrest : forall r ar,
             In r rest -> rule_active w r = true -> In ar (rule_entries r w) ->
             entry_in_range re_match r w as_of_dt ar)
    by (intros r ar Hr; apply Hrange; right; exact Hr).
  destruct (rule_active w rule) eqn:Hact; cbn [negb]; [|exact (IH Hrest schedule)].
  rewrite iter_rule_entries_total. cbn [bind].
  destruct (schedule_entries_returns rule w as_of_dt as_of_date end_date
              (rule_entries rule w)) with (schedule := schedule) as [s1 ->].
  - apply Forall_forall. intros [absolute_path relative_path] H.
    apply rule_entry_exists in H. exact H.
  - apply Forall_forall. intros ar Har. apply Hrange; [left; reflexivity | exact Hact | exact Har].
  - cbn [bind]. apply (IH Hrest).
Qed.

(** [upcoming_alerts] returns when every date that it computes is in
    range. *)
Lemma upcoming_alerts_returns (svc : FolderCleanerService) (as_of : as_of_arg)
    (window_days : Z) (w : world) :
  dates_in_range re_match svc (world_at as_of w) (as_of_instant as_of w) window_days ->
  exists m, upcoming_alerts re_match svc as_of window_days w = Ok m.
Proof.
  unfold upcoming_alerts, world_at, as_of_instant.
  destruct (_normalize_datetime as_of w) as [as_of_dt w0]. cbn [fst snd].
  intros (Habs & Hend & Hrange).
  unfold date_add_days, mk_timedelta. rewrite Z.div_mul by discriminate.
  rewrite (proj2 (Z.leb_le _ _) Habs). cbn [bind].
  rewrite Z.div_mul by discriminate. rewrite Hend. cbn [bind].
  destruct (schedule_rules_returns w0 as_of_dt (date_of as_of_dt)
              (date_of as_of_dt + window_days) (rules svc) Hrange [])
    as [schedule Hs].
  rewrite Hs. cbn [bind].
  destruct (schedule_rules_items re_match _ _ _ _ _ _ _ Hs) as [Hwf _].
  rewrite group_alerts_ok by (apply Hwf; split; constructor).
  eexists. reflexivity.
Qed.

(** C5: in the loop of [upcoming_alerts] an entry that is not exempt
    registers nothing when its due instant (last modification + effective
    retention) is before [as_of]; otherwise it registers once for each lead
    time [L] for which the date of (due instant - L) lies between the date of
    [as_of] and that date + [window_days], both included, and for no other;
    the loop ends in [OverflowError] when the due instant, or for an entry
    that is not overdue the instant of a lead time, leaves the years 1 to
    9999.  In a mapping that is returned a relative path so appears in the
    alert of a date and a folder exactly when some rule of that folder, some
    entry and some lead time satisfy this.  With lead times of two and five
    days, a retention of ten days, [as_of] the modification instant [t] of
    the only file and a window of ten days, the call returns, [t] and the
    ten days after it being in range, and the dates of the alerts are those
    of [t] + 5 days and [t] + 8 days, and no other. *)
Theorem alerts_by_lead_time (svc : FolderCleanerService) (as_of : as_of_arg)
    (window_days : Z) (w : world) :
  let as_of_dt := as_of_instant as_of w in
  let w0 := world_at as_of w in
  let as_of_date := date_of as_of_dt in
  let end_date := as_of_date + window_days in
  (forall rule absolute_path relative_path rest schedule,
      In (absolute_path, relative_path) (rule_entries rule w0) ->
      _is_exempt rule relative_path = false ->
      let due_dt := modified_at w0 absolute_path
                    + fst (_effective_policy re_match rule relative_path) in
      let lead_times := _effective_notify re_match rule relative_path in
      let step :=
        schedule_entries re_match rule w0 as_of_dt as_of_date end_date
          ((absolute_path, relative_path) :: rest) schedule in
      (date_in_range (date_of due_dt) = true -> due_dt < as_of_dt ->
       step = schedule_entries re_match rule w0 as_of_dt as_of_date end_date rest
                schedule)
      /\ (date_in_range (date_of due_dt) = true -> as_of_dt <= due_dt ->
          Forall (fun L => date_in_range (date_of (due_dt - L)) = true) lead_times ->
          step = schedule_entries re_match rule w0 as_of_dt as_of_date end_date rest
                   (fold_left
                      (fun s L =>
                         schedule_append (date_of (due_dt - L)) (FolderRule.path rule)
                           (relative_path, date_of due_dt) s)
                      (filter (in_window as_of_date end_date due_dt) lead_times)
                      schedule))
      /\ (date_in_range (date_of due_dt) = false
          \/ (as_of_dt <= due_dt
              /\ Exists (fun L => date_in_range (date_of (due_dt - L)) = false)
                        lead_times) ->
          step = Raise OverflowError))
  /\ (forall m,
         upcoming_alerts re_match svc as_of window_days w = Ok m ->
         forall d f relative_path,
             (exists alerts a,
                 In (d, alerts) m /\ In a alerts /\ folder a = f
                 /\ In relative_path (files a))
             <-> (exists rule absolute_path L,
                     In rule (rules svc) /\ rule_active w0 rule = true
                     /\ FolderRule.path rule = f
                     /\ In (absolute_path, relative_path) (rule_entries rule w0)
                     /\ _is_exempt rule relative_path = false
                     /\ as_of_dt <= modified_at w0 absolute_path
                                    + fst (_effective_policy re_match rule relative_path)
                     /\ In L (_effective_notify re_match rule relative_path)
                     /\ date_of (modified_at w0 absolute_path
                                 + fst (_effective_policy re_match rule relative_path)
                                 - L) = d
                     /\ as_of_date <= d <= end_date))
  /\ (forall t,
         min_ordinal <= date_of t -> date_of t + 10 <= max_ordinal ->
         exists m,
           upcoming_alerts re_match lead_times_service (AsOfDatetime t) 10
             (single_file_world t) = Ok m
           /\ forall d,
               In d (map fst m)
               <-> d = date_of (t + 5 * usec_per_day)
                   \/ d = date_of (t + 8 * usec_per_day)).
Proof.
  intros as_of_dt w0 as_of_date end_date. split; [|split].
  - intros rule absolute_path relative_path rest schedule Hin Hex due_dt lead_times
      step.
    assert (Hstep : step
              = (d <- datetime_add (modified_at w0 absolute_path)
                        (fst (_effective_policy re_match rule relative_path)) ;;
                 if d <? as_of_dt then
                   schedule_entries re_match rule w0 as_of_dt as_of_date end_date rest
                     schedule
                 else
                   s' <- schedule_offsets (FolderRule.path rule) relative_path d
                           as_of_date end_date lead_times schedule ;;
                   schedule_entries re_match rule w0 as_of_dt as_of_date end_date rest
                     s')).
    { unfold step. cbn [schedule_entries]. rewrite Hex.
      rewrite (modified_datetime_entry rule w0 _ _ Hin). reflexivity. }
    rewrite Hstep. unfold datetime_add. fold due_dt. split; [|split].
    + intros Hr Hlt. rewrite Hr. cbn [bind].
      rewrite (proj2 (Z.ltb_lt _ _) Hlt). reflexivity.
    + intros Hr Hle Hall. rewrite Hr. cbn [bind].
      rewrite (proj2 (Z.ltb_ge _ _) Hle).
      rewrite (schedule_offsets_fold _ _ _ _ _ _ Hall). reflexivity.
    + intros [Hr | [Hle Hsome]]; [rewrite Hr; reflexivity|].
      destruct (date_in_range (date_of due_dt)); [|reflexivity]. cbn [bind].
      rewrite (proj2 (Z.ltb_ge _ _) Hle).
      rewrite (schedule_offsets_overflow _ _ _ _ _ _ Hsome). reflexivity.
  - intros m Hm.
    destruct (upcoming_alerts_schedule re_match svc as_of window_days w m Hm)
      as (schedule & Hwf & Hitems & ->).
    intros d f relative_path. split.
    + intros (alerts & a & Hin & Ha & Hf & Hfile).
      destruct (alerts_of_schedule_in _ _ _ _ _ Hin Ha)
        as (folders & items & Hd & Hfe & _ & Ha').
      destruct (schedule_items_in schedule d folders _ items Hwf Hd Hfe) as [Hsi _].
      rewrite Ha' in Hfile. cbn [alert_for files fst snd] in Hfile.
      apply in_map_iff in Hfile. destruct Hfile as (item & Hfst & Hitem).
      apply (Permutation_in _ (sorted_by_posix_perm items)) in Hitem.
      rewrite <- Hsi, Hitems, Hf in Hitem. apply alert_group_member in Hitem.
      destruct Hitem as (rule & ap & rp & L & H1 & H2 & H3 & H4 & H5 & H6 & H7
                         & H8 & H9 & ->).
      simpl in Hfst. subst rp. exists rule, ap, L. repeat split; auto; apply H9.
    + intros (rule & ap & L & H1 & H2 & H3 & H4 & H5 & H6 & H7 & H8 & H9).
      set (item := (relative_path,
                    date_of (modified_at w0 ap
                             + fst (_effective_policy re_match rule relative_path)))).
      assert (Hitem : In item (alert_group re_match svc w0 as_of_dt window_days d f)).
      { apply alert_group_member.
        exists rule, ap, relative_path, L. repeat split; auto; apply H9. }
      unfold w0, as_of_dt in Hitem. rewrite <- Hitems in Hitem.
      assert (Hne : schedule_items d f schedule <> [])
        by (intros E; rewrite E in Hitem; destruct Hitem).
      destruct (schedule_items_found schedule d f Hne) as (folders & Hd & Hfe).
      exists (map (alert_for (as_of_instant as_of w) d) folders),
        (alert_for (as_of_instant as_of w) d (f, schedule_items d f schedule)).
      repeat split.
      * unfold alerts_of_schedule. apply in_map_iff.
        exists (d, folders). split; [reflexivity | exact Hd].
      * apply in_map_iff. exists (f, schedule_items d f schedule).
        split; [reflexivity | exact Hfe].
      * cbn [alert_for files fst snd]. apply in_map_iff. exists item.
        split; [reflexivity|].
        apply (Permutation_in _ (Permutation_sym (sorted_by_posix_perm _))).
        exact Hitem.
  - intros t Hlo Hhi.
    assert (Hentries : rule_entries lead_times_rule (single_file_world t)
                       = [(mkPath "/" ["root"; "file.txt"], mkPath "" ["file.txt"])])
      by reflexivity.
    assert (Hin_range : forall k, 0 <= k <= 10 ->
               date_in_range (date_of (t + k * usec_per_day)) = true).
    { intros k Hk. rewrite date_of_add_days. unfold date_in_range.
      apply andb_true_iff. split; apply Z.leb_le; lia. }
    destruct (upcoming_alerts_returns lead_times_service (AsOfDatetime t) 10
                (single_file_world t)) as [m Hm].
    { split; [discriminate|]. split.
      - cbn [as_of_instant _normalize_datetime fst].
        rewrite <- date_of_add_days. apply Hin_range. lia.
      - intros rule ar [<- | []] _ Har.
        cbn [world_at _normalize_datetime snd] in Har. rewrite Hentries in Har.
        destruct Har as [<- | []]. intros _.
        cbn [world_at as_of_instant _normalize_datetime fst snd].
        change (modified_at (single_file_world t) (mkPath "/" ["root"; "file.txt"]))
          with t.
        change (fst (_effective_policy re_match lead_times_rule (mkPath "" ["file.txt"])))
          with (10 * usec_per_day).
        split; [apply Hin_range; lia|]. intros _.
        change (_effective_notify re_match lead_times_rule (mkPath "" ["file.txt"]))
          with [2 * usec_per_day; 5 * usec_per_day].
        repeat constructor.
        + replace (t + 10 * usec_per_day - 2 * usec_per_day)
            with (t + 8 * usec_per_day) by lia.
          apply Hin_range. lia.
        + replace (t + 10 * usec_per_day - 5 * usec_per_day)
            with (t + 5 * usec_per_day) by lia.
          apply Hin_range. lia. }
    exists m. split; [exact Hm|].
    destruct (upcoming_alerts_schedule re_match lead_times_service
                (AsOfDatetime t) 10 (single_file_world t) m Hm)
      as (schedule & Hwf & Hitems & ->).
    change (as_of_instant (AsOfDatetime t) (single_file_world t)) with t.
    intros d. rewrite (alerts_dates t schedule d Hwf).
    rewrite !date_of_add_days. split.
    + intros [f Hne]. rewrite Hitems in Hne.
      destruct (alert_group re_match lead_times_service
                  (world_at (AsOfDatetime t) (single_file_world t))
                  (as_of_instant (AsOfDatetime t) (single_file_world t)) 10 d f)
        as [|item rest] eqn:Hgroup; [contradiction|].
      assert (Hitem : In item (item :: rest)) by (left; reflexivity).
      rewrite <- Hgroup in Hitem. apply alert_group_member in Hitem.
      destruct Hitem as (rule & ap & rp & L & H1 & _ & _ & H4 & _ & _ & H7 & H8 & _).
      destruct H1 as [<- | []]. cbn [world_at _normalize_datetime snd] in H4.
      rewrite Hentries in H4. destruct H4 as [H4 | []]. inversion H4; subst ap rp.
      cbn in H7. cbn [world_at _normalize_datetime snd] in H8.
      change (modified_at (single_file_world t) (mkPath "/" ["root"; "file.txt"]))
        with t in H8.
      change (fst (_effective_policy re_match lead_times_rule (mkPath "" ["file.txt"])))
        with (10 * usec_per_day) in H8.
      destruct H7 as [<- | [<- | []]].
      * right. rewrite <- H8, <- date_of_add_days. f_equal.
        unfold usec_per_day, usec_per_second. lia.
      * left. rewrite <- H8, <- date_of_add_days. f_equal.
        unfold usec_per_day, usec_per_second. lia.
    + intros Hd. exists (mkPath "/" ["root"]). rewrite Hitems.
      set (k := if Z.eq_dec d (date_of t + 5) then 5 else 2).
      assert (Hitem : In (mkPath "" ["file.txt"], date_of (t + 10 * usec_per_day))
                         (alert_group re_match lead_times_service
                            (world_at (AsOfDatetime t) (single_file_world t))
                            (as_of_instant (AsOfDatetime t) (single_file_world t))
                            10 d (mkPath "/" ["root"]))).
      { apply alert_group_member.
        exists lead_times_rule, (mkPath "/" ["root"; "file.txt"]),
          (mkPath "" ["file.txt"]), (k * usec_per_day).
        cbn [world_at as_of_instant _normalize_datetime fst snd].
        rewrite Hentries.
        change (modified_at (single_file_world t) (mkPath "/" ["root"; "file.txt"]))
          with t.
        change (fst (_effective_policy re_match lead_times_rule (mkPath "" ["file.txt"])))
          with (10 * usec_per_day).
        repeat split.
        - left. reflexivity.
        - left. reflexivity.
        - unfold usec_per_day, usec_per_second. lia.
        - unfold k. cbn. destruct (Z.eq_dec d (date_of t + 5)); auto.
        - replace (t + 10 * usec_per_day - k * usec_per_day)
            with (t + (10 - k) * usec_per_day) by lia.
          rewrite date_of_add_days. unfold k.
          destruct (Z.eq_dec d (date_of t + 5)); lia.
        - lia.
        - lia. }
      intros E. rewrite E in Hitem. destruct Hitem.
Qed.

End LeadTimeFacts.

(* ------------------------------------------------------------------ *)
(** ** How the operations on the tree change what paths lead to *)

Lemma related_refl (P : datetime -> Prop) (c : node) : related P c c.
Proof. destruct c; simpl; auto. Qed.

Lemma related_trans (P : datetime -> Prop) (a b c : node) :
  related P a b -> related P b c -> related P a c.
Proof.
  destruct a, b, c; simpl; try contradiction; try congruence.
  intros [-> | H1] [-> | H2]; auto.
Qed.

Lemma related_weaken (P Q : datetime -> Prop) (a b : node) :
  (forall m, P m -> Q m) -> related P a b -> related Q a b.
Proof.
  intros H. destruct a, b; simpl; auto. intros [-> | Hp]; auto.
Qed.

Lemma lookup_child_put_same (x : string) (c : node) (children : list (string * node)) :
  lookup_child x (put_child x c children) = Some c.
Proof.
  induction children as [|[k c0] rest IH]; simpl.
  - rewrite String.eqb_refl. reflexivity.
  - destruct (String.eqb k x) eqn:E; simpl; rewrite E; [reflexivity | exact IH].
Qed.

Lemma lookup_child_put_other (x y : string) (c : node)
    (children : list (string * node)) :
  x <> y -> lookup_child x (put_child y c children) = lookup_child x children.
Proof.
  intros Hne. induction children as [|[k c0] rest IH]; simpl.
  - destruct (String.eqb y x) eqn:E; [|reflexivity].
    apply String.eqb_eq in E. congruence.
  - destruct (String.eqb k y) eqn:E; simpl.
    + apply String.eqb_eq in E. subst k.
      destruct (String.eqb y x) eqn:E'; [|reflexivity].
      apply String.eqb_eq in E'. congruence.
    + destruct (String.eqb k x); [reflexivity | exact IH].
Qed.

Lemma lookup_child_remove_same (x : string) (children : list (string * node)) :
  lookup_child x (remove_child x children) = None.
Proof.
  unfold remove_child. induction children as [|[k c0] rest IH]; simpl; [reflexivity|].
  destruct (String.eqb k x) eqn:E; simpl; [exact IH|]. rewrite E. exact IH.
Qed.

Lemma lookup_child_remove_other (x y : string) (children : list (string * node)) :
  x <> y -> lookup_child x (remove_child y children) = lookup_child x children.
Proof.
  intros Hne. unfold remove_child.
  induction children as [|[k c0] rest IH]; simpl; [reflexivity|].
  destruct (String.eqb k y) eqn:E; simpl.
  - apply String.eqb_eq in E. subst k.
    destruct (String.eqb y x) eqn:E'; [|exact IH].
    apply String.eqb_eq in E'. congruence.
  - destruct (String.eqb k x); [reflexivity | exact IH].
Qed.

Lemma lookup_child_remove_sub (x y : string) (children : list (string * node))
    (c : node) :
  lookup_child x (remove_child y children) = Some c -> lookup_child x children = Some c.
Proof.
  destruct (string_dec x y) as [-> | Hne].
  - rewrite lookup_child_remove_same. discriminate.
  - rewrite lookup_child_remove_other by exact Hne. auto.
Qed.

(** Rewriting a listing so that it only loses entries leaves, at every
    path, what was there or nothing. *)
Lemma alter_dir_shrinks (P : datetime -> Prop) (t : datetime)
    (f : list (string * node) -> list (string * node)) :
  P t ->
  (forall children x c,
      lookup_child x (f children) = Some c -> lookup_child x children = Some c) ->
  forall ns n q c',
    lookup q (alter_dir t f ns n) = Some c' ->
    exists c, lookup q n = Some c /\ related P c c'.
Proof.
  intros Ht Hf. induction ns as [|y rest IH]; intros n q c' H.
  - destruct n as [m|m children]; simpl in H.
    + exists c'. split; [exact H | apply related_refl].
    + destruct q as [|x q]; simpl in *.
      * inversion H; subst. eexists. split; [reflexivity|]. simpl. auto.
      * destruct (lookup_child x (f children)) as [d|] eqn:Hd; [|discriminate].
        rewrite (Hf _ _ _ Hd). exists c'. split; [exact H | apply related_refl].
  - destruct n as [m|m children]; simpl in H.
    + exists c'. split; [exact H | apply related_refl].
    + destruct (lookup_child y children) as [d0|] eqn:Hd0.
      * destruct q as [|x q]; simpl in *.
        -- inversion H; subst. eexists. split; [reflexivity|]. simpl. auto.
        -- destruct (string_dec x y) as [-> | Hne].
           ++ rewrite lookup_child_put_same in H. rewrite Hd0. apply IH. exact H.
           ++ rewrite lookup_child_put_other in H by exact Hne.
              exists c'. split; [exact H | apply related_refl].
      * exists c'. split; [exact H | apply related_refl].
Qed.

(** Nothing is left at or below an entry that was taken out. *)
Lemma alter_dir_removed (t : datetime) (x : string) (ns : list string) :
  forall n rest,
    lookup (ns ++ x :: rest) (alter_dir t (remove_child x) ns n) = None.
Proof.
  induction ns as [|y ns IH]; intros n rest.
  - destruct n as [m|m children]; simpl; [reflexivity|].
    rewrite lookup_child_remove_same. reflexivity.
  - destruct n as [m|m children]; simpl; [reflexivity|].
    destruct (lookup_child y children) as [d0|] eqn:Hd0; simpl.
    + rewrite lookup_child_put_same. apply IH.
    + rewrite Hd0. reflexivity.
Qed.

(** Rewriting the entry [x] of the listing at [ns] changes nothing at a
    path that neither leads to that listing nor passes through [x]. *)
Lemma alter_dir_frame (t : datetime)
    (f : list (string * node) -> list (string * node)) (x : string) :
  (forall children y, y <> x -> lookup_child y (f children) = lookup_child y children) ->
  forall ns n q,
    ~ path_prefix q ns -> ~ path_prefix (ns ++ [x]) q ->
    lookup q (alter_dir t f ns n) = lookup q n.
Proof.
  intros Hf. induction ns as [|y rest IH]; intros n q Hq1 Hq2.
  - destruct q as [|z q]; [exfalso; apply Hq1; exists []; reflexivity|].
    destruct n as [m|m children]; simpl; [reflexivity|].
    rewrite Hf; [reflexivity|].
    intros ->. apply Hq2. exists q. reflexivity.
  - destruct q as [|z q]; [exfalso; apply Hq1; exists (y :: rest); reflexivity|].
    destruct n as [m|m children]; simpl; [reflexivity|].
    destruct (lookup_child y children) as [d0|] eqn:Hd0; [|reflexivity].
    simpl. destruct (string_dec z y) as [-> | Hne].
    + rewrite lookup_child_put_same, Hd0. apply IH.
      * intros [r Hr]. apply Hq1. exists r. simpl. rewrite Hr. reflexivity.
      * intros [r Hr]. apply Hq2. exists r. simpl. rewrite Hr. reflexivity.
    + rewrite lookup_child_put_other by exact Hne. reflexivity.
Qed.

Lemma lookup_fresh_dirs (t : datetime) (p : list string) :
  forall q c, lookup q (fresh_dirs t p) = Some c -> path_prefix q p.
Proof.
  induction p as [|y p IH]; intros q c H.
  - destruct q as [|x q]; [exists []; reflexivity | discriminate].
  - destruct q as [|x q]; [exists (y :: p); reflexivity|].
    simpl in H. destruct (String.eqb y x) eqn:E; [|discriminate].
    apply String.eqb_eq in E. subst. destruct (IH _ _ H) as [r ->].
    exists r. reflexivity.
Qed.

(** Making directories changes nothing at a path that does not lead to
    the directory made. *)
Lemma mkdir_parents_frame (t : datetime) (p : list string) :
  forall n n' q,
    mkdir_parents t p n = Ok n' -> ~ path_prefix q p ->
    lookup q n' = lookup q n.
Proof.
  induction p as [|y p IH]; intros n n' q H Hq.
  - simpl in H. inversion H; subst. reflexivity.
  - destruct q as [|x q]; [exfalso; apply Hq; exists (y :: p); reflexivity|].
    destruct n as [m|m children]; simpl in H; [discriminate|].
    destruct (lookup_child y children) as [[mc|mc chc]|] eqn:Hc.
    + destruct p; discriminate.
    + apply bind_Ok in H. destruct H as (c' & Hc' & H). inversion H; subst. simpl.
      destruct (string_dec x y) as [-> | Hne].
      * rewrite lookup_child_put_same, Hc. apply (IH _ _ _ Hc').
        intros [r Hr]. apply Hq. exists r. simpl. rewrite Hr. reflexivity.
      * rewrite lookup_child_put_other by exact Hne. reflexivity.
    + inversion H; subst. simpl.
      destruct (string_dec x y) as [-> | Hne].
      * rewrite lookup_child_put_same, Hc.
        destruct (lookup q (fresh_dirs t p)) as [c|] eqn:Hl; [|reflexivity].
        exfalso. apply lookup_fresh_dirs in Hl. destruct Hl as [r Hr].
        apply Hq. exists r. simpl. rewrite Hr. reflexivity.
      * rewrite lookup_child_put_other by exact Hne. reflexivity.
Qed.

Lemma path_prefix_refl (a : list string) : path_prefix a a.
Proof. exists []. symmetry. apply app_nil_r. Qed.

Lemma path_prefix_trans (a b c : list string) :
  path_prefix a b -> path_prefix b c -> path_prefix a c.
Proof. intros [r1 ->] [r2 ->]. exists (r1 ++ r2). rewrite app_assoc. reflexivity. Qed.

Lemma path_prefix_app (a s : list string) : path_prefix a (a ++ s).
Proof. exists s. reflexivity. Qed.

Lemma path_prefix_comparable (a : list string) :
  forall b c, path_prefix a c -> path_prefix b c -> path_prefix a b \/ path_prefix b a.
Proof.
  induction a as [|x a IH]; intros b c Ha Hb.
  - left. exists b. reflexivity.
  - destruct b as [|y b]; [right; exists (x :: a); reflexivity|].
    destruct Ha as [ra ->]. destruct Hb as [rb Hb]. simpl in Hb.
    inversion Hb; subst.
    destruct (IH b (a ++ ra) (path_prefix_app _ _)) as [[r ->] | [r ->]].
    + exists rb. assumption.
    + left. exists r. reflexivity.
    + right. exists r. reflexivity.
Qed.

Lemma apart_under (R T p : list string) :
  apart R T -> path_prefix T p -> apart R p.
Proof.
  intros [H1 H2] HT. split.
  - intros HR. destruct (path_prefix_comparable R T p HR HT); contradiction.
  - intros Hp. apply H2. eapply path_prefix_trans; eassumption.
Qed.

Lemma apart_below (R p : list string) (suffix : list string) :
  apart R p -> ~ path_prefix (R ++ suffix) p /\ ~ path_prefix p (R ++ suffix).
Proof.
  intros [H1 H2]. split.
  - intros H. apply H1. eapply path_prefix_trans; [apply path_prefix_app | exact H].
  - intros H.
    destruct (path_prefix_comparable p R (R ++ suffix) H (path_prefix_app _ _));
      contradiction.
Qed.

Lemma names_split_last (p : Path) :
  names p <> [] -> names (parent p) ++ [name p] = names p.
Proof.
  intros H. unfold parent, name. simpl. symmetry. apply app_removelast_last. exact H.
Qed.

Lemma parent_prefix (p : Path) :
  names p <> [] -> path_prefix (names (parent p)) (names p).
Proof.
  intros H. exists [name p]. symmetry. apply names_split_last. exact H.
Qed.

Lemma same_env_refl (w : world) : same_env w w.
Proof. unfold same_env. auto. Qed.

Lemma same_env_trans (w1 w2 w3 : world) :
  same_env w1 w2 -> same_env w2 w3 -> same_env w1 w3.
Proof.
  unfold same_env. intros (A1 & B1 & C1 & D1) (A2 & B2 & C2 & D2).
  repeat split; try congruence. lia.
Qed.

Lemma evolves_refl (roots : list (list string)) (w : world) : evolves roots w w.
Proof.
  split; [apply same_env_refl|]. intros R _ suffix c' H.
  exists c'. split; [exact H | apply related_refl].
Qed.

Lemma evolves_trans (roots : list (list string)) (w1 w2 w3 : world) :
  evolves roots w1 w2 -> evolves roots w2 w3 -> evolves roots w1 w3.
Proof.
  intros [E1 S1] [E2 S2]. split; [eapply same_env_trans; eassumption|].
  intros R HR suffix c3 H3.
  destruct (S2 R HR suffix c3 H3) as (c2 & H2 & R23).
  destruct (S1 R HR suffix c2 H2) as (c1 & H1 & R12).
  exists c1. split; [exact H1|].
  destruct E1 as (Hc1 & _ & _ & Ht1). destruct E2 as (Hc2 & _ & _ & Ht2).
  eapply related_trans.
  - eapply related_weaken; [|exact R12].
    intros m (k & Hk & ->). exists k. split; [lia | reflexivity].
  - eapply related_weaken; [|exact R23].
    intros m (k & Hk & ->). exists k. split; [lia | rewrite Hc1; reflexivity].
Qed.

Lemma same_env_tick_set (w : world) (n : node) : same_env w (tick (set_fs w n)).
Proof. unfold same_env. simpl. repeat split; auto. Qed.

Lemma bumped_now (w : world) (n : node) :
  bumped_between w (tick (set_fs w n)) (now w).
Proof. exists (ticks w). simpl. split; [lia | reflexivity]. Qed.

(** Taking an entry out. *)
Lemma detach_evolves (roots : list (list string)) (p : Path) (w : world) :
  evolves roots w (detach p w).
Proof.
  unfold detach. destruct (names p) eqn:Hp; [apply evolves_refl|].
  split; [apply same_env_tick_set|]. intros R _ suffix c' H. simpl in H.
  eapply alter_dir_shrinks; [apply bumped_now | | exact H].
  intros children x c. apply lookup_child_remove_sub.
Qed.

Lemma detach_absent (p : Path) (w : world) (rest : list string) :
  names p <> [] ->
  lookup (names p ++ rest) (fs (detach p w)) = None.
Proof.
  intros Hp. unfold detach. destruct (names p) eqn:E; [contradiction|].
  rewrite <- E in *. simpl.
  rewrite <- (names_split_last p Hp) at 1. rewrite <- app_assoc. simpl.
  apply alter_dir_removed.
Qed.

(** Hanging a node at a place apart from the roots. *)
Lemma attach_evolves (roots : list (list string)) (p : Path) (n : node) (w : world) :
  (forall R, In R roots -> apart R (names p)) ->
  evolves roots w (attach p n w).
Proof.
  intros Hap. unfold attach. destruct (names p) eqn:E; [apply evolves_refl|].
  rewrite <- E in *. assert (Hp : names p <> []) by (rewrite E; discriminate).
  split; [apply same_env_tick_set|]. intros R HR suffix c' H. simpl in H.
  destruct (apart_below R (names p) suffix (Hap R HR)) as [H1 H2].
  rewrite (alter_dir_frame _ _ (name p)) in H.
  - exists c'. split; [exact H | apply related_refl].
  - intros children y Hy. apply lookup_child_put_other. exact Hy.
  - intros Hq. apply H1. eapply path_prefix_trans; [exact Hq|].
    apply parent_prefix. exact Hp.
  - change (removelast (names p)) with (names (parent p)).
    rewrite (names_split_last p Hp). exact H2.
Qed.

Lemma attach_frame (p : Path) (n : node) (w : world) (q : list string) :
  ~ path_prefix q (names p) -> ~ path_prefix (names p) q ->
  lookup q (fs (attach p n w)) = lookup q (fs w).
Proof.
  intros H1 H2. unfold attach. destruct (names p) eqn:E; [reflexivity|].
  rewrite <- E in *. assert (Hp : names p <> []) by (rewrite E; discriminate).
  simpl. apply (alter_dir_frame _ _ (name p)).
  - intros children y Hy. apply lookup_child_put_other. exact Hy.
  - intros Hq. apply H1. eapply path_prefix_trans; [exact Hq|].
    apply parent_prefix. exact Hp.
  - change (removelast (names p)) with (names (parent p)).
    rewrite (names_split_last p Hp). exact H2.
Qed.

(** Making directories at a place that no root leads to. *)
Lemma mkdir_evolves (roots : list (list string)) (p : Path) (w w' : world) :
  mkdir p w = Ok w' ->
  (forall R, In R roots -> ~ path_prefix R (names p)) ->
  evolves roots w w'.
Proof.
  unfold mkdir. intros H Hap. apply bind_Ok in H. destruct H as (n & Hn & H).
  inversion H; subst. split; [apply same_env_tick_set|].
  intros R HR suffix c' Hl. simpl in Hl.
  rewrite (mkdir_parents_frame _ _ _ _ _ Hn) in Hl.
  - exists c'. split; [exact Hl | apply related_refl].
  - intros Hq. apply (Hap R HR).
    eapply path_prefix_trans; [apply path_prefix_app | exact Hq].
Qed.

Lemma mkdir_frame (p : Path) (w w' : world) (q : list string) :
  mkdir p w = Ok w' -> ~ path_prefix q (names p) ->
  lookup q (fs w') = lookup q (fs w).
Proof.
  unfold mkdir. intros H Hq. apply bind_Ok in H. destruct H as (n & Hn & H).
  inversion H; subst. simpl. eapply mkdir_parents_frame; eassumption.
Qed.

(* ------------------------------------------------------------------ *)
(** ** What a disposal changes below the roots of the rules *)

Lemma evolves_tick (roots : list (list string)) (w : world) : evolves roots w (tick w).
Proof.
  split; [unfold same_env; simpl; repeat split; auto|].
  intros R _ suffix c' H. exists c'. split; [exact H | apply related_refl].
Qed.

Lemma apart_nonempty (R p : list string) : apart R p -> p <> [].
Proof. intros [_ H] ->. apply H. exists R. reflexivity. Qed.

Lemma parent_prefix_all (p : Path) : path_prefix (names (parent p)) (names p).
Proof.
  unfold parent. simpl. destruct (names p) as [|x l].
  - exists []. reflexivity.
  - exists [last (x :: l) ""]. apply app_removelast_last. discriminate.
Qed.

Lemma apart_parent (R : list string) (p : Path) :
  apart R (names p) -> ~ path_prefix R (names (parent p)).
Proof.
  intros [H _] HR. apply H.
  eapply path_prefix_trans; [exact HR | apply parent_prefix_all].
Qed.

Lemma lookup_below_none (a rest : list string) (n : node) :
  lookup a n = None -> lookup (a ++ rest) n = None.
Proof. intros H. rewrite lookup_app, H. reflexivity. Qed.

Lemma is_dir_exists (w : world) (p : Path) : is_dir w p = true -> exists_ w p = true.
Proof.
  unfold is_dir, exists_. destruct (path_lookup w p); [reflexivity | discriminate].
Qed.

(** When [_remove_path] returns, the entry is taken out. *)
Lemma remove_path_Ok (p : Path) (w w' : world) :
  _remove_path p w = Ok w' -> w' = without p w.
Proof.
  unfold _remove_path, unlink_missing_ok, rmtree, unlink, without.
  destruct (is_dir w p) eqn:Ed.
  - rewrite (is_dir_exists w p Ed). intros H. inversion H. reflexivity.
  - destruct (exists_ w p); [intros H; inversion H; reflexivity|].
    destruct (below_a_file w p); [discriminate|].
    intros H. inversion H. reflexivity.
Qed.

(** It returns unless the path is below a regular file. *)
Lemma remove_path_returns (p : Path) (w : world) :
  below_a_file w p = false -> _remove_path p w = Ok (without p w).
Proof.
  intros Hb. unfold _remove_path, unlink_missing_ok, rmtree, unlink, without.
  destruct (is_dir w p) eqn:Ed.
  - rewrite (is_dir_exists w p Ed). reflexivity.
  - destruct (exists_ w p); [reflexivity|]. rewrite Hb. reflexivity.
Qed.

Lemma file_on_way_found (ns : list string) :
  forall n c, lookup ns n = Some c -> file_on_way ns n = false.
Proof.
  induction ns as [|x rest IH]; intros n c H; [reflexivity|].
  destruct n as [m|m children]; simpl in *; [discriminate|].
  destruct (lookup_child x children) as [c0|]; [|discriminate].
  apply (IH c0 c H).
Qed.

Lemma exists_not_below_a_file (w : world) (p : Path) :
  exists_ w p = true -> below_a_file w p = false.
Proof.
  unfold exists_, path_lookup, below_a_file.
  destruct (lookup (names p) (fs w)) as [c|] eqn:E; [|discriminate].
  intros _. apply (file_on_way_found _ _ _ E).
Qed.

Lemma without_evolves (roots : list (list string)) (p : Path) (w : world) :
  evolves roots w (without p w).
Proof.
  unfold without.
  destruct (exists_ w p); [apply detach_evolves | apply evolves_refl].
Qed.

Lemma without_absent (p : Path) (w : world) (rest : list string) :
  names p <> [] ->
  lookup (names p ++ rest) (fs (without p w)) = None.
Proof.
  intros Hp. unfold without.
  destruct (exists_ w p) eqn:E; [apply detach_absent; exact Hp|].
  apply lookup_below_none. unfold exists_, path_lookup in E.
  destruct (lookup (names p) (fs w)); [discriminate | reflexivity].
Qed.

Section MoveFacts.

Variable roots : list (list string).

Lemma os_rename_evolves (src dst : Path) (w w' : world) :
  os_rename src dst w = Ok w' ->
  (forall R, In R roots -> apart R (names dst)) ->
  evolves roots w w'.
Proof.
  unfold os_rename. intros H Hap.
  assert (Hmove : forall n, evolves roots w (attach dst n (detach src w))).
  { intros n. eapply evolves_trans; [apply detach_evolves|].
    apply attach_evolves. exact Hap. }
  destruct (path_lookup w src) as [n|]; [|discriminate].
  destruct (list_string_eqb (names src) (names dst));
    [inversion H; subst; apply evolves_refl|].
  destruct (is_prefix (names src) (names dst)); [discriminate|].
  destruct (path_lookup w (parent dst)) as [[mp|mp chp]|]; try discriminate.
  destruct (path_lookup w dst) as [[md|md [|x chd]]|], n;
    try discriminate; inversion H; subst; apply Hmove.
Qed.

Lemma os_rename_absent (src dst : Path) (w w' : world) (R rest : list string) :
  os_rename src dst w = Ok w' ->
  names src <> [] -> path_prefix R (names src) -> apart R (names dst) ->
  lookup (names src ++ rest) (fs w') = None.
Proof.
  unfold os_rename. intros H Hsrc [s Hs] Hap.
  destruct (apart_below R (names dst) (s ++ rest) Hap) as [H1 H2].
  rewrite app_assoc, <- Hs in H1, H2.
  assert (Hmove : forall n,
             lookup (names src ++ rest) (fs (attach dst n (detach src w))) = None).
  { intros n. rewrite attach_frame by assumption. apply detach_absent. exact Hsrc. }
  destruct (path_lookup w src) as [n|]; [|discriminate].
  destruct (list_string_eqb (names src) (names dst)) eqn:E.
  { apply list_string_eqb_eq in E. exfalso. apply H2. rewrite <- E.
    apply path_prefix_app. }
  destruct (is_prefix (names src) (names dst)); [discriminate|].
  destruct (path_lookup w (parent dst)) as [[mp|mp chp]|]; try discriminate.
  destruct (path_lookup w dst) as [[md|md [|x chd]]|], n;
    try discriminate; inversion H; subst; apply Hmove.
Qed.

Lemma copytree_rmtree_evolves (src dst : Path) (w w' : world) :
  copytree_rmtree src dst w = Ok w' ->
  (forall R, In R roots -> apart R (names dst)) ->
  evolves roots w w'.
Proof.
  unfold copytree_rmtree, rmtree. intros H Hap.
  destruct (path_lookup w src) as [n|]; [|discriminate].
  destruct (exists_ w dst); [discriminate|].
  apply bind_Ok in H. destruct H as (w1 & Hw1 & H). inversion H; subst.
  eapply evolves_trans; [eapply mkdir_evolves; [exact Hw1|]|].
  - intros R HR. apply apart_parent. auto.
  - eapply evolves_trans; [apply attach_evolves; exact Hap | apply detach_evolves].
Qed.

Lemma copytree_rmtree_absent (src dst : Path) (w w' : world) (rest : list string) :
  copytree_rmtree src dst w = Ok w' -> names src <> [] ->
  lookup (names src ++ rest) (fs w') = None.
Proof.
  unfold copytree_rmtree, rmtree. intros H Hsrc.
  destruct (path_lookup w src) as [n|]; [|discriminate].
  destruct (exists_ w dst); [discriminate|].
  apply bind_Ok in H. destruct H as (w1 & Hw1 & H). inversion H; subst.
  apply detach_absent. exact Hsrc.
Qed.

Lemma copy2_unlink_evolves (src dst : Path) (w w' : world) :
  copy2_unlink src dst w = Ok w' ->
  (forall R, In R roots -> apart R (names dst)) ->
  evolves roots w w'.
Proof.
  unfold copy2_unlink, unlink. intros H Hap.
  destruct (path_lookup w src) as [n|]; [|discriminate].
  destruct (path_lookup w (parent dst)) as [[mp|mp chp]|]; try discriminate.
  destruct (is_dir w dst); [discriminate|]. inversion H; subst.
  eapply evolves_trans; [apply attach_evolves; exact Hap | apply detach_evolves].
Qed.

Lemma copy2_unlink_absent (src dst : Path) (w w' : world) (rest : list string) :
  copy2_unlink src dst w = Ok w' -> names src <> [] ->
  lookup (names src ++ rest) (fs w') = None.
Proof.
  unfold copy2_unlink, unlink. intros H Hsrc.
  destruct (path_lookup w src) as [n|]; [|discriminate].
  destruct (path_lookup w (parent dst)) as [[mp|mp chp]|]; try discriminate.
  destruct (is_dir w dst); [discriminate|]. inversion H; subst.
  apply detach_absent. exact Hsrc.
Qed.

Lemma apart_child (R : list string) (dst : Path) (x : string) :
  apart R (names dst) -> apart R (names (child_path dst x)).
Proof.
  intros H. eapply apart_under; [exact H|]. simpl. apply path_prefix_app.
Qed.

(** [shutil.move] to a destination apart from the roots: nothing appears
    below a root, and the source is gone. *)
Lemma shutil_move_evolves (src dst : Path) (w w' : world) :
  shutil_move src dst w = Ok w' ->
  (forall R, In R roots -> apart R (names dst)) ->
  evolves roots w w'.
Proof.
  unfold shutil_move. intros H Hap.
  destruct (is_dir w dst && list_string_eqb (names src) (names dst)).
  { eapply os_rename_evolves; eassumption. }
  apply bind_Ok in H. destruct H as (real_dst & Hreal & H).
  assert (Hap' : forall R, In R roots -> apart R (names real_dst)).
  { intros R HR. destruct (is_dir w dst).
    - destruct (exists_ w (child_path dst (name src))); [discriminate|].
      inversion Hreal; subst. apply apart_child. auto.
    - inversion Hreal; subst. auto. }
  destruct (os_rename src real_dst w) as [w1|e] eqn:Hren.
  { inversion H; subst. eapply os_rename_evolves; eassumption. }
  destruct (is_dir w src).
  - destruct (is_prefix (names src) (names dst)); [discriminate|].
    eapply copytree_rmtree_evolves; eassumption.
  - eapply copy2_unlink_evolves; eassumption.
Qed.

Lemma shutil_move_absent (src dst : Path) (w w' : world) (R rest : list string) :
  shutil_move src dst w = Ok w' ->
  names src <> [] -> path_prefix R (names src) -> apart R (names dst) ->
  lookup (names src ++ rest) (fs w') = None.
Proof.
  unfold shutil_move. intros H Hsrc HR Hap.
  destruct (is_dir w dst && list_string_eqb (names src) (names dst)).
  { eapply os_rename_absent; eassumption. }
  apply bind_Ok in H. destruct H as (real_dst & Hreal & H).
  assert (Hap' : apart R (names real_dst)).
  { destruct (is_dir w dst).
    - destruct (exists_ w (child_path dst (name src))); [discriminate|].
      inversion Hreal; subst. apply apart_child. auto.
    - inversion Hreal; subst. auto. }
  destruct (os_rename src real_dst w) as [w1|e] eqn:Hren.
  { inversion H; subst. eapply os_rename_absent; eassumption. }
  destruct (is_dir w src).
  - destruct (is_prefix (names src) (names dst)); [discriminate|].
    eapply copytree_rmtree_absent; eassumption.
  - eapply copy2_unlink_absent; eassumption.
Qed.

End MoveFacts.

Lemma root_of_string_plain (s : string) :
  starts_with_slash s = false -> root_of_string s = "".
Proof.
  destruct s as [|c s]; simpl; [reflexivity|]. intros ->. reflexivity.
Qed.

Lemma names_joinstr_plain (base : Path) (s : string) :
  starts_with_slash s = false ->
  names (joinstr base s) = names base ++ names (Path_of_string s).
Proof.
  intros H. unfold joinstr, joinpath, is_absolute. simpl.
  rewrite (root_of_string_plain s H). reflexivity.
Qed.

Lemma names_joinpath_relative (base rel : Path) :
  root rel = "" -> names (joinpath base rel) = names base ++ names rel.
Proof. intros H. unfold joinpath, is_absolute. rewrite H. reflexivity. Qed.

(** The target of a trash disposal, its parent and its renamed form all
    lie below the trash directory. *)
Lemma trash_target_under (base : Path) (s : string) (rel : Path) :
  starts_with_slash s = false -> root rel = "" -> names rel <> [] ->
  let target := joinpath (joinstr base s) rel in
  path_prefix (names base) (names (parent target))
  /\ path_prefix (names base) (names target)
  /\ forall x renamed, with_name target x = Ok renamed ->
                       path_prefix (names base) (names renamed).
Proof.
  intros Hs Hrel Hne target.
  assert (Hnames : names target
                   = names base ++ (names (Path_of_string s) ++ names rel)).
  { unfold target. rewrite names_joinpath_relative by exact Hrel.
    rewrite names_joinstr_plain by exact Hs. rewrite app_assoc. reflexivity. }
  assert (Hmid : names (Path_of_string s) ++ names rel <> []).
  { intros H. apply app_eq_nil in H. destruct H. contradiction. }
  assert (Hparent : names (parent target)
                    = names base ++ removelast (names (Path_of_string s) ++ names rel)).
  { unfold parent. simpl. rewrite Hnames. apply removelast_app. exact Hmid. }
  split; [rewrite Hparent; apply path_prefix_app|].
  split; [rewrite Hnames; apply path_prefix_app|].
  intros x renamed H. unfold with_name in H.
  destruct (names target) eqn:E; [discriminate|]. rewrite <- E in H.
  inversion H; subst. simpl.
  change (removelast (names target)) with (names (parent target)).
  rewrite Hparent, <- app_assoc. apply path_prefix_app.
Qed.

Lemma system_trash_base_same (w w' : world) :
  same_env w w' -> system_trash_base w' = system_trash_base w.
Proof.
  intros (_ & H1 & H2 & _). unfold system_trash_base. rewrite H1, H2. reflexivity.
Qed.

Lemma trash_apart_same (svc : FolderCleanerService) (roots : list (list string))
    (w w' : world) :
  same_env w w' -> trash_apart svc w roots -> trash_apart svc w' roots.
Proof.
  intros Henv H R HR. rewrite (system_trash_base_same w w' Henv). apply H, HR.
Qed.

Section DisposalFacts.

Variable re_match : string -> string -> bool.
Variable svc : FolderCleanerService.
Variable roots : list (list string).

Lemma move_to_trash_evolves (rule : FolderRule.t) (e : Path * Path * datetime)
    (w w' : world) (p : Path) :
  _move_to_trash svc rule (fst (fst e)) (snd (fst e)) w = Ok (w', p) ->
  trash_apart svc w roots -> plain_root rule ->
  In (names (FolderRule.path rule)) roots -> entry_of_rule rule e ->
  evolves roots w w'
  /\ forall rest, lookup (names (fst (fst e)) ++ rest) (fs w') = None.
Proof.
  destruct e as [[absolute_path relative_path] modified]. cbn [fst snd].
  intros H Hap Hplain Hroot (Hrel & Hne & Habs). cbn [fst snd] in *.
  assert (Hsrc : names absolute_path <> []).
  { rewrite Habs. intros E. apply app_eq_nil in E. destruct E. contradiction. }
  unfold _move_to_trash in H. destruct (trash_dir svc) as [trash|] eqn:Htrash.
  2:{ apply bind_Ok in H. destruct H as (w1 & Hrm & H). inversion H; subst w1 p.
      apply remove_path_Ok in Hrm. subst w'. split; [apply without_evolves|].
      intros rest. apply without_absent. exact Hsrc. }
  destruct (trash_target_under trash (name (FolderRule.path rule)) relative_path
              Hplain Hrel Hne) as (Hparent & Htarget & Hrenamed).
  set (target := joinpath (joinstr trash (name (FolderRule.path rule))) relative_path)
    in *.
  assert (HapT : forall R, In R roots -> apart R (names trash)).
  { intros R HR. destruct (Hap R HR) as [HT _]. apply HT. exact Htrash. }
  apply bind_Ok in H. destruct H as (w1 & Hw1 & H).
  apply bind_Ok in H. destruct H as ([w2 dst] & Hwt & H). cbn [fst snd] in H.
  apply bind_Ok in H. destruct H as (w3 & Hmove & H). inversion H; subst w3 p.
  assert (E1 : evolves roots w w1).
  { eapply mkdir_evolves; [exact Hw1|]. intros R HR.
    apply (apart_under R _ _ (HapT R HR) Hparent). }
  assert (E2 : evolves roots w1 w2 /\ path_prefix (names trash) (names dst)).
  { destruct (exists_ w1 target).
    - apply bind_Ok in Hwt. destruct Hwt as (renamed & Hren & Hwt).
      inversion Hwt; subst. split; [apply evolves_tick | eapply Hrenamed; eassumption].
    - inversion Hwt; subst. split; [apply evolves_refl | exact Htarget]. }
  destruct E2 as [E2 Hdst].
  assert (Hdst' : forall R, In R roots -> apart R (names dst)).
  { intros R HR. apply (apart_under R _ _ (HapT R HR) Hdst). }
  split.
  - eapply evolves_trans; [exact E1|]. eapply evolves_trans; [exact E2|].
    eapply shutil_move_evolves; eassumption.
  - intros rest.
    eapply (shutil_move_absent absolute_path dst w2 w'
              (names (FolderRule.path rule)));
      [exact Hmove | exact Hsrc | rewrite Habs; apply path_prefix_app|].
    apply Hdst'. exact Hroot.
Qed.

Lemma move_to_system_trash_evolves (rule : FolderRule.t)
    (e : Path * Path * datetime) (w w' : world) (p : Path) :
  _move_to_system_trash rule (fst (fst e)) (snd (fst e)) w = Ok (w', p) ->
  trash_apart svc w roots -> plain_root rule ->
  In (names (FolderRule.path rule)) roots -> entry_of_rule rule e ->
  evolves roots w w'
  /\ forall rest, lookup (names (fst (fst e)) ++ rest) (fs w') = None.
Proof.
  destruct e as [[absolute_path relative_path] modified]. cbn [fst snd].
  intros H Hap Hplain Hroot (Hrel & Hne & Habs). cbn [fst snd] in *.
  assert (Hsrc : names absolute_path <> []).
  { rewrite Habs. intros E. apply app_eq_nil in E. destruct E. contradiction. }
  unfold _move_to_system_trash in H.
  change (match trash_override w with
          | Some (String c rest) => expanduser (home w) (Path_of_string (String c rest))
          | _ => joinstr (home w) ".Trash"
          end) with (system_trash_base w) in H.
  set (base := system_trash_base w) in *.
  destruct (trash_target_under base (name (FolderRule.path rule)) relative_path
              Hplain Hrel Hne) as (Hparent & Htarget & _).
  set (target := joinpath (joinstr base (name (FolderRule.path rule))) relative_path)
    in *.
  assert (HapB : forall R, In R roots -> apart R (names base)).
  { intros R HR. apply (Hap R HR). }
  apply bind_Ok in H. destruct H as (w1 & Hw1 & H).
  apply bind_Ok in H. destruct H as (w2 & Hw2 & H).
  assert (E1 : evolves roots w w1).
  { eapply mkdir_evolves; [exact Hw1|]. intros R HR. apply (HapB R HR). }
  assert (E2 : evolves roots w1 w2).
  { eapply mkdir_evolves; [exact Hw2|]. intros R HR.
    apply (apart_under R _ _ (HapB R HR) Hparent). }
  assert (Hdst : forall R, In R roots -> apart R (names target)).
  { intros R HR. apply (apart_under R _ _ (HapB R HR) Htarget). }
  destruct (shutil_move absolute_path target w2) as [w3|err] eqn:Hmove.
  - inversion H; subst. split.
    + eapply evolves_trans; [exact E1|]. eapply evolves_trans; [exact E2|].
      eapply shutil_move_evolves; eassumption.
    + intros rest.
      eapply (shutil_move_absent absolute_path target w2 w'
                (names (FolderRule.path rule)));
        [exact Hmove | exact Hsrc | rewrite Habs; apply path_prefix_app|].
      apply Hdst. exact Hroot.
  - apply bind_Ok in H. destruct H as (w3 & Hrm & H). inversion H; subst w3 p.
    apply remove_path_Ok in Hrm. subst w'. split.
    + eapply evolves_trans; [exact E1|]. eapply evolves_trans; [exact E2|].
      apply without_evolves.
    + intros rest. apply without_absent. exact Hsrc.
Qed.

Lemma dispose_evolves (rule : FolderRule.t) (e : Path * Path * datetime)
    (w w' : world) (p : Path) :
  dispose re_match svc rule e w = Ok (w', p) ->
  trash_apart svc w roots -> plain_root rule ->
  In (names (FolderRule.path rule)) roots -> entry_of_rule rule e ->
  evolves roots w w'
  /\ forall rest, lookup (names (fst (fst e)) ++ rest) (fs w') = None.
Proof.
  unfold dispose. intros H Hap Hplain Hroot He.
  destruct (String.eqb _ "trash"); [eapply move_to_trash_evolves; eassumption|].
  destruct (String.eqb _ "system_trash");
    [eapply move_to_system_trash_evolves; eassumption|].
  apply bind_Ok in H. destruct H as (w1 & Hrm & H). inversion H; subst w1 p.
  apply remove_path_Ok in Hrm. subst w'. split; [apply without_evolves|].
  intros rest. apply without_absent.
  destruct He as (_ & Hne & Habs). rewrite Habs. intros E.
  apply app_eq_nil in E. destruct E. contradiction.
Qed.

Lemma absent_stays (rule : FolderRule.t) (w w' : world) (suffix : list string) :
  evolves roots w w' -> In (names (FolderRule.path rule)) roots ->
  lookup (names (FolderRule.path rule) ++ suffix) (fs w) = None ->
  lookup (names (FolderRule.path rule) ++ suffix) (fs w') = None.
Proof.
  intros [_ Hs] Hroot Hnone.
  destruct (lookup (names (FolderRule.path rule) ++ suffix) (fs w')) as [c'|] eqn:E;
    [|reflexivity].
  destruct (Hs _ Hroot suffix c' E) as (c & Hc & _). congruence.
Qed.

Lemma dispose_all_evolves (rule : FolderRule.t) (due : list (Path * Path * datetime)) :
  plain_root rule -> In (names (FolderRule.path rule)) roots ->
  Forall (entry_of_rule rule) due ->
  forall w removed w' removed',
    dispose_all re_match svc rule due w removed = Ok (w', removed') ->
    trash_apart svc w roots ->
    evolves roots w w'
    /\ forall e, In e due ->
                 forall rest, lookup (names (fst (fst e)) ++ rest) (fs w') = None.
Proof.
  intros Hplain Hroot Hall.
  induction Hall as [|e due He _ IH]; intros w removed w' removed' H Hap.
  - inversion H; subst. split; [apply evolves_refl | intros e []].
  - cbn [dispose_all] in H. apply bind_Ok in H.
    destruct H as ([w1 p] & Hd & H). cbn [fst snd] in H.
    destruct (dispose_evolves rule e w w1 p Hd Hap Hplain Hroot He) as [E1 Habsent].
    destruct (IH w1 _ w' removed' H (trash_apart_same svc roots w w1 (proj1 E1) Hap))
      as [E2 Hrest].
    split; [eapply evolves_trans; eassumption|].
    intros e' [<- | Hin] rest; [|apply Hrest; exact Hin].
    destruct He as (_ & _ & Habs). rewrite Habs, <- app_assoc.
    apply (absent_stays rule w1 w' _ E2 Hroot).
    rewrite app_assoc, <- Habs. apply Habsent.
Qed.

End DisposalFacts.
(* ------------------------------------------------------------------ *)
(** ** A second [cleanup] finds nothing to do *)

Lemma collected_entry_shape (rule : FolderRule.t) (w : world)
    (e : Path * Path * datetime) :
  In e (collected_entries rule w) ->
  entry_of_rule rule e
  /\ In (fst e) (rule_entries rule w)
  /\ snd e = modified_at w (fst (fst e)).
Proof.
  unfold collected_entries. intros H. apply in_map_iff in H.
  destruct H as ([absolute_path relative_path] & <- & Hin). cbn [fst snd].
  destruct (rule_entry_relative rule w _ _ Hin) as (H1 & H2 & H3).
  split; [|split; [exact Hin | reflexivity]].
  unfold entry_of_rule. cbn [fst snd]. rewrite H3. auto.
Qed.

Lemma modified_at_lookup (w : world) (p : Path) (c : node) :
  path_lookup w p = Some c -> modified_at w p = node_mtime c.
Proof. unfold modified_at. intros ->. reflexivity. Qed.

Lemma related_kind (P : datetime -> Prop) (c : node) (m' : datetime)
    (children' : list (string * node)) :
  related P c (Dir m' children') -> exists m children, c = Dir m children.
Proof. destruct c as [m|m children]; simpl; [contradiction | eauto]. Qed.

Lemma filter_none {A : Type} (f : A -> bool) (l : list A) :
  (forall a, In a l -> f a = false) -> filter f l = [].
Proof.
  induction l as [|a l IH]; intros H; simpl; [reflexivity|].
  rewrite (H a (or_introl eq_refl)). apply IH. intros b Hb. apply H. right. exact Hb.
Qed.

Section QuietFacts.

Variable re_match : string -> string -> bool.
Variable svc : FolderCleanerService.
Variable roots : list (list string).

Lemma root_back (rule : FolderRule.t) (w w' : world) (m' : datetime)
    (children' : list (string * node)) :
  evolves roots w w' -> In (names (FolderRule.path rule)) roots ->
  path_lookup w' (FolderRule.path rule) = Some (Dir m' children') ->
  exists m children, path_lookup w (FolderRule.path rule) = Some (Dir m children).
Proof.
  intros [_ Hs] Hroot H. unfold path_lookup in *.
  specialize (Hs _ Hroot [] (Dir m' children')). rewrite app_nil_r in Hs.
  destruct (Hs H) as (c & Hc & Hrel).
  destruct (related_kind _ _ _ _ Hrel) as (m & children & ->). eauto.
Qed.

Lemma active_back (rule : FolderRule.t) (w w' : world) :
  evolves roots w w' -> In (names (FolderRule.path rule)) roots ->
  rule_active w' rule = true -> rule_active w rule = true.
Proof.
  intros Hev Hroot H. unfold rule_active, exists_, is_dir in *.
  destruct (path_lookup w' (FolderRule.path rule)) as [[m'|m' ch']|] eqn:E;
    try discriminate.
  destruct (root_back rule w w' m' ch' Hev Hroot E) as (m & ch & ->). reflexivity.
Qed.

Lemma entry_back (rule : FolderRule.t) (w w' : world)
    (absolute_path relative_path : Path) :
  evolves roots w w' -> In (names (FolderRule.path rule)) roots ->
  In (absolute_path, relative_path) (rule_entries rule w') ->
  In (absolute_path, relative_path) (rule_entries rule w)
  /\ exists c c',
      path_lookup w absolute_path = Some c
      /\ path_lookup w' absolute_path = Some c'
      /\ related (bumped_between w w') c c'
      /\ exists suffix,
          names absolute_path = names (FolderRule.path rule) ++ suffix.
Proof.
  intros Hev Hroot H. apply rule_entries_spec in H.
  destruct H as (m' & ch' & Hroot' & suffix & c' & Hne & Hl' & -> & ->).
  destruct (root_back rule w w' m' ch' Hev Hroot Hroot') as (m & ch & Hr).
  assert (Hc' : lookup (names (FolderRule.path rule) ++ suffix) (fs w') = Some c').
  { unfold path_lookup in Hroot'. rewrite lookup_app, Hroot'. exact Hl'. }
  destruct Hev as [_ Hs]. destruct (Hs _ Hroot suffix c' Hc') as (c & Hc & Hrel).
  split.
  - apply rule_entries_spec. exists m, ch. split; [exact Hr|].
    exists suffix, c. repeat split; auto.
    unfold path_lookup in Hr. rewrite lookup_app, Hr in Hc. exact Hc.
  - exists c, c'. unfold path_lookup. simpl. repeat split; auto.
    exists suffix. reflexivity.
Qed.

Lemma mtime_grows (w w' : world) (R suffix : list string) (c c' : node) :
  dated roots w -> clock_monotone w -> In R roots ->
  lookup (R ++ suffix) (fs w) = Some c ->
  related (bumped_between w w') c c' ->
  node_mtime c <= node_mtime c'.
Proof.
  intros Hd Hm HR Hc Hrel. specialize (Hd R HR suffix c Hc).
  destruct c as [m|m ch], c' as [m'|m' ch']; simpl in *; try contradiction.
  - lia.
  - destruct Hrel as [-> | (k & Hk & ->)]; [lia|].
    unfold now in Hd. specialize (Hm (ticks w) k). lia.
Qed.

Lemma is_due_later (rule : FolderRule.t) (as_of_dt : datetime)
    (absolute_path relative_path : Path) (m m' : datetime) :
  m <= m' ->
  is_due re_match rule as_of_dt (absolute_path, relative_path, m) = false ->
  is_due re_match rule as_of_dt (absolute_path, relative_path, m') = false.
Proof.
  unfold is_due. cbn [fst snd]. intros Hle H.
  destruct (negb (_is_exempt rule relative_path)); [|reflexivity].
  simpl in *. apply Z.leb_gt in H. apply Z.leb_gt. lia.
Qed.

Lemma dated_evolves (w w' : world) :
  dated roots w -> clock_monotone w -> evolves roots w w' ->
  dated roots w' /\ clock_monotone w'.
Proof.
  intros Hd Hm [(Hclock & _ & _ & Hticks) Hs]. split.
  - intros R HR suffix c' Hc'. destruct (Hs R HR suffix c' Hc') as (c & Hc & Hrel).
    specialize (Hd R HR suffix c Hc). unfold now in *. rewrite Hclock.
    pose proof (Hm (ticks w) (ticks w')) as Hnow.
    destruct c as [m|m ch], c' as [m'|m' ch']; simpl in *; try contradiction.
    + lia.
    + destruct Hrel as [-> | (k & Hk & ->)]; [lia|].
      specialize (Hm k (ticks w')). lia.
  - intros i j Hij. rewrite Hclock. apply Hm. lia.
Qed.

(** What a later world still holds of a rule was not due before, and is
    not due later. *)
Lemma quiet_preserved (rule : FolderRule.t) (as_of_dt : datetime) (w w' : world) :
  quiet re_match rule as_of_dt w ->
  evolves roots w w' -> In (names (FolderRule.path rule)) roots ->
  dated roots w -> clock_monotone w ->
  quiet re_match rule as_of_dt w'.
Proof.
  intros Hq Hev Hroot Hd Hm Hact e He.
  destruct (collected_entry_shape rule w' e He) as (_ & Hin & Hmt).
  destruct e as [[absolute_path relative_path] modified]. cbn [fst snd] in *.
  destruct (entry_back rule w w' _ _ Hev Hroot Hin)
    as (Hin0 & c & c' & Hc & Hc' & Hrel & suffix & Hsuf).
  subst modified. rewrite (modified_at_lookup _ _ _ Hc').
  apply (is_due_later rule as_of_dt _ _ (node_mtime c)).
  - unfold path_lookup in Hc. rewrite Hsuf in Hc.
    eapply mtime_grows; eassumption.
  - rewrite <- (modified_at_lookup _ _ _ Hc).
    apply (Hq (active_back rule w w' Hev Hroot Hact)).
    unfold collected_entries. apply in_map_iff.
    exists (absolute_path, relative_path). split; [reflexivity | exact Hin0].
Qed.

(** After the disposals of a rule nothing of the rule is due. *)
Lemma quiet_after_rule (rule : FolderRule.t) (as_of_dt : datetime)
    (w w' : world) (removed removed' : list Path) :
  dispose_all re_match svc rule
    (filter (is_due re_match rule as_of_dt)
       (sort_deepest_first (collected_entries rule w))) w removed
  = Ok (w', removed') ->
  trash_apart svc w roots -> plain_root rule ->
  In (names (FolderRule.path rule)) roots ->
  dated roots w -> clock_monotone w ->
  evolves roots w w' /\ quiet re_match rule as_of_dt w'.
Proof.
  intros H Hap Hplain Hroot Hd Hm.
  assert (Hshape : Forall (entry_of_rule rule)
                     (filter (is_due re_match rule as_of_dt)
                        (sort_deepest_first (collected_entries rule w)))).
  { apply Forall_forall. intros e He. apply filter_In in He. destruct He as [He _].
    apply (Permutation_in _ (sort_deepest_first_perm _)) in He.
    apply (collected_entry_shape rule w e He). }
  destruct (dispose_all_evolves re_match svc roots rule _ Hplain Hroot Hshape
              w removed w' removed' H Hap) as [Hev Habsent].
  split; [exact Hev|]. intros Hact e He.
  destruct (collected_entry_shape rule w' e He) as (_ & Hin & Hmt).
  destruct e as [[absolute_path relative_path] modified]. cbn [fst snd] in *.
  destruct (entry_back rule w w' _ _ Hev Hroot Hin)
    as (Hin0 & c & c' & Hc & Hc' & Hrel & suffix & Hsuf).
  subst modified. rewrite (modified_at_lookup _ _ _ Hc').
  apply (is_due_later rule as_of_dt _ _ (node_mtime c)).
  - unfold path_lookup in Hc. rewrite Hsuf in Hc.
    eapply mtime_grows; eassumption.
  - rewrite <- (modified_at_lookup _ _ _ Hc).
    destruct (is_due re_match rule as_of_dt
                (absolute_path, relative_path, modified_at w absolute_path))
      eqn:Hdue; [|reflexivity].
    exfalso.
    assert (Hplan : In (absolute_path, relative_path, modified_at w absolute_path)
                       (filter (is_due re_match rule as_of_dt)
                          (sort_deepest_first (collected_entries rule w)))).
    { apply filter_In. split; [|exact Hdue].
      apply (Permutation_in _ (Permutation_sym (sort_deepest_first_perm _))).
      unfold collected_entries. apply in_map_iff.
      exists (absolute_path, relative_path). split; [reflexivity | exact Hin0]. }
    specialize (Habsent _ Hplan []). cbn [fst snd] in Habsent.
    rewrite app_nil_r in Habsent. unfold path_lookup in Hc'. congruence.
Qed.

(** The first call: the loop over the rules leaves every rule quiet. *)
Lemma cleanup_rules_quiets (as_of_dt : datetime) (todo : list FolderRule.t) :
  (forall r, In r todo -> plain_root r /\ In (names (FolderRule.path r)) roots) ->
  forall w removed w' removed',
    cleanup_rules re_match svc as_of_dt todo w removed = Ok (w', removed') ->
    trash_apart svc w roots -> dated roots w -> clock_monotone w ->
    evolves roots w w'
    /\ forall r, In r todo -> quiet re_match r as_of_dt w'.
Proof.
  induction todo as [|rule rest IH]; intros Hrules w removed w' removed' H Hap Hd Hm.
  - inversion H; subst. split; [apply evolves_refl | intros r []].
  - destruct (Hrules rule (or_introl eq_refl)) as [Hplain Hroot].
    assert (Hrest : forall r, In r rest ->
                              plain_root r /\ In (names (FolderRule.path r)) roots).
    { intros r Hr. apply Hrules. right. exact Hr. }
    rewrite cleanup_rules_step, negb_orb_active in H.
    destruct (rule_active w rule) eqn:Hact; cbn [negb] in H.
    + apply bind_Ok in H. destruct H as ([w1 removed1] & Hdisp & H).
      cbn [fst snd] in H.
      destruct (quiet_after_rule rule as_of_dt w w1 removed removed1 Hdisp
                  Hap Hplain Hroot Hd Hm) as [E1 Hq1].
      destruct (dated_evolves w w1 Hd Hm E1) as [Hd1 Hm1].
      destruct (IH Hrest w1 removed1 w' removed' H
                  (trash_apart_same svc roots w w1 (proj1 E1) Hap) Hd1 Hm1)
        as [E2 Hq2].
      split; [eapply evolves_trans; eassumption|].
      intros r [<- | Hr]; [|apply Hq2; exact Hr].
      eapply quiet_preserved; eassumption.
    + destruct (IH Hrest w removed w' removed' H Hap Hd Hm) as [E Hq].
      split; [exact E|]. intros r [<- | Hr]; [|apply Hq; exact Hr].
      intros Hact'. rewrite (active_back rule w w' E Hroot Hact') in Hact.
      discriminate.
Qed.

(** The second call: for quiet rules the loop disposes nothing and leaves
    the world as it is. *)
Lemma cleanup_rules_of_quiet (as_of_dt : datetime) (todo : list FolderRule.t)
    (w : world) :
  (forall r, In r todo -> quiet re_match r as_of_dt w) ->
  forall removed,
    cleanup_rules re_match svc as_of_dt todo w removed = Ok (w, removed).
Proof.
  induction todo as [|rule rest IH]; intros Hq removed; [reflexivity|].
  rewrite cleanup_rules_step, negb_orb_active.
  destruct (rule_active w rule) eqn:Hact; cbn [negb].
  - assert (Hnone : filter (is_due re_match rule as_of_dt)
                      (sort_deepest_first (collected_entries rule w)) = []).
    { apply filter_none. intros e He.
      apply (Hq rule (or_introl eq_refl) Hact).
      apply (Permutation_in _ (sort_deepest_first_perm _)). exact He. }
    rewrite Hnone. cbn [dispose_all bind fst snd].
    apply IH. intros r Hr. apply Hq. right. exact Hr.
  - apply IH. intros r Hr. apply Hq. right. exact Hr.
Qed.

End QuietFacts.

Lemma dated_before_sound (t : datetime) (q : list string) :
  forall n c,
    dated_before t n = true -> lookup q n = Some c -> node_mtime c <= t.
Proof.
  induction q as [|x q IH]; intros n c Hn Hc.
  - simpl in Hc. inversion Hc; subst.
    destruct c as [m|m children]; simpl in *.
    + apply Z.leb_le. exact Hn.
    + apply andb_true_iff in Hn. apply Z.leb_le. apply Hn.
  - destruct n as [m|m children]; simpl in Hc; [discriminate|].
    destruct (lookup_child x children) as [d|] eqn:Hd; [|discriminate].
    simpl in Hn. apply andb_true_iff in Hn. destruct Hn as [_ Hall].
    rewrite forallb_forall in Hall.
    apply (IH d c); [|exact Hc].
    apply (Hall (x, d)). apply lookup_child_In. exact Hd.
Qed.

Lemma dated_of_check (roots : list (list string)) (w : world) :
  dated_before (now w) (fs w) = true -> dated roots w.
Proof.
  intros H R _ suffix c Hc. eapply dated_before_sound; eassumption.
Qed.

Lemma completed_result {A : Type} (r : result (world * list A)) (otherwise : world) :
  completes r = true -> r = Ok (world_after r otherwise, removed_by r).
Proof.
  destruct r as [[w removed]|e]; simpl; [reflexivity | discriminate].
Qed.

Lemma returned_alerts (r : result (list (date * list Alert))) :
  completes r = true -> r = Ok (alerts_of r).
Proof. destruct r as [m|e]; simpl; [reflexivity | discriminate]. Qed.

(** C7, as stated, fails.  With the managed trash below the root of the
    rule, the first call moves the file into the tree it cleans and the
    second call moves it again.  With a directory dated after the clock, the
    first call removes the old file in it, which stamps the directory with
    the present time, and the second call removes the directory. *)
Lemma cleanup_twice_not_empty :
  (cleanup re_match_literal nested_trash_service (AsOfDatetime noon) nested_trash_world
   = Ok (nested_trash_after, [mkPath "/" ["r"; ".trash"; "r"; "f.txt"]])
   /\ removed_by (cleanup re_match_literal nested_trash_service (AsOfDatetime noon)
                    nested_trash_after)
      = [mkPath "/" ["r"; ".trash"; "r"; ".trash"; "r"; "f.txt"]])
  /\ (cleanup re_match_literal future_dated_service
        (AsOfDatetime (noon + 105 * usec_per_day)) future_dated_world
      = Ok (future_dated_after, [mkPath "/" ["r"; "d"; "f.txt"]])
      /\ removed_by (cleanup re_match_literal future_dated_service
                       (AsOfDatetime (noon + 105 * usec_per_day)) future_dated_after)
         = [mkPath "/" ["r"; "d"]]).
Proof.
  split; split.
  - rewrite (completed_result _ nested_trash_world); [|vm_compute; reflexivity].
    f_equal; f_equal; vm_compute; reflexivity.
  - vm_compute. reflexivity.
  - rewrite (completed_result _ future_dated_world); [|vm_compute; reflexivity].
    f_equal; f_equal; vm_compute; reflexivity.
  - vm_compute. reflexivity.
Qed.

Section Idempotence.

Variable re_match : string -> string -> bool.

(** C7, amended: let the instant be given, let neither the managed trash
    nor the system trash lie below, above or at the root of a rule (the name
    of each root being one path component), let the clock not run backwards
    and nothing below a root be dated after the clock.  If [cleanup]
    completes, a second call on the world it leaves, with the same instant,
    returns the empty list and changes nothing. *)
Theorem cleanup_idempotent (svc : FolderCleanerService) (as_of : as_of_arg)
    (w w1 : world) (removed1 : list Path) :
  as_of <> AsOfNone ->
  trash_apart svc w (rule_roots svc) ->
  (forall r, In r (rules svc) -> plain_root r) ->
  clock_monotone w ->
  dated (rule_roots svc) w ->
  cleanup re_match svc as_of w = Ok (w1, removed1) ->
  cleanup re_match svc as_of w1 = Ok (w1, []).
Proof.
  intros Has_of Hap Hplain Hm Hd H.
  assert (Hrules : forall r, In r (rules svc) ->
                             plain_root r
                             /\ In (names (FolderRule.path r)) (rule_roots svc)).
  { intros r Hr. split; [apply Hplain; exact Hr|].
    unfold rule_roots. apply in_map_iff. exists r. auto. }
  assert (Hgo : forall dt,
             cleanup_rules re_match svc dt (rules svc) w [] = Ok (w1, removed1) ->
             cleanup_rules re_match svc dt (rules svc) w1 [] = Ok (w1, [])).
  { intros dt Hdt.
    destruct (cleanup_rules_quiets re_match svc (rule_roots svc) dt (rules svc)
                Hrules w [] w1 removed1 Hdt Hap Hd Hm) as [_ Hq].
    apply cleanup_rules_of_quiet. exact Hq. }
  destruct as_of as [|dt|d]; [contradiction | |]; unfold cleanup in *;
    cbn [_normalize_datetime] in *; apply Hgo; exact H.
Qed.

End Idempotence.

Lemma cleanup_idempotent_witness :
  cleanup re_match_literal sample_service (AsOfDatetime noon) sample_after
  = Ok (sample_after, []).
Proof.
  apply (cleanup_idempotent re_match_literal sample_service (AsOfDatetime noon)
           sample_world sample_after
           (removed_by (cleanup re_match_literal sample_service (AsOfDatetime noon)
                          sample_world))).
  - discriminate.
  - intros R [<- | []]. split.
    + intros T HT. inversion HT; subst.
      split; intros [r Hr]; discriminate.
    + change (names (system_trash_base sample_world)) with ["home"; "u"; ".Trash"].
      split; intros [r Hr]; discriminate.
  - intros r [<- | []]. reflexivity.
  - intros i j Hij. change (noon + Z.of_nat i <= noon + Z.of_nat j). lia.
  - apply dated_of_check. vm_compute. reflexivity.
  - apply (completed_result _ sample_world). vm_compute. reflexivity.
Defined.

(* ------------------------------------------------------------------ *)
(** ** The statements at work on the sample *)

Lemma cleanup_deepest_first_witness :
  cleanup re_match_literal sample_service (AsOfDatetime noon) sample_world
  = dispose_all re_match_literal sample_service sample_rule
      (filter (is_due re_match_literal sample_rule noon)
         (sort_deepest_first (collected_entries sample_rule sample_world)))
      sample_world []
  /\ precedes sample_a_log sample_logs
       (filter (is_due re_match_literal sample_rule noon)
          (sort_deepest_first (collected_entries sample_rule sample_world))).
Proof.
  destruct (cleanup_deepest_first re_match_literal sample_service (AsOfDatetime noon)
              sample_world sample_rule [] sample_world [])
    as (_ & _ & Hone & _ & _ & _ & _ & _ & _ & H & _).
  split.
  - apply Hone; reflexivity.
  - apply H.
    + vm_compute. left. reflexivity.
    + vm_compute. right. right. right. left. reflexivity.
    + split; [exists ["a.log"]; reflexivity | discriminate].
    + vm_compute. reflexivity.
    + vm_compute. reflexivity.
Defined.


Lemma alerts_by_lead_time_witness :
  exists m,
    upcoming_alerts re_match_literal lead_times_service (AsOfDatetime noon) 10
      (single_file_world noon) = Ok m
    /\ In (date_of (noon + 5 * usec_per_day)) (map fst m)
    /\ In (date_of (noon + 8 * usec_per_day)) (map fst m).
Proof.
  destruct (proj2 (proj2 (alerts_by_lead_time re_match_literal sample_service
                            (AsOfDatetime noon) 0 sample_world)) noon)
    as (m & Hm & Hd).
  - apply Z.leb_le. reflexivity.
  - apply Z.leb_le. reflexivity.
  - exists m. split; [exact Hm|]. split; apply Hd; auto.
Defined.

Lemma days_until_deletion_nonneg_witness :
  exists m,
    upcoming_alerts re_match_literal sample_service (AsOfDatetime month_ago) 30
      sample_world = Ok m
    /\ Forall (fun da => Forall (fun a => 0 <= days_until_deletion a) (snd da)) m.
Proof.
  assert (Hm : upcoming_alerts re_match_literal sample_service
                 (AsOfDatetime month_ago) 30 sample_world
               = Ok (alerts_of (upcoming_alerts re_match_literal sample_service
                                  (AsOfDatetime month_ago) 30 sample_world))).
  { apply returned_alerts. vm_compute. reflexivity. }
  eexists. split; [exact Hm|].
  apply Forall_forall. intros [d alerts] Hin. apply Forall_forall. intros a Ha.
  exact (days_until_deletion_nonneg re_match_literal sample_service
           (AsOfDatetime month_ago) 30 sample_world _ Hm d alerts a Hin Ha).
Defined.

Lemma absolute_exemptions_inert_witness :
  cleanup re_match_literal sample_service (AsOfDatetime noon) sample_world
  = cleanup re_match_literal sample_service_exempting (AsOfDatetime noon) sample_world.
Proof.
  assert (Hagree : services_agree_up_to_absolute sample_service
                     sample_service_exempting).
  { split; [reflexivity|]. constructor; [|constructor].
    repeat split; try reflexivity.
    - intros [].
    - intros [<- | []]. discriminate. }
  exact (proj1 (proj2 (proj2 (absolute_exemptions_inert re_match_literal))
                  sample_service sample_service_exempting Hagree
                  (AsOfDatetime noon) 0 sample_world)).
Defined.
(* ------------------------------------------------------------------ *)
(** ** More on the duration parsers *)

Lemma is_space_lower (c : ascii) : is_space (lower_ascii c) = is_space c.
Proof. destruct c as [[] [] [] [] [] [] [] []]; reflexivity. Qed.

Lemma lower_ascii_idem (c : ascii) : lower_ascii (lower_ascii c) = lower_ascii c.
Proof. destruct c as [[] [] [] [] [] [] [] []]; reflexivity. Qed.

Lemma lower_idem (s : string) : lower (lower s) = lower s.
Proof. induction s as [|c s IH]; simpl; [|rewrite lower_ascii_idem, IH]; reflexivity. Qed.

Lemma lstrip_lower (s : string) : lstrip (lower s) = lower (lstrip s).
Proof.
  induction s as [|c s IH]; simpl; [reflexivity|].
  rewrite is_space_lower. destruct (is_space c); [exact IH | reflexivity].
Qed.

Lemma rstrip_lower (s : string) : rstrip (lower s) = lower (rstrip s).
Proof.
  induction s as [|c s IH]; simpl; [reflexivity|].
  rewrite IH, is_space_lower.
  destruct (rstrip s); simpl; [destruct (is_space c)|]; reflexivity.
Qed.

Lemma strip_lower (s : string) : strip (lower s) = lower (strip s).
Proof. unfold strip. rewrite lstrip_lower, rstrip_lower. reflexivity. Qed.

Lemma lstrip_starts_plain (s : string) : starts_plain (lstrip s).
Proof.
  induction s as [|c s IH]; simpl; [exact I|].
  destruct (is_space c) eqn:E; [exact IH | exact E].
Qed.

Lemma rstrip_starts_plain (s : string) : starts_plain s -> starts_plain (rstrip s).
Proof.
  destruct s as [|c s]; simpl; [auto|]. intros H.
  destruct (rstrip s); simpl; [rewrite H|]; exact H.
Qed.

Lemma lstrip_of_plain (s : string) : starts_plain s -> lstrip s = s.
Proof. destruct s as [|c s]; simpl; [auto|]. intros ->. reflexivity. Qed.

Lemma rstrip_idem (s : string) : rstrip (rstrip s) = rstrip s.
Proof.
  induction s as [|c s IH]; simpl; [reflexivity|].
  destruct (rstrip s) as [|c' r] eqn:E.
  - destruct (is_space c) eqn:Ec; simpl; [|rewrite Ec]; reflexivity.
  - remember (String c' r) as t eqn:Et. simpl. rewrite IH. subst t. reflexivity.
Qed.

Lemma strip_idem (s : string) : strip (strip s) = strip s.
Proof.
  unfold strip.
  rewrite (lstrip_of_plain (rstrip (lstrip s)))
    by apply rstrip_starts_plain, lstrip_starts_plain.
  apply rstrip_idem.
Qed.

Lemma normalised_text (s : string) :
  lower (strip (lower (strip s))) = lower (strip s).
Proof. rewrite strip_lower, strip_idem. apply lower_idem. Qed.

Lemma span_digits_all (s : string) : all_digits (fst (span_digits s)) = true.
Proof.
  induction s as [|c s IH]; simpl; [reflexivity|].
  destruct (is_digit c) eqn:E; [|reflexivity].
  destruct (span_digits s) as [ds tl]. simpl in *. rewrite E, IH. reflexivity.
Qed.

Lemma match_duration_text_digits (text ds : string) (u : unit_char) :
  match_duration_text text = Some (ds, u) -> all_digits ds = true /\ ds <> "".
Proof.
  unfold match_duration_text, match_amount_unit, match_amount.
  pose proof (span_digits_all text) as Hall.
  destruct (span_digits text) as [[|c0 ds0] tl]; simpl in Hall.
  - discriminate.
  - assert (Hne : String c0 ds0 <> "") by discriminate.
    destruct tl as [|c tl].
    + simpl. intros H. inversion H; subst. auto.
    + destruct (unit_of_ascii c).
      * destruct (String.eqb tl "" || String.eqb tl newline).
        -- intros H. inversion H; subst. auto.
        -- destruct (String.eqb (String c tl) "" || String.eqb (String c tl) newline);
             intros H; inversion H; subst; auto.
      * destruct (String.eqb (String c tl) "" || String.eqb (String c tl) newline);
          intros H; inversion H; subst; auto.
Qed.

Lemma digit_value_range (c : ascii) : is_digit c = true -> 0 <= digit_value c <= 9.
Proof.
  unfold is_digit, ascii_in_range, digit_value. intros H.
  apply andb_true_iff in H. destruct H as [H1 H2].
  apply N.leb_le in H1, H2. lia.
Qed.

Lemma decimal_acc_nonneg (s : string) :
  all_digits s = true -> forall acc, 0 <= acc -> 0 <= decimal_acc acc s.
Proof.
  induction s as [|c s IH]; cbn [decimal_acc all_digits]; intros H acc Hacc;
    [exact Hacc|].
  apply andb_true_iff in H. destruct H as [Hc Hs].
  apply IH; [exact Hs|]. pose proof (digit_value_range c Hc). lia.
Qed.

Lemma decimal_value_nonneg (s : string) : all_digits s = true -> 0 <= decimal_value s.
Proof. intros H. apply decimal_acc_nonneg; [exact H | lia]. Qed.

Lemma mk_timedelta_Ok (usec : Z) (td : timedelta) : mk_timedelta usec = Ok td -> td = usec.
Proof.
  unfold mk_timedelta. destruct (_ <=? _); intros H; inversion H. reflexivity.
Qed.

Lemma timedelta_of_amount_unit (amount : Z) (u : unit_char) :
  timedelta_of_amount amount u = mk_timedelta (amount * unit_usec u).
Proof.
  destruct u; unfold timedelta_of_amount, unit_usec; try reflexivity.
  f_equal. ring.
Qed.

Lemma unit_usec_hours (u : unit_char) : exists k, 0 < k /\ unit_usec u = k * usec_per_hour.
Proof.
  destruct u; [exists 1 | exists 24 | exists 168 | exists 8760];
    (split; [lia | reflexivity]).
Qed.

Lemma round_half_even_nonneg (q : Q) : 0 <= Qnum q -> 0 <= round_half_even q.
Proof.
  intros H. unfold round_half_even.
  assert (0 <= Qnum q / Zpos (Qden q)) by (apply Z.div_pos; lia).
  destruct (2 * (Qnum q mod Zpos (Qden q)) ?= Zpos (Qden q)); try lia.
  destruct (Z.even _); lia.
Qed.

Lemma timedelta_of_days_nonneg (q : Q) (td : timedelta) :
  0 <= Qnum q -> timedelta_of_days (FFinite q) = Ok td -> 0 <= td.
Proof.
  simpl. intros Hq H. apply mk_timedelta_Ok in H. subst td.
  apply round_half_even_nonneg. simpl. unfold usec_per_day, usec_per_second. lia.
Qed.

(** The text of a string that both parsers accept: its groups. *)
Lemma parse_string_Ok (s : string) (td : timedelta) :
  _parse_duration (VStr s) = Ok td ->
  exists ds u,
    match_duration_text (lower (strip s)) = Some (ds, u)
    /\ td = decimal_value ds * unit_usec u.
Proof.
  simpl. destruct (match_duration_text (lower (strip s))) as [[ds u]|]; [|discriminate].
  rewrite timedelta_of_amount_unit. intros H. apply mk_timedelta_Ok in H.
  exists ds, u. auto.
Qed.

(** A text that the parsers accept stands for a duration that is not
    negative. *)
Lemma parse_string_nonneg (s : string) (td : timedelta) :
  _parse_duration (VStr s) = Ok td -> 0 <= td.
Proof.
  intros H. destruct (parse_string_Ok s td H) as (ds & u & Hm & ->).
  apply match_duration_text_digits in Hm. destruct Hm as [Hd _].
  pose proof (decimal_value_nonneg ds Hd).
  destruct (unit_usec_hours u) as (k & Hk & ->).
  unfold usec_per_hour, usec_per_second. nia.
Qed.

Lemma parse_offset_string (s : string) (td : timedelta) :
  _parse_offset (VStr s) = Ok td -> _parse_duration (VStr s) = Ok td.
Proof.
  cbn [_parse_offset _parse_duration].
  destruct (match_duration_text (lower (strip s))) as [[ds u]|]; [auto | discriminate].
Qed.

(** The cases of [_parse_offset], one after the other. *)
Ltac offset_cases v :=
  destruct v as [?t|?b|?z|?f|?s|]; cbn [_parse_offset number_lt_zero float_of_number];
  try discriminate.

(** X1: [_parse_offset] never returns a negative duration, whatever the
    kind of value it is given: a [timedelta], a number of days, or a text. *)
Theorem parse_offset_nonneg (v : pyvalue) (td : timedelta) :
  _parse_offset v = Ok td -> 0 <= td.
Proof.
  offset_cases v.
  - unfold total_seconds_negative. destruct (t <? 0) eqn:E; [discriminate|].
    intros H. inversion H; subst. apply Z.ltb_ge in E. exact E.
  - destruct (z <? 0) eqn:E; [discriminate|]. apply Z.ltb_ge in E.
    apply timedelta_of_days_nonneg. exact E.
  - destruct f as [|neg|q]; cbn [float_lt_zero timedelta_of_days].
    + discriminate.
    + destruct neg; discriminate.
    + destruct (Qnum q <? 0) eqn:E; [discriminate|]. apply Z.ltb_ge in E.
      apply (timedelta_of_days_nonneg q). exact E.
  - intros H. apply (parse_string_nonneg s), parse_offset_string. exact H.
Qed.

Lemma parse_offset_nonneg_witness :
  _parse_offset (VStr " 2W ") = Ok (14 * usec_per_day) /\ 0 <= 14 * usec_per_day.
Proof.
  split; [reflexivity|].
  apply (parse_offset_nonneg (VStr " 2W ") (14 * usec_per_day)). reflexivity.
Defined.

(** X2: the two parsers differ on booleans and on negative values only:
    [_parse_offset] returns a duration exactly when [_parse_duration] returns
    it and the value is neither a boolean nor a negative [timedelta] or
    number. *)
Theorem parse_offset_iff_duration (v : pyvalue) (td : timedelta) :
  _parse_offset v = Ok td <-> _parse_duration v = Ok td /\ offset_admissible v.
Proof.
  destruct v as [t|b|z|f|s|]; simpl.
  - unfold total_seconds_negative. destruct (t <? 0) eqn:E.
    + apply Z.ltb_lt in E. split; [discriminate | intros [_ H]; lia].
    + apply Z.ltb_ge in E. split; [intros H; split; [exact H | exact E] | intros [H _]; exact H].
  - split; [discriminate | intros [_ []]].
  - destruct (z <? 0) eqn:E.
    + apply Z.ltb_lt in E. split; [discriminate | intros [_ H]; lia].
    + apply Z.ltb_ge in E. split; [intros H; split; [exact H | exact E] | intros [H _]; exact H].
  - destruct (float_lt_zero f) eqn:E.
    + split; [discriminate | intros [_ H]; discriminate].
    + split; [intros H; split; [exact H | reflexivity] | intros [H _]; exact H].
  - destruct (match_duration_text (lower (strip s))) as [[ds u]|].
    + split; [intros H; split; [exact H | exact I] | intros [H _]; exact H].
    + split; [discriminate | intros [H _]; discriminate].
  - split; [discriminate | intros [H _]; discriminate].
Qed.

Lemma string_app_nil_r (s : string) : (s ++ "")%string = s.
Proof. induction s as [|c s IH]; simpl; [|rewrite IH]; reflexivity. Qed.

Lemma rstrip_no_space (s : string) :
  forallb (fun c => negb (is_space c)) (list_ascii_of_string s) = true -> rstrip s = s.
Proof.
  induction s as [|c s IH]; simpl; [reflexivity|]. intros H.
  apply andb_true_iff in H. destruct H as [Hc Hs]. rewrite (IH Hs).
  apply negb_true_iff in Hc. rewrite Hc. destruct s; reflexivity.
Qed.

Lemma lstrip_no_space (s : string) :
  forallb (fun c => negb (is_space c)) (list_ascii_of_string s) = true -> lstrip s = s.
Proof.
  destruct s as [|c s]; simpl; [reflexivity|]. intros H.
  apply andb_true_iff in H. destruct H as [Hc _].
  apply negb_true_iff in Hc. rewrite Hc. reflexivity.
Qed.

Lemma digit_plain (c : ascii) :
  is_digit c = true -> is_space c = false /\ lower_ascii c = c.
Proof. destruct c as [[] [] [] [] [] [] [] []]; simpl; intros H; try discriminate; auto. Qed.

Lemma unit_letter_plain (u : unit_char) :
  is_space (unit_letter u) = false /\ lower_ascii (unit_letter u) = unit_letter u
  /\ is_digit (unit_letter u) = false /\ unit_of_ascii (unit_letter u) = Some u.
Proof. destruct u; repeat split. Qed.

Lemma digits_no_space (ds tl : string) :
  all_digits ds = true ->
  forallb (fun c => negb (is_space c)) (list_ascii_of_string tl) = true ->
  forallb (fun c => negb (is_space c)) (list_ascii_of_string (ds ++ tl)) = true.
Proof.
  induction ds as [|c ds IH]; simpl; intros H Htl; [exact Htl|].
  apply andb_true_iff in H. destruct H as [Hc Hds].
  destruct (digit_plain c Hc) as [-> _]. simpl. auto.
Qed.

Lemma digits_lower (ds tl : string) :
  all_digits ds = true -> lower (ds ++ tl) = (ds ++ lower tl)%string.
Proof.
  induction ds as [|c ds IH]; simpl; intros H; [reflexivity|].
  apply andb_true_iff in H. destruct H as [Hc Hds].
  destruct (digit_plain c Hc) as [_ ->]. rewrite (IH Hds). reflexivity.
Qed.

Lemma span_digits_app (ds tl : string) :
  all_digits ds = true ->
  match tl with
  | EmptyString => True
  | String c _ => is_digit c = false
  end ->
  span_digits (ds ++ tl) = (ds, tl).
Proof.
  induction ds as [|c ds IH]; simpl; intros H Htl.
  - destruct tl as [|c tl]; [reflexivity|]. simpl. rewrite Htl. reflexivity.
  - apply andb_true_iff in H. destruct H as [Hc Hds].
    rewrite Hc, (IH Hds Htl). reflexivity.
Qed.

(** X3: a text of decimal digits followed by one of the letters [h], [d],
    [w], [y] is the amount in that unit, a text of digits alone the amount in
    days; both parsers agree on it.  The result is the exact product when it
    is within the 999999999 days of a [timedelta], else an
    [OverflowError]. *)
Theorem parse_amount_and_unit (ds : string) (u : unit_char) :
  all_digits ds = true -> ds <> "" ->
  _parse_duration (VStr (ds ++ String (unit_letter u) "")%string)
  = mk_timedelta (decimal_value ds * unit_usec u)
  /\ _parse_offset (VStr (ds ++ String (unit_letter u) "")%string)
     = mk_timedelta (decimal_value ds * unit_usec u)
  /\ _parse_duration (VStr ds) = mk_timedelta (decimal_value ds * usec_per_day)
  /\ _parse_offset (VStr ds) = mk_timedelta (decimal_value ds * usec_per_day).
Proof.
  intros Hd Hne.
  destruct (unit_letter_plain u) as (Hsp & Hlow & Hnd & Hunit).
  assert (Htext : lower (strip (ds ++ String (unit_letter u) ""))
                  = (ds ++ String (unit_letter u) "")%string).
  { unfold strip.
    assert (Hns : forallb (fun c => negb (is_space c))
                    (list_ascii_of_string (ds ++ String (unit_letter u) "")) = true).
    { apply digits_no_space; [exact Hd|]. simpl. rewrite Hsp. reflexivity. }
    rewrite (lstrip_no_space _ Hns), (rstrip_no_space _ Hns).
    rewrite (digits_lower _ _ Hd). simpl. rewrite Hlow. reflexivity. }
  assert (Hbare : lower (strip ds) = ds).
  { unfold strip.
    assert (Hns : forallb (fun c => negb (is_space c)) (list_ascii_of_string ds) = true).
    { rewrite <- (string_app_nil_r ds) at 1.
      apply digits_no_space; [exact Hd | reflexivity]. }
    rewrite (lstrip_no_space _ Hns), (rstrip_no_space _ Hns).
    rewrite <- (string_app_nil_r ds) at 1.
    rewrite (digits_lower _ _ Hd). simpl. apply string_app_nil_r. }
  assert (Hm1 : match_duration_text (ds ++ String (unit_letter u) "") = Some (ds, u)).
  { unfold match_duration_text, match_amount_unit.
    rewrite (span_digits_app ds (String (unit_letter u) "") Hd Hnd).
    destruct ds as [|c ds]; [contradiction|]. rewrite Hunit. reflexivity. }
  assert (Hm2 : match_duration_text ds = Some (ds, UnitD)).
  { unfold match_duration_text, match_amount_unit, match_amount.
    pose proof (span_digits_app ds "" Hd I) as Hs.
    rewrite string_app_nil_r in Hs. rewrite Hs.
    destruct ds as [|c ds]; [contradiction|]. reflexivity. }
  unfold _parse_duration, _parse_offset.
  rewrite Htext, Hbare, Hm1, Hm2, !timedelta_of_amount_unit. auto.
Qed.

Lemma parse_amount_and_unit_witness :
  _parse_duration (VStr "36h") = Ok (36 * usec_per_hour)
  /\ _parse_offset (VStr "1000000000") = Raise OverflowError.
Proof.
  destruct (parse_amount_and_unit "36" UnitH eq_refl) as (H1 & _); [discriminate|].
  destruct (parse_amount_and_unit "1000000000" UnitD eq_refl) as (_ & _ & _ & H2);
    [discriminate|].
  split; [exact H1 | exact H2].
Defined.

(** X4: the parsers read a text through [strip] and [lower] only: the
    normalised text parses to the same result as the text itself, so
    surrounding white space and the case of the unit letter never matter. *)
Theorem parse_reads_normalised_text (s : string) :
  _parse_duration (VStr (lower (strip s))) = _parse_duration (VStr s)
  /\ _parse_offset (VStr (lower (strip s))) = _parse_offset (VStr s).
Proof.
  unfold _parse_duration, _parse_offset. rewrite normalised_text. auto.
Qed.

(** X5: a text that [_parse_duration] accepts stands for a whole, not
    negative number of hours of at most 999999999 days. *)
Theorem parse_text_whole_hours (s : string) (td : timedelta) :
  _parse_duration (VStr s) = Ok td ->
  0 <= td /\ td mod usec_per_hour = 0 /\ td / usec_per_day <= timedelta_max_days.
Proof.
  intros H. destruct (parse_string_Ok s td H) as (ds & u & Hm & Htd).
  apply match_duration_text_digits in Hm. destruct Hm as [Hd _].
  pose proof (decimal_value_nonneg ds Hd) as Hpos.
  destruct (unit_usec_hours u) as (k & Hk & Hu).
  assert (Hnonneg : 0 <= td).
  { subst td. rewrite Hu. unfold usec_per_hour, usec_per_second. nia. }
  split; [exact Hnonneg|]. split.
  - subst td. rewrite Hu, Z.mul_assoc. apply Z.mod_mul.
    unfold usec_per_hour, usec_per_second. lia.
  - simpl in H. destruct (match_duration_text (lower (strip s))) as [[ds' u']|];
      [|discriminate].
    rewrite timedelta_of_amount_unit in H. unfold mk_timedelta in H.
    destruct (Z.abs _ <=? _) eqn:E; [|discriminate].
    inversion H; subst. apply Z.leb_le in E. lia.
Qed.

Lemma parse_text_whole_hours_witness :
  0 <= 365 * usec_per_day /\ (365 * usec_per_day) mod usec_per_hour = 0.
Proof.
  destruct (parse_text_whole_hours "1Y" (365 * usec_per_day) eq_refl) as (H1 & H2 & _).
  split; [exact H1 | exact H2].
Defined.
(* ------------------------------------------------------------------ *)
(** ** What the constructors of the rules establish *)










Lemma valid_action_names (action : string) :
  valid_action action = true
  <-> action = "delete" \/ action = "trash" \/ action = "system_trash".
Proof.
  unfold valid_action. rewrite !orb_true_iff, !String.eqb_eq. tauto.
Qed.

Lemma checked_retention_Ok (retention : pyvalue) (td : timedelta) :
  checked_retention retention = Ok td
  <-> retention_value retention = Ok td /\ 0 <= td.
Proof.
  unfold checked_retention, total_seconds_negative.
  destruct (retention_value retention) as [t|e]; simpl.
  - destruct (t <? 0) eqn:E.
    + apply Z.ltb_lt in E. split; [discriminate|].
      intros [H Hpos]. inversion H; subst. lia.
    + apply Z.ltb_ge in E. split.
      * intros H. inversion H; subst. auto.
      * intros [H _]. exact H.
  - split; [discriminate | intros [H _]; discriminate].
Qed.


Lemma mapM_completes {A B : Type} (f : A -> result B) (l : list A) :
  completes (mapM f l) = true <-> Forall (fun a => completes (f a) = true) l.
Proof.
  induction l as [|a l IH]; simpl.
  - split; [constructor | reflexivity].
  - destruct (f a) as [b|e] eqn:E; simpl.
    + destruct (mapM f l) as [bs|e']; simpl in *.
      * split; [|reflexivity]. intros _. constructor; [rewrite E; reflexivity|].
        apply IH. reflexivity.
      * split; [discriminate|]. intros H. inversion H; subst.
        apply IH. assumption.
    + split; [discriminate|]. intros H. inversion H as [|? ? Ha]; subst.
      rewrite E in Ha. discriminate.
Qed.


(** X6: [FolderRule(...)] returns a rule exactly when the retention is a
    [timedelta] or a number of days that is not negative, every value of
    [notify_before] is one that [_parse_offset] accepts, and the action is
    one of the three names; a [PatternRule(...)] likewise. *)
Theorem rule_constructors_accept (path : Path) (pattern : string)
    (retention : pyvalue) (notify_before : list pyvalue)
    (exemptions : list string) (action : string) (patterns : list PatternRule.t) :
  let accepted :=
    (exists td, retention_value retention = Ok td /\ 0 <= td)
    /\ Forall (fun v => completes (_parse_offset v) = true) notify_before
    /\ (action = "delete" \/ action = "trash" \/ action = "system_trash") in
  (completes (new_FolderRule path retention notify_before exemptions action patterns)
   = true <-> accepted)
  /\ (completes (new_PatternRule pattern retention notify_before action) = true
      <-> accepted).
Proof.
  intros accepted. unfold accepted, new_FolderRule, new_PatternRule.
  rewrite <- valid_action_names, <- mapM_completes.
  destruct (checked_retention retention) as [td|e] eqn:Hret; simpl.
  - apply checked_retention_Ok in Hret.
    destruct (mapM _parse_offset notify_before) as [offsets|e]; simpl.
    + destruct (valid_action action); simpl; split; split; intros H;
        try reflexivity; try discriminate; try (destruct H as (_ & _ & H); discriminate);
        (split; [exists td; exact Hret | split; reflexivity]).
    + split; (split; [discriminate | intros (_ & H & _); discriminate]).
  - assert (Hno : ~ exists td, retention_value retention = Ok td /\ 0 <= td).
    { intros (td & H). apply checked_retention_Ok in H. congruence. }
    split; (split; [discriminate | intros (H & _); contradiction]).
Qed.







(** X10: whether an entry is exempt depends on the set of the exemptions
    only, not on the order in which the loop of [_is_exempt] meets them nor
    on repetitions: the rule holds them as a set. *)
Theorem is_exempt_set_only (rule rule' : FolderRule.t) (relative_path : Path) :
  (forall ex, In ex (FolderRule.exemptions rule) <-> In ex (FolderRule.exemptions rule')) ->
  _is_exempt rule relative_path = _is_exempt rule' relative_path.
Proof.
  intros Hmem.
  destruct (_is_exempt rule relative_path) eqn:E; symmetry.
  - apply is_exempt_iff_exempt_by in E. destruct E as (ex & Hin & Hby).
    apply is_exempt_iff_exempt_by. exists ex. split; [apply Hmem; exact Hin | exact Hby].
  - destruct (_is_exempt rule' relative_path) eqn:E'; [|reflexivity].
    apply is_exempt_iff_exempt_by in E'. destruct E' as (ex & Hin & Hby).
    assert (H : _is_exempt rule relative_path = true).
    { apply is_exempt_iff_exempt_by. exists ex. split; [apply Hmem; exact Hin | exact Hby]. }
    congruence.
Qed.

Lemma is_exempt_set_only_witness :
  _is_exempt
    (FolderRule.mk (mkPath "/" ["srv"]) 0 [0] ["keep"; "logs/a.log"] "delete" [])
    (mkPath "" ["logs"; "a.log"])
  = _is_exempt
      (FolderRule.mk (mkPath "/" ["srv"]) 0 [0] ["logs/a.log"; "keep"; "keep"] "delete" [])
      (mkPath "" ["logs"; "a.log"]).
Proof.
  apply is_exempt_set_only. intros ex. simpl. tauto.
Defined.
(* ------------------------------------------------------------------ *)
(** ** The traversal, and the single disposals *)

(** X11: [_collect_entries] always returns.  Its triples are exactly the
    files and directories strictly below the root of the rule, when that is
    a directory: the absolute path, the path relative to the root, and the
    modification time of the node there; [_iter_rule_entries] yields the same
    pairs of paths.  A root that is no directory yields nothing. *)
Theorem collect_entries_exact (rule : FolderRule.t) (w : world) :
  exists entries,
    _collect_entries rule w = Ok entries
    /\ _iter_rule_entries rule w = Ok (map fst entries)
    /\ forall absolute_path relative_path modified,
        In (absolute_path, relative_path, modified) entries
        <-> exists m children suffix c,
            path_lookup w (FolderRule.path rule) = Some (Dir m children)
            /\ suffix <> [] /\ lookup suffix (Dir m children) = Some c
            /\ absolute_path
               = mkPath (root (FolderRule.path rule))
                   (names (FolderRule.path rule) ++ suffix)
            /\ relative_path = mkPath "" suffix
            /\ modified = node_mtime c.
Proof.
  exists (collected_entries rule w).
  split; [apply collect_entries_total|]. split.
  - rewrite iter_rule_entries_total. unfold collected_entries.
    rewrite map_map. simpl. f_equal. rewrite <- (map_id (rule_entries rule w)) at 1.
    apply map_ext. intros [a r]. reflexivity.
  - intros absolute_path relative_path modified. unfold collected_entries.
    rewrite in_map_iff. split.
    + intros ([a r] & Heq & Hin). simpl in Heq. inversion Heq; subst.
      pose proof Hin as Hspec. apply rule_entries_spec in Hspec.
      destruct Hspec as (m & children & Hroot & suffix & c & Hne & Hl & -> & ->).
      exists m, children, suffix, c. repeat split; auto.
      apply modified_at_lookup. unfold path_lookup in *. simpl.
      rewrite lookup_app, Hroot. exact Hl.
    + intros (m & children & suffix & c & Hroot & Hne & Hl & -> & -> & ->).
      exists (mkPath (root (FolderRule.path rule))
                (names (FolderRule.path rule) ++ suffix), mkPath "" suffix).
      split.
      * simpl. f_equal. apply modified_at_lookup. unfold path_lookup in *. simpl.
        rewrite lookup_app, Hroot. exact Hl.
      * apply rule_entries_spec. exists m, children. split; [exact Hroot|].
        exists suffix, c. auto.
Qed.

Lemma detach_frame (p : Path) (w : world) (q : list string) :
  ~ path_prefix q (names (parent p)) -> ~ path_prefix (names p) q ->
  lookup q (fs (detach p w)) = lookup q (fs w).
Proof.
  intros H1 H2. unfold detach. destruct (names p) eqn:E; [reflexivity|].
  rewrite <- E in *. assert (Hp : names p <> []) by (rewrite E; discriminate).
  simpl. apply (alter_dir_frame _ _ (name p)).
  - intros children y Hy. apply lookup_child_remove_other. exact Hy.
  - exact H1.
  - change (removelast (names p)) with (names (parent p)).
    rewrite (names_split_last p Hp). exact H2.
Qed.

Lemma without_frame (p : Path) (w : world) (q : list string) :
  ~ path_prefix q (names (parent p)) -> ~ path_prefix (names p) q ->
  lookup q (fs (without p w)) = lookup q (fs w).
Proof.
  intros H1 H2. unfold without.
  destruct (exists_ w p); [apply detach_frame; assumption | reflexivity].
Qed.

Lemma without_missing (p : Path) (w : world) :
  exists_ w p = false -> without p w = w.
Proof. intros H. unfold without. rewrite H. reflexivity. Qed.

Lemma below_a_file_missing (w : world) (p : Path) :
  below_a_file w p = true -> exists_ w p = false /\ is_dir w p = false.
Proof.
  intros H. unfold exists_, is_dir, path_lookup.
  destruct (lookup (names p) (fs w)) as [c|] eqn:E; [|auto].
  unfold below_a_file in H. rewrite (file_on_way_found _ _ _ E) in H. discriminate.
Qed.

(** X12: [_remove_path] returns unless the path is below a regular file,
    where it ends in [NotADirectoryError].  When it returns, the entry is
    taken out with all that is below it, whether it is a file or a directory
    that is not empty; whatever is neither below the entry nor an ancestor
    of it is left alone; and when nothing was at the path, nothing has
    changed at all. *)
Theorem remove_path_effect (p : Path) (w : world) :
  names p <> [] ->
  (below_a_file w p = true -> _remove_path p w = Raise NotADirectoryError)
  /\ (below_a_file w p = false ->
      exists w',
        _remove_path p w = Ok w'
        /\ (forall rest, lookup (names p ++ rest) (fs w') = None)
        /\ (forall q, ~ path_prefix q (names (parent p)) -> ~ path_prefix (names p) q ->
                      lookup q (fs w') = lookup q (fs w))
        /\ (exists_ w p = false -> w' = w)).
Proof.
  intros Hne. split.
  - intros Hb. destruct (below_a_file_missing w p Hb) as [He Hd].
    unfold _remove_path, unlink_missing_ok. rewrite Hd, He, Hb. reflexivity.
  - intros Hb. exists (without p w). split; [apply remove_path_returns; exact Hb|].
    split; [|split].
    + intros rest. apply without_absent. exact Hne.
    + intros q. apply without_frame.
    + apply without_missing.
Qed.

Lemma remove_path_effect_witness :
  exists w',
    _remove_path (mkPath "/" ["data"; "logs"]) still_world = Ok w'
    /\ lookup ["data"; "logs"; "a.log"] (fs w') = None
    /\ lookup ["data"; "old.txt"] (fs w') = Some (File (month_ago + 5)).
Proof.
  destruct (remove_path_effect (mkPath "/" ["data"; "logs"]) still_world)
    as (_ & H); [discriminate|].
  destruct (H eq_refl) as (w' & Hw & H1 & H2 & _).
  exists w'. split; [exact Hw|]. split; [exact (H1 ["a.log"])|].
  rewrite (H2 ["data"; "old.txt"]).
  - reflexivity.
  - intros [rest E]. discriminate.
  - intros [rest E]. discriminate.
Defined.

Lemma alter_dir_put_lookup (t : datetime) (x : string) (c : node) (ns : list string) :
  forall n m children,
    lookup ns n = Some (Dir m children) ->
    lookup (ns ++ [x]) (alter_dir t (put_child x c) ns n) = Some c.
Proof.
  induction ns as [|y rest IH]; intros n m children H.
  - simpl in H. inversion H; subst. simpl. rewrite lookup_child_put_same. reflexivity.
  - destruct n as [m0|m0 ch0]; [discriminate|]. simpl in H.
    destruct (lookup_child y ch0) as [c0|] eqn:E; [|discriminate].
    cbn [alter_dir app]. rewrite E. cbn [lookup].
    rewrite lookup_child_put_same. eapply IH. exact H.
Qed.

Lemma attach_lookup (p : Path) (n : node) (w : world) (m : datetime)
    (children : list (string * node)) :
  names p <> [] -> path_lookup w (parent p) = Some (Dir m children) ->
  path_lookup (attach p n w) p = Some n.
Proof.
  intros Hne Hpar. unfold attach, path_lookup.
  destruct (names p) eqn:E; [contradiction|]. rewrite <- E in *. simpl.
  rewrite <- (names_split_last p Hne) at 1.
  eapply alter_dir_put_lookup. exact Hpar.
Qed.

Lemma lookup_fresh_dirs_self (t : datetime) (ns : list string) :
  lookup ns (fresh_dirs t ns) = Some (Dir t []).
Proof.
  induction ns as [|x rest IH]; simpl; [reflexivity|].
  rewrite String.eqb_refl. exact IH.
Qed.

Lemma mkdir_parents_dir (t : datetime) (ns : list string) :
  forall n n',
    node_is_dir n = true -> mkdir_parents t ns n = Ok n' ->
    exists m children, lookup ns n' = Some (Dir m children).
Proof.
  induction ns as [|x rest IH]; intros n n' Hdir H.
  - simpl in H. inversion H; subst. destruct n' as [m|m ch]; [discriminate|].
    exists m, ch. reflexivity.
  - destruct n as [m|m ch]; [discriminate|]. simpl in H.
    destruct (lookup_child x ch) as [[mc|mc chc]|] eqn:E.
    + destruct rest; discriminate.
    + apply bind_Ok in H. destruct H as (c' & Hc' & H). inversion H; subst.
      destruct (IH (Dir mc chc) c' eq_refl Hc') as (m1 & ch1 & H1).
      exists m1, ch1. simpl. rewrite lookup_child_put_same. exact H1.
    + inversion H; subst. exists t, []. simpl.
      rewrite lookup_child_put_same. apply lookup_fresh_dirs_self.
Qed.

Lemma mkdir_makes_dir (p : Path) (w w' : world) :
  names p <> [] -> mkdir p w = Ok w' ->
  exists m children, path_lookup w' p = Some (Dir m children).
Proof.
  intros Hne H. unfold mkdir in H. apply bind_Ok in H.
  destruct H as (n & Hn & H). inversion H; subst. unfold path_lookup. simpl.
  destruct (fs w) as [m|m ch] eqn:E.
  - destruct (names p); [contradiction | discriminate].
  - eapply mkdir_parents_dir; [|exact Hn]. reflexivity.
Qed.

Lemma not_prefix_longer (a b : list string) :
  (List.length b < List.length a)%nat -> ~ path_prefix a b.
Proof. intros H [rest ->]. rewrite length_app in H. lia. Qed.

Lemma parent_shorter (p : Path) :
  names p <> [] -> (List.length (names (parent p)) < List.length (names p))%nat.
Proof.
  intros H. pose proof (f_equal (@List.length string) (names_split_last p H)) as E.
  rewrite length_app in E. change (List.length [name p]) with 1%nat in E. lia.
Qed.

Lemma exists_false_lookup (w : world) (p : Path) :
  exists_ w p = false <-> path_lookup w p = None.
Proof.
  unfold exists_. destruct (path_lookup w p); split; congruence.
Qed.

Lemma apart_sym (a b : list string) : apart a b -> apart b a.
Proof. intros [H1 H2]. split; assumption. Qed.

Lemma alter_dir_survives (P : datetime -> Prop) (t : datetime) (x : string) :
  P t ->
  forall ns n q c,
    lookup q n = Some c -> ~ path_prefix (ns ++ [x]) q ->
    exists c', lookup q (alter_dir t (remove_child x) ns n) = Some c'
               /\ related P c c'.
Proof.
  intros Ht. induction ns as [|z rest IH]; intros n q c Hl Hq.
  - destruct n as [m|m ch]; [exists c; split; [exact Hl | apply related_refl]|].
    destruct q as [|y q'].
    + simpl in Hl. inversion Hl; subst. eexists. split; [reflexivity|].
      simpl. right. exact Ht.
    + exists c. split; [|apply related_refl]. simpl in *.
      rewrite lookup_child_remove_other; [exact Hl|].
      intros ->. apply Hq. exists q'. reflexivity.
  - destruct n as [m|m ch]; [exists c; split; [exact Hl | apply related_refl]|].
    cbn [alter_dir]. destruct (lookup_child z ch) as [c0|] eqn:E;
      [|exists c; split; [exact Hl | apply related_refl]].
    destruct q as [|y q'].
    + simpl in Hl. inversion Hl; subst. eexists. split; [reflexivity|].
      simpl. left. reflexivity.
    + cbn [lookup] in *. destruct (String.eqb y z) eqn:Eyz.
      * apply String.eqb_eq in Eyz. subst y. rewrite lookup_child_put_same.
        rewrite E in Hl. apply IH; [exact Hl|].
        intros [r Hr]. apply Hq. exists r. simpl. rewrite Hr. reflexivity.
      * apply String.eqb_neq in Eyz. rewrite lookup_child_put_other by exact Eyz.
        exists c. split; [exact Hl | apply related_refl].
Qed.

Lemma detach_survives (p : Path) (w : world) (q : list string) (c : node) :
  lookup q (fs w) = Some c -> ~ path_prefix (names p) q ->
  exists c', lookup q (fs (detach p w)) = Some c'
             /\ related (bumped_between w (detach p w)) c c'.
Proof.
  intros Hl Hq. unfold detach. destruct (names p) eqn:E.
  { exists c. split; [exact Hl | apply related_refl]. }
  rewrite <- E in *. assert (Hp : names p <> []) by (rewrite E; discriminate).
  simpl. apply alter_dir_survives; [apply bumped_now | exact Hl|].
  change (removelast (names p)) with (names (parent p)).
  rewrite (names_split_last p Hp). exact Hq.
Qed.

Lemma related_dir (P : datetime -> Prop) (m : datetime)
    (children : list (string * node)) (c' : node) :
  related P (Dir m children) c' -> exists m' children', c' = Dir m' children'.
Proof. destruct c' as [m'|m' ch']; simpl; [intros [] | eauto]. Qed.

(** A rename onto a free name in an existing directory that lies apart
    from the source. *)
Lemma os_rename_free (src dst : Path) (w : world) (n : node) (m : datetime)
    (children : list (string * node)) :
  path_lookup w src = Some n -> path_lookup w dst = None ->
  path_lookup w (parent dst) = Some (Dir m children) ->
  apart (names src) (names dst) ->
  os_rename src dst w = Ok (attach dst n (detach src w))
  /\ path_lookup (attach dst n (detach src w)) dst = Some n.
Proof.
  intros Hsrc Hdst Hpar [Hsd Hds]. unfold os_rename. rewrite Hsrc.
  destruct (list_string_eqb (names src) (names dst)) eqn:E.
  { apply list_string_eqb_eq in E. exfalso. apply Hsd. rewrite E.
    apply path_prefix_refl. }
  destruct (is_prefix (names src) (names dst)) eqn:E2.
  { apply is_prefix_spec in E2. contradiction. }
  rewrite Hpar, Hdst. split; [reflexivity|].
  assert (Hne : names dst <> []).
  { intros H. apply Hds. rewrite H. exists (names src). reflexivity. }
  destruct (detach_survives src w (names (parent dst)) _ Hpar) as (c' & Hkeep & Hrel).
  { intros Hp. apply Hsd. eapply path_prefix_trans; [exact Hp|].
    apply parent_prefix_all. }
  destruct (related_dir _ _ _ _ Hrel) as (m' & children' & ->).
  eapply attach_lookup; eassumption.
Qed.

Lemma shutil_move_free (src dst : Path) (w : world) (n : node) (m : datetime)
    (children : list (string * node)) :
  path_lookup w src = Some n -> path_lookup w dst = None ->
  path_lookup w (parent dst) = Some (Dir m children) ->
  apart (names src) (names dst) ->
  shutil_move src dst w = Ok (attach dst n (detach src w))
  /\ path_lookup (attach dst n (detach src w)) dst = Some n.
Proof.
  intros Hsrc Hdst Hpar Hap.
  destruct (os_rename_free src dst w n m children Hsrc Hdst Hpar Hap) as [Hren Hl].
  split; [|exact Hl]. unfold shutil_move, is_dir. rewrite Hdst. simpl.
  rewrite Hren. reflexivity.
Qed.

(** X13: a disposal into the managed trash whose target
    [trash_dir / rule.path.name / relative_path] is free, in a trash that
    lies apart from the root of the rule: once the directories above the
    target are made, [_move_to_trash] returns the target, the entry is found
    there with its content and times as they were, and nothing is left of it
    at its old place. *)
Theorem move_to_trash_free_target (svc : FolderCleanerService) (rule : FolderRule.t)
    (absolute_path relative_path trash : Path) (w w1 : world) (n : node) :
  let target := trash_target trash rule relative_path in
  trash_dir svc = Some trash ->
  apart (names (FolderRule.path rule)) (names trash) ->
  plain_root rule ->
  entry_of_rule rule (absolute_path, relative_path, node_mtime n) ->
  path_lookup w absolute_path = Some n ->
  exists_ w target = false ->
  mkdir (parent target) w = Ok w1 ->
  exists w',
    _move_to_trash svc rule absolute_path relative_path w = Ok (w', target)
    /\ path_lookup w' target = Some n
    /\ forall rest, lookup (names absolute_path ++ rest) (fs w') = None.
Proof.
  intros target Htrash Hap Hplain He Hsrc Hfree Hmk.
  pose proof He as (Hrel & Hne & Habs). cbn [fst snd] in Hrel, Hne, Habs.
  destruct (trash_target_under trash (name (FolderRule.path rule)) relative_path
              Hplain Hrel Hne) as (Hparent & Htarget & _).
  fold (trash_target trash rule relative_path) in Hparent, Htarget.
  fold target in Hparent, Htarget.
  assert (HapT : apart (names absolute_path) (names target)).
  { apply apart_sym.
    apply (apart_under _ (names (FolderRule.path rule)));
      [|rewrite Habs; apply path_prefix_app].
    apply apart_sym. eapply apart_under; [exact Hap | exact Htarget]. }
  assert (HapP : apart (names (FolderRule.path rule)) (names (parent target))).
  { eapply apart_under; [exact Hap | exact Hparent]. }
  assert (Htne : names target <> []).
  { destruct HapT as [_ H]. intros E. apply H. rewrite E.
    exists (names absolute_path). reflexivity. }
  assert (Hpne : names (parent target) <> []).
  { eapply apart_nonempty. exact HapP. }
  assert (Hsrc1 : path_lookup w1 absolute_path = Some n).
  { unfold path_lookup. rewrite (mkdir_frame _ _ _ _ Hmk); [exact Hsrc|].
    intros Hp. destruct HapP as [HapP _]. apply HapP.
    eapply path_prefix_trans; [|exact Hp]. rewrite Habs. apply path_prefix_app. }
  assert (Hfree1 : path_lookup w1 target = None).
  { unfold path_lookup. rewrite (mkdir_frame _ _ _ _ Hmk).
    - apply exists_false_lookup. exact Hfree.
    - apply not_prefix_longer, parent_shorter. exact Htne. }
  destruct (mkdir_makes_dir _ _ _ Hpne Hmk) as (m & children & Hpar).
  destruct (shutil_move_free absolute_path target w1 n m children
              Hsrc1 Hfree1 Hpar HapT) as [Hmove Hl].
  exists (attach target n (detach absolute_path w1)).
  split; [|split].
  - unfold _move_to_trash. rewrite Htrash.
    fold (trash_target trash rule relative_path). fold target.
    rewrite Hmk. cbn [bind].
    rewrite (proj2 (exists_false_lookup w1 target) Hfree1). cbn [bind fst snd].
    rewrite Hmove. reflexivity.
  - exact Hl.
  - intros rest.
    eapply (shutil_move_absent absolute_path target w1 _ (names absolute_path));
      [exact Hmove | | apply path_prefix_refl | exact HapT].
    rewrite Habs. intros E. apply app_eq_nil in E. destruct E. contradiction.
Qed.

Lemma move_to_trash_free_target_witness :
  exists w',
    _move_to_trash (mkService [] (Some (mkPath "/" ["trash"])))
      (FolderRule.mk (mkPath "/" ["data"]) 0 [0] [] "trash" [])
      (mkPath "/" ["data"; "logs"]) (mkPath "" ["logs"]) still_world
    = Ok (w', mkPath "/" ["trash"; "data"; "logs"])
    /\ path_lookup w' (mkPath "/" ["trash"; "data"; "logs"])
       = Some (Dir month_ago [("a.log", File month_ago)])
    /\ forall rest, lookup (["data"; "logs"] ++ rest) (fs w') = None.
Proof.
  refine (move_to_trash_free_target
            (mkService [] (Some (mkPath "/" ["trash"])))
            (FolderRule.mk (mkPath "/" ["data"]) 0 [0] [] "trash" [])
            (mkPath "/" ["data"; "logs"]) (mkPath "" ["logs"])
            (mkPath "/" ["trash"]) still_world _
            (Dir month_ago [("a.log", File month_ago)])
            eq_refl _ eq_refl _ eq_refl eq_refl eq_refl).
  - split; intros [rest H]; discriminate.
  - split; [reflexivity|]. split; [discriminate | reflexivity].
Defined.

(** X14: a disposal of an entry that exists into the system trash never
    fails on the move: once the trash directory and the directories above
    the target are made, [_move_to_system_trash] returns, with the target
    or, when the move failed and the entry was deleted instead, with the
    path of the entry.  With the trash apart from the root of the rule,
    nothing is left of the entry at its old place in either case. *)
Theorem move_to_system_trash_disposes (rule : FolderRule.t)
    (absolute_path relative_path : Path) (n : node) (w w1 w2 : world) :
  let base := system_trash_base w in
  let target := trash_target base rule relative_path in
  path_lookup w absolute_path = Some n ->
  mkdir base w = Ok w1 ->
  mkdir (parent target) w1 = Ok w2 ->
  apart (names (FolderRule.path rule)) (names base) ->
  plain_root rule ->
  entry_of_rule rule (absolute_path, relative_path, node_mtime n) ->
  exists w' p,
    _move_to_system_trash rule absolute_path relative_path w = Ok (w', p)
    /\ (p = target \/ p = absolute_path)
    /\ forall rest, lookup (names absolute_path ++ rest) (fs w') = None.
Proof.
  intros base target Hsrc Hmk1 Hmk2 Hap Hplain He.
  pose proof He as (Hrel & Hne & Habs). cbn [fst snd] in Hrel, Hne, Habs.
  destruct (trash_target_under base (name (FolderRule.path rule)) relative_path
              Hplain Hrel Hne) as (Hparent & _ & _).
  fold (trash_target base rule relative_path) in Hparent. fold target in Hparent.
  assert (Hsrc2 : path_lookup w2 absolute_path = Some n).
  { unfold path_lookup.
    rewrite (mkdir_frame _ _ _ _ Hmk2), (mkdir_frame _ _ _ _ Hmk1); [exact Hsrc| |].
    - intros Hp. destruct Hap as [Hap _]. apply Hap.
      eapply path_prefix_trans; [|exact Hp]. rewrite Habs. apply path_prefix_app.
    - intros Hp.
      destruct (apart_under _ _ _ Hap Hparent) as [HapP _]. apply HapP.
      eapply path_prefix_trans; [|exact Hp]. rewrite Habs. apply path_prefix_app. }
  assert (Hret : exists w' p,
             _move_to_system_trash rule absolute_path relative_path w = Ok (w', p)
             /\ (p = target \/ p = absolute_path)).
  { unfold _move_to_system_trash.
    change (match trash_override w with
            | Some (String c rest) => expanduser (home w) (Path_of_string (String c rest))
            | _ => joinstr (home w) ".Trash"
            end) with (system_trash_base w).
    fold base. rewrite Hmk1. cbn [bind].
    fold (trash_target base rule relative_path). fold target.
    rewrite Hmk2. cbn [bind].
    destruct (shutil_move absolute_path target w2) as [w3|e]; [eauto|].
    rewrite remove_path_returns.
    - cbn [bind]. eauto.
    - apply exists_not_below_a_file. unfold exists_. rewrite Hsrc2. reflexivity. }
  destruct Hret as (w' & p & Heq & Hp). exists w', p.
  split; [exact Heq|]. split; [exact Hp|].
  refine (proj2 (move_to_system_trash_evolves (mkService [] None)
                   [names (FolderRule.path rule)] rule
                   (absolute_path, relative_path, node_mtime n) w w' p Heq _ Hplain
                   (or_introl eq_refl) He)).
  intros R [<- | []]. split; [discriminate | exact Hap].
Qed.

Lemma move_to_system_trash_disposes_witness :
  exists w' p,
    _move_to_system_trash (FolderRule.mk (mkPath "/" ["data"]) 0 [0] [] "system_trash" [])
      (mkPath "/" ["data"; "old.txt"]) (mkPath "" ["old.txt"]) still_world
    = Ok (w', p)
    /\ (p = mkPath "/" ["home"; "u"; ".Trash"; "data"; "old.txt"]
        \/ p = mkPath "/" ["data"; "old.txt"])
    /\ forall rest, lookup (["data"; "old.txt"] ++ rest) (fs w') = None.
Proof.
  refine (move_to_system_trash_disposes
            (FolderRule.mk (mkPath "/" ["data"]) 0 [0] [] "system_trash" [])
            (mkPath "/" ["data"; "old.txt"]) (mkPath "" ["old.txt"])
            (File (month_ago + 5)) still_world _ _ eq_refl eq_refl eq_refl _ eq_refl _).
  - split; intros [rest H]; discriminate.
  - split; [reflexivity|]. split; [discriminate | reflexivity].
Defined.
(* ------------------------------------------------------------------ *)
(** ** What a [cleanup] that deletes does to the tree *)










Section DeleteOnly.

Variable re_match : string -> string -> bool.






(** X15: a [cleanup] with no rule whose root is a directory returns the
    empty list and leaves the machine as it is: rules whose root is missing
    or is a file are skipped without an error. *)
Theorem cleanup_skips_inactive (svc : FolderCleanerService) (as_of : as_of_arg)
    (w : world) :
  Forall (fun rule => rule_active (world_at as_of w) rule = false) (rules svc) ->
  cleanup re_match svc as_of w = Ok (world_at as_of w, []).
Proof.
  unfold cleanup, world_at. destruct (_normalize_datetime as_of w) as [as_of_dt w0].
  cbn [snd]. generalize (@nil Path). induction (rules svc) as [|rule rest IH];
    intros removed Hall; [reflexivity|].
  inversion Hall as [|? ? Hrule Hrest]; subst.
  cbn [cleanup_rules]. rewrite negb_orb_active, Hrule. simpl. apply IH. exact Hrest.
Qed.



End DeleteOnly.

Lemma cleanup_skips_inactive_witness :
  cleanup re_match_literal
    (mkService [FolderRule.mk (mkPath "/" ["data"; "old.txt"]) 0 [0] [] "delete" [];
                FolderRule.mk (mkPath "/" ["nowhere"]) 0 [0] [] "trash" []] None)
    (AsOfDatetime noon) still_world
  = Ok (still_world, []).
Proof.
  apply (cleanup_skips_inactive re_match_literal).
  repeat constructor.
Defined.


(* ------------------------------------------------------------------ *)
(** ** More on the alerts *)


Section AlertShape.

Variable re_match : string -> string -> bool.

(** An alert of the result, traced back to its group. *)
Lemma alert_of_group (svc : FolderCleanerService) (as_of : as_of_arg)
    (window_days : Z) (w : world) (m : list (date * list Alert)) :
  upcoming_alerts re_match svc as_of window_days w = Ok m ->
  (forall d alerts, In (d, alerts) m -> alerts <> [])
  /\ forall d alerts a,
      In (d, alerts) m -> In a alerts ->
      let group := alert_group re_match svc (world_at as_of w)
                     (as_of_instant as_of w) window_days d (folder a) in
      group <> [] /\ a = alert_for (as_of_instant as_of w) d (folder a, group).
Proof.
  intros Hm.
  destruct (upcoming_alerts_schedule re_match svc as_of window_days w m Hm)
    as (schedule & Hwf & Hitems & ->).
  split.
  - intros d alerts Hin Hnil. unfold alerts_of_schedule in Hin.
    apply in_map_iff in Hin. destruct Hin as ([d0 folders] & E & Hin).
    simpl in E. injection E as E1 E2. rewrite Hnil in E2.
    apply map_eq_nil in E2. subst folders.
    destruct Hwf as [_ Hall]. rewrite Forall_forall in Hall.
    destruct (Hall _ Hin) as [Hne _]. apply Hne. reflexivity.
  - intros d alerts a Hin Ha group.
    destruct (alerts_of_schedule_in _ _ _ _ _ Hin Ha)
      as (folders & items & Hd & Hfe & _ & Halert).
    destruct (schedule_items_in schedule d folders _ items Hwf Hd Hfe) as [Hsi Hne].
    rewrite Hitems in Hsi. fold group in Hsi. subst items. auto.
Qed.


(** X18: with a negative number of [window_days] the window is empty: a
    mapping that [upcoming_alerts] returns is then the empty one, whatever
    the rules and the tree. *)
Theorem upcoming_alerts_negative_window (svc : FolderCleanerService)
    (as_of : as_of_arg) (window_days : Z) (w : world) (m : list (date * list Alert)) :
  window_days < 0 ->
  upcoming_alerts re_match svc as_of window_days w = Ok m ->
  m = [].
Proof.
  intros Hneg Hm.
  destruct (alert_of_group svc as_of window_days w m Hm) as (Hne & Hgroup).
  destruct m as [|[d alerts] rest]; [reflexivity|]. exfalso.
  destruct alerts as [|a alerts]; [apply (Hne d []); [left|]; reflexivity|].
  destruct (Hgroup d (a :: alerts) a (or_introl eq_refl) (or_introl eq_refl))
    as [Hnonempty _].
  destruct (alert_group re_match svc (world_at as_of w) (as_of_instant as_of w)
              window_days d (folder a)) as [|item items] eqn:E; [congruence|].
  assert (Hin : In item (alert_group re_match svc (world_at as_of w)
                           (as_of_instant as_of w) window_days d (folder a)))
    by (rewrite E; left; reflexivity).
  apply alert_group_member in Hin.
  destruct Hin as (rule & ap & rp & L & _ & _ & _ & _ & _ & _ & _ & _ & Hwin & _).
  lia.
Qed.

(** X19: the shape of a mapping that [upcoming_alerts] returns.  Every
    date of the mapping lies in the window from the date of [as_of] to that
    date plus [window_days] and has at least one alert; every alert carries
    the date it is filed under, names the root of a rule of the service that
    is a directory, and lists at least one file, each a relative path of an
    entry of that folder. *)
Theorem upcoming_alerts_shape (svc : FolderCleanerService) (as_of : as_of_arg)
    (window_days : Z) (w : world) (m : list (date * list Alert)) :
  upcoming_alerts re_match svc as_of window_days w = Ok m ->
  forall d alerts,
    In (d, alerts) m ->
    alerts <> []
    /\ forall a,
        In a alerts ->
        alert_date a = d
        /\ date_of (as_of_instant as_of w) <= d
           <= date_of (as_of_instant as_of w) + window_days
        /\ files a <> []
        /\ (exists rule,
               In rule (rules svc) /\ FolderRule.path rule = folder a
               /\ rule_active (world_at as_of w) rule = true)
        /\ forall p,
            In p (files a) ->
            exists rule absolute_path,
              In rule (rules svc) /\ FolderRule.path rule = folder a
              /\ In (absolute_path, p) (rule_entries rule (world_at as_of w)).
Proof.
  intros Hm.
  destruct (alert_of_group svc as_of window_days w m Hm) as (Hne & Hgroup).
  intros d alerts Hin. split; [apply (Hne d), Hin|].
  intros a Ha. destruct (Hgroup d alerts a Hin Ha) as [Hnonempty Halert].
  set (group := alert_group re_match svc (world_at as_of w) (as_of_instant as_of w)
                  window_days d (folder a)) in *.
  assert (Hfiles : forall p, In p (files a) -> exists item, In item group /\ fst item = p).
  { intros p Hp. rewrite Halert in Hp. cbn [alert_for files fst snd] in Hp.
    apply in_map_iff in Hp. destruct Hp as (item & <- & Hitem).
    exists item. split; [|reflexivity].
    apply (Permutation_in _ (sorted_by_posix_perm group)). exact Hitem. }
  destruct group as [|item0 items] eqn:E; [congruence|].
  assert (Hin0 : In item0 (alert_group re_match svc (world_at as_of w)
                             (as_of_instant as_of w) window_days d (folder a)))
    by (fold group; rewrite E; left; reflexivity).
  apply alert_group_member in Hin0.
  destruct Hin0 as (rule0 & ap0 & rp0 & L0 & Hr0 & Hact0 & Hf0 & _ & _ & _ & _ & _
                    & Hwin & _).
  split; [rewrite Halert; reflexivity|]. split; [exact Hwin|]. split.
  - rewrite Halert. cbn [alert_for files fst snd]. intros Hnil.
    apply map_eq_nil in Hnil.
    pose proof (sorted_by_posix_perm (item0 :: items)) as Hperm.
    rewrite Hnil in Hperm. apply Permutation_nil in Hperm. discriminate.
  - split; [exists rule0; auto|].
    intros p Hp. destruct (Hfiles p Hp) as (item & Hitem & <-).
    assert (Hin' : In item (alert_group re_match svc (world_at as_of w)
                              (as_of_instant as_of w) window_days d (folder a)))
      by (fold group; rewrite E; exact Hitem).
    apply alert_group_member in Hin'.
    destruct Hin' as (rule & ap & rp & L & Hr & _ & Hf & Hentry & _ & _ & _ & _ & _ & ->).
    exists rule, ap. auto.
Qed.



(** X22: a wider window only adds: when the calls with [window_days] and
    with a larger number of [window_days] both return, whatever file an
    alert of the first mapping lists for a date and a folder, an alert of
    the second lists for the same date and folder. *)
Theorem upcoming_alerts_window_monotone (svc : FolderCleanerService)
    (as_of : as_of_arg) (window_days window_days' : Z) (w : world)
    (m m' : list (date * list Alert)) :
  window_days <= window_days' ->
  upcoming_alerts re_match svc as_of window_days w = Ok m ->
  upcoming_alerts re_match svc as_of window_days' w = Ok m' ->
  forall d alerts a p,
    In (d, alerts) m -> In a alerts -> In p (files a) ->
    exists alerts' a',
      In (d, alerts') m' /\ In a' alerts'
      /\ folder a' = folder a /\ In p (files a').
Proof.
  intros Hle Hm Hm'.
  destruct (alert_of_group svc as_of window_days w m Hm) as (Hne & Hgroup).
  destruct (upcoming_alerts_schedule re_match svc as_of window_days' w m' Hm')
    as (schedule' & Hwf' & Hitems' & ->).
  intros d alerts a p Hin Ha Hp.
  destruct (Hgroup d alerts a Hin Ha) as [Hnonempty Halert].
  set (group := alert_group re_match svc (world_at as_of w) (as_of_instant as_of w)
                  window_days d (folder a)) in *.
  rewrite Halert in Hp. cbn [alert_for files fst snd] in Hp.
  apply in_map_iff in Hp. destruct Hp as (item & Hfst & Hitem).
  apply (Permutation_in _ (sorted_by_posix_perm group)) in Hitem.
  set (group' := alert_group re_match svc (world_at as_of w) (as_of_instant as_of w)
                   window_days' d (folder a)).
  assert (Hitem' : In item group').
  { unfold group in Hitem. apply alert_group_member in Hitem.
    apply alert_group_member.
    destruct Hitem as (rule & ap & rp & L & H1 & H2 & H3 & H4 & H5 & H6 & H7 & H8
                       & H9 & H10).
    exists rule, ap, rp, L. repeat (split; [assumption|]). split; [lia | exact H10]. }
  assert (Hne' : schedule_items d (folder a) schedule' <> []).
  { rewrite Hitems'. fold group'. intros E. rewrite E in Hitem'. destruct Hitem'. }
  destruct (schedule_items_found schedule' d (folder a) Hne') as (folders & Hd & Hfe).
  rewrite Hitems' in Hfe. fold group' in Hfe.
  exists (map (alert_for (as_of_instant as_of w) d) folders),
    (alert_for (as_of_instant as_of w) d (folder a, group')).
  split; [|split; [|split]].
  - unfold alerts_of_schedule. apply in_map_iff.
    exists (d, folders). split; [reflexivity | exact Hd].
  - apply in_map_iff. exists (folder a, group'). split; [reflexivity | exact Hfe].
  - reflexivity.
  - cbn [alert_for files fst snd]. apply in_map_iff. exists item.
    split; [exact Hfst|].
    apply (Permutation_in _ (Permutation_sym (sorted_by_posix_perm group'))).
    exact Hitem'.
Qed.

End AlertShape.

Lemma upcoming_alerts_negative_window_witness :
  upcoming_alerts re_match_literal lead_times_service (AsOfDatetime noon) (-1)
    (single_file_world noon)
  = Ok [].
Proof.
  assert (Hm : upcoming_alerts re_match_literal lead_times_service (AsOfDatetime noon)
                 (-1) (single_file_world noon)
               = Ok (alerts_of (upcoming_alerts re_match_literal lead_times_service
                                  (AsOfDatetime noon) (-1) (single_file_world noon)))).
  { apply returned_alerts. vm_compute. reflexivity. }
  rewrite Hm. apply f_equal.
  apply (upcoming_alerts_negative_window re_match_literal lead_times_service
           (AsOfDatetime noon) (-1) (single_file_world noon) _ eq_refl Hm).
Defined.

Lemma upcoming_alerts_shape_witness :
  exists m,
    upcoming_alerts re_match_literal lead_times_service (AsOfDatetime noon) 10
      (single_file_world noon) = Ok m
    /\ Forall (fun da => snd da <> []) m.
Proof.
  assert (Hm : upcoming_alerts re_match_literal lead_times_service (AsOfDatetime noon)
                 10 (single_file_world noon)
               = Ok (alerts_of (upcoming_alerts re_match_literal lead_times_service
                                  (AsOfDatetime noon) 10 (single_file_world noon)))).
  { apply returned_alerts. vm_compute. reflexivity. }
  eexists. split; [exact Hm|].
  apply Forall_forall. intros [d alerts] Hin.
  exact (proj1 (upcoming_alerts_shape re_match_literal lead_times_service
                  (AsOfDatetime noon) 10 (single_file_world noon) _ Hm d alerts Hin)).
Defined.



Lemma upcoming_alerts_window_monotone_witness :
  exists m m',
    upcoming_alerts re_match_literal lead_times_service (AsOfDatetime noon) 5
      (single_file_world noon) = Ok m
    /\ upcoming_alerts re_match_literal lead_times_service (AsOfDatetime noon) 10
         (single_file_world noon) = Ok m'
    /\ forall d alerts a p,
        In (d, alerts) m -> In a alerts -> In p (files a) ->
        exists alerts' a',
          In (d, alerts') m' /\ In a' alerts'
          /\ folder a' = folder a /\ In p (files a').
Proof.
  assert (Hm : upcoming_alerts re_match_literal lead_times_service (AsOfDatetime noon)
                 5 (single_file_world noon)
               = Ok (alerts_of (upcoming_alerts re_match_literal lead_times_service
                                  (AsOfDatetime noon) 5 (single_file_world noon)))).
  { apply returned_alerts. vm_compute. reflexivity. }
  assert (Hm' : upcoming_alerts re_match_literal lead_times_service (AsOfDatetime noon)
                  10 (single_file_world noon)
                = Ok (alerts_of (upcoming_alerts re_match_literal lead_times_service
                                   (AsOfDatetime noon) 10 (single_file_world noon)))).
  { apply returned_alerts. vm_compute. reflexivity. }
  eexists. eexists. split; [exact Hm|]. split; [exact Hm'|].
  apply (upcoming_alerts_window_monotone re_match_literal lead_times_service
           (AsOfDatetime noon) 5 10 (single_file_world noon) _ _); [lia | exact Hm | exact Hm'].
Defined.
(* ------------------------------------------------------------------ *)
(** ** Time stamps and instants *)

Lemma string_length_app (a b : string) :
  String.length (a ++ b) = (String.length a + String.length b)%nat.
Proof. induction a as [|c a IH]; simpl; [|rewrite IH]; reflexivity. Qed.

Lemma all_digits_app (a b : string) :
  all_digits (a ++ b) = all_digits a && all_digits b.
Proof.
  induction a as [|c a IH]; simpl; [reflexivity|].
  rewrite IH, andb_assoc. reflexivity.
Qed.

Lemma digit_char_digit (d : Z) : is_digit (digit_char d) = true.
Proof.
  unfold is_digit, ascii_in_range, digit_char.
  pose proof (Z.mod_pos_bound d 10 ltac:(lia)) as H.
  rewrite N_ascii_embedding by lia.
  apply andb_true_iff. split; apply N.leb_le; lia.
Qed.

Lemma zero_padded_length (width : nat) :
  forall n, String.length (zero_padded width n) = width.
Proof.
  induction width as [|k IH]; intros n; [reflexivity|].
  cbn [zero_padded]. rewrite string_length_app, IH. simpl. lia.
Qed.

Lemma zero_padded_digits (width : nat) :
  forall n, all_digits (zero_padded width n) = true.
Proof.
  induction width as [|k IH]; intros n; [reflexivity|].
  cbn [zero_padded]. rewrite all_digits_app, IH. simpl.
  rewrite digit_char_digit. reflexivity.
Qed.

Lemma strftime_shape (dt : datetime) :
  String.length (strftime_YmdHMS dt) = 14%nat
  /\ all_digits (strftime_YmdHMS dt) = true.
Proof.
  unfold strftime_YmdHMS. destruct (ord2ymd (date_of dt)) as [[y m] d].
  rewrite !string_length_app, !all_digits_app, !zero_padded_length,
    !zero_padded_digits. split; reflexivity.
Qed.

Lemma seconds_of_day (dt : datetime) :
  date_of dt = dt / usec_per_second / 86400
  /\ time_of dt / usec_per_second = (dt / usec_per_second) mod 86400.
Proof.
  unfold date_of, time_of.
  assert (E : usec_per_day = usec_per_second * 86400) by reflexivity.
  rewrite E. split.
  - rewrite Z.div_div by (unfold usec_per_second; lia). reflexivity.
  - rewrite Z.rem_mul_r by (unfold usec_per_second; lia).
    rewrite Z.add_comm, Z.mul_comm, Z.div_add_l by (unfold usec_per_second; lia).
    rewrite (Z.div_small (dt mod usec_per_second)); [lia|].
    apply Z.mod_pos_bound. unfold usec_per_second. lia.
Qed.

(** X23: the time stamp that [_move_to_trash] appends is the local time
    in whole seconds: two instants within the same second get the same
    fourteen digits. *)
Theorem trash_timestamp_by_second (t t' : datetime) :
  t / usec_per_second = t' / usec_per_second ->
  strftime_YmdHMS t = strftime_YmdHMS t'
  /\ String.length (strftime_YmdHMS t) = 14%nat
  /\ all_digits (strftime_YmdHMS t) = true.
Proof.
  intros H. split; [|apply strftime_shape]. unfold strftime_YmdHMS.
  destruct (seconds_of_day t) as [D T]. destruct (seconds_of_day t') as [D' T'].
  rewrite D, T, D', T', H. reflexivity.
Qed.

Lemma trash_timestamp_by_second_witness :
  strftime_YmdHMS noon = strftime_YmdHMS (noon + 999999).
Proof.
  apply (trash_timestamp_by_second noon (noon + 999999)). reflexivity.
Defined.

Lemma with_name_Ok (p renamed : Path) (s : string) :
  with_name p s = Ok renamed ->
  names p <> [] /\ parent renamed = parent p /\ name renamed = s.
Proof.
  unfold with_name, parent, name. destruct (names p) eqn:E; [discriminate|].
  rewrite <- E. intros H. inversion H; subst. simpl.
  rewrite removelast_last, last_last. repeat split. rewrite E. discriminate.
Qed.

(** X24: a disposal into the managed trash whose target is taken.  When
    [_move_to_trash] returns, the path it returns lies in the directory of
    the target and is named as the target with [__] and the fourteen digits
    of the present second appended; it is never the target itself, so what
    is at the target stays. *)
Theorem move_to_trash_taken_target (svc : FolderCleanerService) (rule : FolderRule.t)
    (absolute_path relative_path trash : Path) (w w1 w' : world) (p : Path) :
  let target := trash_target trash rule relative_path in
  trash_dir svc = Some trash ->
  mkdir (parent target) w = Ok w1 ->
  exists_ w1 target = true ->
  _move_to_trash svc rule absolute_path relative_path w = Ok (w', p) ->
  parent p = parent target
  /\ name p = (name target ++ "__" ++ strftime_YmdHMS (now w1))%string
  /\ String.length (strftime_YmdHMS (now w1)) = 14%nat
  /\ all_digits (strftime_YmdHMS (now w1)) = true
  /\ p <> target.
Proof.
  intros target Htrash Hmk Htaken H. unfold _move_to_trash in H. rewrite Htrash in H.
  fold (trash_target trash rule relative_path) in H. fold target in H.
  rewrite Hmk in H. cbn [bind] in H. rewrite Htaken in H.
  apply bind_Ok in H. destruct H as ([w2 dst] & Hwt & H).
  apply bind_Ok in Hwt. destruct Hwt as (renamed & Hren & Hwt).
  inversion Hwt; subst w2 dst. cbn [fst snd] in H.
  apply bind_Ok in H. destruct H as (w3 & _ & H). inversion H; subst w3 p.
  apply with_name_Ok in Hren. destruct Hren as (Hne & Hpar & Hname).
  destruct (strftime_shape (now w1)) as [Hlen Hdig].
  repeat (split; [assumption|]).
  intros E. rewrite E in Hname.
  apply (f_equal String.length) in Hname.
  rewrite !string_length_app, Hlen in Hname. simpl in Hname. lia.
Qed.

Lemma move_to_trash_taken_target_witness :
  exists w' p,
    _move_to_trash (mkService [] (Some (mkPath "/" ["trash"])))
      (FolderRule.mk (mkPath "/" ["data"]) 0 [0] [] "trash" [])
      (mkPath "/" ["data"; "x.txt"]) (mkPath "" ["x.txt"]) taken_world
    = Ok (w', p)
    /\ p <> mkPath "/" ["trash"; "data"; "x.txt"]
    /\ parent p = mkPath "/" ["trash"; "data"].
Proof.
  eexists. eexists. split; [reflexivity|].
  destruct (move_to_trash_taken_target
              (mkService [] (Some (mkPath "/" ["trash"])))
              (FolderRule.mk (mkPath "/" ["data"]) 0 [0] [] "trash" [])
              (mkPath "/" ["data"; "x.txt"]) (mkPath "" ["x.txt"])
              (mkPath "/" ["trash"]) taken_world _ _ _
              eq_refl eq_refl eq_refl eq_refl)
    as (Hpar & _ & _ & _ & Hneq).
  split; [exact Hneq | exact Hpar].
Defined.

(** X25: a [date] given as [as_of] stands for its midnight: the instant
    that [_normalize_datetime] makes of it falls on that date, at time zero,
    before every other instant of the date, and the clock is not read; a
    [datetime] is taken as it is. *)
Theorem normalize_date_is_midnight (d : date) (t : datetime) (w : world) :
  date_of t = d ->
  date_of (as_of_instant (AsOfDate d) w) = d
  /\ time_of (as_of_instant (AsOfDate d) w) = 0
  /\ as_of_instant (AsOfDate d) w <= t
  /\ world_at (AsOfDate d) w = w
  /\ as_of_instant (AsOfDatetime t) w = t
  /\ world_at (AsOfDatetime t) w = w.
Proof.
  intros Ht. unfold as_of_instant, world_at. cbn [_normalize_datetime fst snd].
  unfold date_of, time_of, combine_midnight in *.
  assert (Hpos : 0 < usec_per_day) by reflexivity.
  repeat split.
  - apply Z.div_mul. lia.
  - apply Z.mod_mul. lia.
  - subst d. rewrite Z.mul_comm. apply Z.mul_div_le. exact Hpos.
Qed.

Lemma normalize_date_is_midnight_witness :
  as_of_instant (AsOfDate (date_of noon)) still_world <= noon.
Proof.
  exact (proj1 (proj2 (proj2
    (normalize_date_is_midnight (date_of noon) noon still_world eq_refl)))).
Defined.
(* ------------------------------------------------------------------ *)
(** ** The notification script reads back *)

Lemma string_app_assoc (a b c : string) : ((a ++ b) ++ c = a ++ (b ++ c))%string.
Proof. induction a as [|x a IH]; simpl; [|rewrite IH]; reflexivity. Qed.

Lemma escape_cons (c : ascii) (text : string) :
  _escape (String c text)
  = if Ascii.eqb c backslash then String backslash (String backslash (_escape text))
    else if Ascii.eqb c dquote then String backslash (String dquote (_escape text))
         else String c (_escape text).
Proof.
  unfold _escape. cbn [replace_char].
  destruct (Ascii.eqb c backslash) eqn:E1.
  - reflexivity.
  - cbn [replace_char]. destruct (Ascii.eqb c dquote); reflexivity.
Qed.

Lemma read_escaped (text rest : string) :
  read_literal (_escape text ++ String dquote rest) = Some (text, rest).
Proof.
  induction text as [|c text IH].
  - reflexivity.
  - rewrite escape_cons. destruct (Ascii.eqb c backslash) eqn:E1.
    + apply Ascii.eqb_eq in E1. subst c.
      change (read_literal
                (String backslash (String backslash
                   (_escape text ++ String dquote rest)))
              = Some (String backslash text, rest)).
      cbn [read_literal]. rewrite IH. reflexivity.
    + destruct (Ascii.eqb c dquote) eqn:E2.
      * apply Ascii.eqb_eq in E2. subst c.
        change (read_literal
                  (String backslash (String dquote
                     (_escape text ++ String dquote rest)))
                = Some (String dquote text, rest)).
        cbn [read_literal]. rewrite IH. reflexivity.
      * change (read_literal (String c (_escape text ++ String dquote rest))
                = Some (String c text, rest)).
        cbn [read_literal]. rewrite E2, E1, IH. reflexivity.
Qed.

Lemma read_quoted_app (text rest : string) :
  read_quoted (quoted text ++ rest) = Some (text, rest).
Proof.
  unfold quoted, read_quoted. cbn [append].
  rewrite string_app_assoc. apply read_escaped.
Qed.

(** X26: the script that [_build_script] makes reads back as it was
    meant: read as AppleScript, with [_escape] applied to each text, it is
    the command [display notification] with exactly the message, the title,
    the subtitle and the sound that were given, whatever double quotes and
    backslashes they hold; a literal of an escaped text ends at its closing
    quote and nowhere before. *)
Theorem build_script_reads_back (self : MacOSNotificationOutlet.t)
    (message subtitle : string) :
  read_script (_build_script self message subtitle)
  = Some (message, MacOSNotificationOutlet.title self, subtitle, effective_sound self)
  /\ forall text rest,
      read_literal (_escape text ++ String dquote rest) = Some (text, rest).
Proof.
  split; [|apply read_escaped].
  unfold _build_script, effective_sound, read_script.
  destruct (MacOSNotificationOutlet.sound self) as [[|c snd_name]|];
    cbn [app join_with expect append Ascii.eqb Bool.eqb];
    rewrite ?string_app_assoc;
    repeat (rewrite read_quoted_app;
            cbn [expect append Ascii.eqb Bool.eqb]; rewrite ?string_app_assoc);
    try reflexivity.
  - rewrite <- (string_app_nil_r (quoted subtitle)), read_quoted_app. reflexivity.
  - rewrite <- (string_app_nil_r (quoted (String c snd_name))), read_quoted_app.
    reflexivity.
  - rewrite <- (string_app_nil_r (quoted subtitle)), read_quoted_app. reflexivity.
Qed.

(* ------------------------------------------------------------------ *)
(** ** Alerts and disposals of one rule *)

Lemma filter_perm {A : Type} (f : A -> bool) (l l' : list A) :
  Permutation l l' -> Permutation (filter f l) (filter f l').
Proof.
  induction 1 as [|x l l' _ IH|x y l|l l' l'' _ IH1 _ IH2]; simpl.
  - constructor.
  - destruct (f x); [apply perm_skip|]; exact IH.
  - destruct (f x), (f y); try apply perm_swap; apply Permutation_refl.
  - eapply Permutation_trans; eassumption.
Qed.

Section OneRule.

Variable re_match : string -> string -> bool.

Lemma dispose_all_length (svc : FolderCleanerService) (rule : FolderRule.t)
    (due : list (Path * Path * datetime)) :
  forall w removed w' removed',
    dispose_all re_match svc rule due w removed = Ok (w', removed') ->
    List.length removed' = (List.length removed + List.length due)%nat.
Proof.
  induction due as [|e rest IH]; intros w removed w' removed' H.
  - inversion H; subst. simpl. lia.
  - cbn [dispose_all] in H. apply bind_Ok in H. destruct H as ([w1 p] & _ & H).
    apply IH in H. rewrite length_app in H. simpl in *. lia.
Qed.

(** X27: what an alert lists is not overdue, so [upcoming_alerts] and
    [cleanup] at the same instant share an entry only on the boundary: for a
    service with one rule, an entry that an alert lists has its due instant,
    modification time plus effective retention, at or after [as_of]; the test
    of [cleanup], age at least the retention, holds for it only when it falls
    due at [as_of] exactly. *)
Theorem alerted_entries_not_overdue (svc : FolderCleanerService)
    (rule : FolderRule.t) (as_of : as_of_arg) (window_days : Z) (w : world)
    (m : list (date * list Alert)) :
  rules svc = [rule] ->
  upcoming_alerts re_match svc as_of window_days w = Ok m ->
  let w0 := world_at as_of w in
  let as_of_dt := as_of_instant as_of w in
  forall d alerts a relative_path absolute_path modified,
    In (d, alerts) m -> In a alerts -> In relative_path (files a) ->
    In (absolute_path, relative_path, modified) (collected_entries rule w0) ->
    let retention := fst (_effective_policy re_match rule relative_path) in
    _is_exempt rule relative_path = false
    /\ as_of_dt <= modified + retention
    /\ (retention <= as_of_dt - modified -> modified + retention = as_of_dt).
Proof.
  intros Hrules Hm w0 as_of_dt.
  destruct (alert_of_group re_match svc as_of window_days w m Hm) as (Hne & Hgroup).
  intros d alerts a relative_path absolute_path modified Hin Ha Hp He retention.
  subst w0 as_of_dt retention.
  destruct (Hgroup d alerts a Hin Ha) as [Hnonempty Halert].
  rewrite Halert in Hp. cbn [alert_for files fst snd] in Hp.
  apply in_map_iff in Hp. destruct Hp as (item & Hfst & Hitem).
  apply (Permutation_in _ (sorted_by_posix_perm _)) in Hitem.
  apply alert_group_member in Hitem.
  destruct Hitem as (rule' & ap & rp & L & Hr & _ & _ & Hentry & Hex & Hdue & _ & _
                     & _ & ->).
  cbn [fst] in Hfst. subst rp. rewrite Hrules in Hr.
  destruct Hr as [<- | []].
  apply collected_entry_shape in He. cbn [fst snd] in He.
  destruct He as (_ & He & Hmod).
  destruct (rule_entry_relative rule _ _ _ Hentry) as (_ & _ & Hap).
  destruct (rule_entry_relative rule _ _ _ He) as (_ & _ & Habs).
  assert (Hsame : ap = absolute_path) by congruence.
  rewrite Hsame, <- Hmod in Hdue. split; [exact Hex|]. split; [exact Hdue|]. lia.
Qed.

(** X28: what a completed [cleanup] of one rule leaves, whatever the
    actions, when the managed trash and the system trash lie apart from the
    root of the rule: it returns one path for each collected entry that is
    not exempt and as old as its retention; nothing is left at or below the
    old path of such an entry; and nothing is below the root afterwards that
    was not there before. *)
Theorem cleanup_disposes_the_due (svc : FolderCleanerService) (rule : FolderRule.t)
    (as_of : as_of_arg) (w w' : world) (removed : list Path) :
  rules svc = [rule] ->
  plain_root rule ->
  trash_apart svc (world_at as_of w) [names (FolderRule.path rule)] ->
  cleanup re_match svc as_of w = Ok (w', removed) ->
  let w0 := world_at as_of w in
  let as_of_dt := as_of_instant as_of w in
  let due := filter (is_due re_match rule as_of_dt) (collected_entries rule w0) in
  List.length removed = List.length due
  /\ (forall e rest,
         In e due -> lookup (names (fst (fst e)) ++ rest) (fs w') = None)
  /\ (forall suffix c',
         lookup (names (FolderRule.path rule) ++ suffix) (fs w') = Some c' ->
         exists c,
           lookup (names (FolderRule.path rule) ++ suffix) (fs w0) = Some c
           /\ related (bumped_between w0 w') c c').
Proof.
  intros Hrules Hplain Hap H w0 as_of_dt due.
  unfold cleanup in H. subst due as_of_dt w0. unfold world_at, as_of_instant in *.
  destruct (_normalize_datetime as_of w) as [t w1]. cbn [fst snd] in *.
  rewrite Hrules, cleanup_rules_step, negb_orb_active in H.
  destruct (rule_active w1 rule) eqn:Hact; cbn [negb] in H.
  - apply bind_Ok in H. destruct H as ([w2 removed2] & Hd & H).
    cbn [cleanup_rules fst snd] in H. inversion H; subst w2 removed2.
    set (plan := sort_deepest_first (collected_entries rule w1)) in *.
    assert (Hperm : Permutation plan (collected_entries rule w1))
      by apply sort_deepest_first_perm.
    assert (Hall : Forall (entry_of_rule rule)
                     (filter (is_due re_match rule t) plan)).
    { apply Forall_forall. intros e He. apply filter_In in He. destruct He as [He _].
      apply (Permutation_in _ Hperm) in He.
      apply collected_entry_shape in He. apply He. }
    destruct (dispose_all_evolves re_match svc [names (FolderRule.path rule)] rule
                _ Hplain (or_introl eq_refl) Hall w1 [] w' removed Hd Hap)
      as [Hev Hgone].
    split; [|split].
    + rewrite (dispose_all_length svc rule _ _ _ _ _ Hd). simpl.
      assert (Hp : Permutation (filter (is_due re_match rule t) plan)
                     (filter (is_due re_match rule t) (collected_entries rule w1))).
      { apply filter_perm. exact Hperm. }
      apply Permutation_length. exact Hp.
    + intros e rest He. apply Hgone. apply filter_In in He. destruct He as [He Hdue].
      apply filter_In. split; [|exact Hdue].
      apply (Permutation_in _ (Permutation_sym Hperm)). exact He.
    + intros suffix c' Hl. destruct Hev as [_ Hs].
      apply (Hs _ (or_introl eq_refl) suffix c' Hl).
  - assert (Hnone : collected_entries rule w1 = []).
    { unfold collected_entries. destruct (rule_entries rule w1) as [|[a r] l] eqn:E;
        [reflexivity|]. exfalso.
      assert (Hin : In (a, r) (rule_entries rule w1)) by (rewrite E; left; reflexivity).
      apply rule_entries_spec in Hin. destruct Hin as (m & ch & Hroot & _).
      unfold rule_active, exists_, is_dir in Hact. rewrite Hroot in Hact. discriminate. }
    rewrite Hnone. cbn [cleanup_rules] in H. inversion H; subst. simpl.
    split; [reflexivity|]. split; [intros e rest []|].
    intros suffix c' Hl. exists c'. split; [exact Hl | apply related_refl].
Qed.

End OneRule.

Lemma alerted_entries_not_overdue_witness :
  exists m,
    upcoming_alerts re_match_literal lead_times_service (AsOfDatetime noon) 10
      (single_file_world noon) = Ok m
    /\ forall d alerts a,
        In (d, alerts) m -> In a alerts -> In (mkPath "" ["file.txt"]) (files a) ->
        noon <= noon + 10 * usec_per_day.
Proof.
  assert (Hm : upcoming_alerts re_match_literal lead_times_service (AsOfDatetime noon)
                 10 (single_file_world noon)
               = Ok (alerts_of (upcoming_alerts re_match_literal lead_times_service
                                  (AsOfDatetime noon) 10 (single_file_world noon)))).
  { apply returned_alerts. vm_compute. reflexivity. }
  eexists. split; [exact Hm|]. intros d alerts a Hin Ha Hp.
  exact (proj1 (proj2 (alerted_entries_not_overdue re_match_literal lead_times_service
                         lead_times_rule (AsOfDatetime noon) 10 (single_file_world noon)
                         _ eq_refl Hm d alerts a (mkPath "" ["file.txt"])
                         (mkPath "/" ["root"; "file.txt"]) noon Hin Ha Hp
                         (or_introl eq_refl)))).
Defined.

Lemma cleanup_disposes_the_due_witness :
  List.length (removed_by (cleanup re_match_literal sample_service (AsOfDatetime noon)
                             sample_world)) = 3%nat
  /\ lookup ["data"; "logs"; "a.log"] (fs sample_after) = None.
Proof.
  destruct (cleanup_disposes_the_due re_match_literal sample_service sample_rule
              (AsOfDatetime noon) sample_world sample_after
              (removed_by (cleanup re_match_literal sample_service (AsOfDatetime noon)
                             sample_world)) eq_refl eq_refl)
    as (Hlen & Hgone & _).
  - intros R [<- | []]. split.
    + intros T HT. inversion HT; subst.
      split; intros [r Hr]; discriminate.
    + change (names (system_trash_base sample_world)) with ["home"; "u"; ".Trash"].
      split; intros [r Hr]; discriminate.
  - apply (completed_result _ sample_world). vm_compute. reflexivity.
  - split; [exact Hlen|].
    apply (Hgone sample_a_log []). apply filter_In. split.
    + right. right. right. left. reflexivity.
    + vm_compute. reflexivity.
Defined.
